(** * MaiVid Studio: the render pipeline core, embedded and verified

    The definitions follow the Python sources module by module; the
    properties come after them, in one module of facts per source module.

    - [Tracker]       src/backend/video/progress_tracker.py
    - [Orchestrator]  src/backend/generation/video_generator.py
    - [Compositor]    src/backend/video/processor.py
    - [FixWorkflow]   src/backend/comfyui/fix_workflow.py
    - [Backend]       src/backend/comfyui/interface.py, the wait for a prompt
    - [Patcher]       src/backend/comfyui/interface.py, the workflow patch
    - [TrackerFiles]  src/backend/video/progress_tracker.py, the files
    - [SceneRequest]  src/backend/comfyui/interface.py, the nodes patched
    - [PromptOutputs] src/backend/comfyui/interface.py, the outputs read

    Conventions. Python floats are modelled by exact rationals ([Q]): every
    operation the tracker performs on them is monotone, and the concrete
    values of the examples are dyadic, hence exact in IEEE arithmetic too.
    What lies outside a function (the network, the encoder, the file
    system, the clock, the random generator) is a parameter of its model.
    An exception is [None] where it matters and is spelled out where the
    source catches it. Log lines are left out unless a property is about
    them. *)

From Stdlib Require Import ZArith QArith Qminmax Lia Lqa Ascii String Sorted.
From stdpp Require Import base tactics option list strings pretty gmap.

Local Open Scope Z_scope.
Set Warnings "-register-all".


(** ** progress_tracker.py *)
Module Tracker.

(** The text stored in ['current_stage']; the f-strings of the source are
    kept as structured data. *)
Inductive stage_text :=
| TxtInitializing
| TxtDescription (d : string)
| TxtProcessingScene (k total : Z)
| TxtAddingTransitions (k total : Z)
| TxtAddingAudio
| TxtCompleted.

(** One entry of [progress_data]; the three timestamps and the list of
    scene descriptions are left out. *)
Record job := Job {
  video_title : string;
  total_scenes : Z;
  processed_scenes : Z;
  current_stage : stage_text;
  stage_name : string;
  stage_progress : Q;
  overall_progress : Q;
  status : string;
  error : option string;
  video_path : option string
}.

(** [self.progress_data] *)
Abbreviation store := (gmap string job).

(** The shape shared by every mutator: take the lock, return when the job
    is unknown, otherwise rewrite its entry in place (the entry is then
    saved to disk, which is not modelled). *)
Definition with_job (job_id : string) (f : job -> job) (st : store) : store :=
  match st !! job_id with
  | None => st
  | Some j => <[job_id := f j]> st
  end.

Definition new_job (total : Z) (title : string) : job :=
  Job title total 0 TxtInitializing "initializing" 0 0 "running" None None.

Definition create_job (job_id : string) (total : Z) (title : string)
  (st : store) : store :=
  <[job_id := new_job total title]> st.

Definition job_set_total_scenes (total : Z) (j : job) : job :=
  Job (video_title j) total (processed_scenes j) (current_stage j)
      (stage_name j) (stage_progress j) (overall_progress j) (status j)
      (error j) (video_path j).

Definition set_total_scenes (job_id : string) (total : Z) : store -> store :=
  with_job job_id (job_set_total_scenes total).

Definition stage_weights : list (string * Q) :=
  [("initializing", 0%Q); ("download", 5%Q); ("lyrics", 10%Q);
   ("scene_planning", 15%Q); ("scene_generation", 20%Q);
   ("video_creation", 50%Q)].

Fixpoint assoc {A} (k : string) (l : list (string * A)) : option A :=
  match l with
  | [] => None
  | (k', v) :: l' => if String.eqb k k' then Some v else assoc k l'
  end.

Definition job_update_stage (stage description : string) (j : job) : job :=
  Job (video_title j) (total_scenes j) (processed_scenes j)
      (TxtDescription description) stage 0
      (match assoc stage stage_weights with
       | Some w => w
       | None => overall_progress j
       end)
      (status j) (error j) (video_path j).

Definition update_stage (job_id stage description : string)
  : store -> store :=
  with_job job_id (job_update_stage stage description).

(** [(k + 1) / max(1, total) * 100] *)
Definition percent_done (k total : Z) : Q :=
  (inject_Z (k + 1) / inject_Z (Z.max 1 total) * 100)%Q.

(** [min(100, lo + (hi - lo) * p / 100)] *)
Definition band (lo hi p : Q) : Q := Qmin 100 (lo + (hi - lo) * p / 100)%Q.

Definition job_update_scene_progress (scene_index : Z) (j : job) : job :=
  let sp := percent_done scene_index (total_scenes j) in
  Job (video_title j) (total_scenes j) (processed_scenes j + 1)
      (TxtProcessingScene (scene_index + 1) (total_scenes j))
      (stage_name j) sp
      (if String.eqb (stage_name j) "scene_generation" then band 20 50 sp
       else if String.eqb (stage_name j) "video_creation" then band 50 75 sp
       else overall_progress j)
      (status j) (error j) (video_path j).

Definition update_scene_progress (job_id : string) (scene_index : Z)
  : store -> store :=
  with_job job_id (job_update_scene_progress scene_index).

Definition job_update_transition_progress
  (transition_index total_transitions : Z) (j : job) : job :=
  let sp := percent_done transition_index total_transitions in
  Job (video_title j) (total_scenes j) (processed_scenes j)
      (TxtAddingTransitions (transition_index + 1) total_transitions)
      (stage_name j) sp (band 75 90 sp)
      (status j) (error j) (video_path j).

Definition update_transition_progress (job_id : string)
  (transition_index total_transitions : Z) : store -> store :=
  with_job job_id
    (job_update_transition_progress transition_index total_transitions).

Definition job_update_audio_progress (progress_percent : Q) (j : job) : job :=
  Job (video_title j) (total_scenes j) (processed_scenes j)
      TxtAddingAudio (stage_name j) progress_percent
      (band 90 100 progress_percent)
      (status j) (error j) (video_path j).

Definition update_audio_progress (job_id : string) (progress_percent : Q)
  : store -> store :=
  with_job job_id (job_update_audio_progress progress_percent).

Definition job_complete (path : string) (j : job) : job :=
  Job (video_title j) (total_scenes j) (processed_scenes j)
      TxtCompleted (stage_name j) 100 100 "completed" (error j) (Some path).

Definition complete_job (job_id path : string) : store -> store :=
  with_job job_id (job_complete path).

Definition job_fail (message : string) (j : job) : job :=
  Job (video_title j) (total_scenes j) (processed_scenes j)
      (current_stage j) (stage_name j) (stage_progress j)
      (overall_progress j) "failed" (Some message) (video_path j).

Definition fail_job (job_id message : string) : store -> store :=
  with_job job_id (job_fail message).

(** [get_progress]: a copy of the entry (reloading a job of an earlier
    process from its file is not modelled). *)
Definition get_progress (job_id : string) (st : store) : option job :=
  st !! job_id.

End Tracker.

(** ** video_generator.py (with [batch_generate_scenes] of fast_renderer.py) *)
Module Orchestrator.
Import Tracker.

(** *** Scene count *)

(** [str.split(sep)] for a one-character separator. *)
Fixpoint split_char (sep : ascii) (s : string) : list string :=
  match s with
  | EmptyString => [EmptyString]
  | String a s' =>
      if Ascii.eqb a sep then EmptyString :: split_char sep s'
      else match split_char sep s' with
           | [] => [String a EmptyString]
           | w :: ws => String a w :: ws
           end
  end.

(** [round(a / b)] for integers [a] and [b > 0]: the quotient rounded to
    the nearest integer, ties to the even one. The float quotient of the
    source rounds to the same integer whenever the quotient is below 2^52;
    above, both are far beyond the clamp applied to the result. *)
Definition py_round_div (a b : Z) : Z :=
  let q := a / b in
  let r := a mod b in
  if 2 * r <? b then q
  else if b <? 2 * r then q + 1
  else if Z.even q then q else q + 1.

(** [a / b] raises OverflowError when the correctly rounded quotient does
    not fit a double. *)
Definition float_div_overflows (a b : Z) : bool :=
  b * (2 ^ 1024 - 2 ^ 970) <=? Z.abs a.

(** [max(4, min(12, n))] *)
Definition clamp_scenes (n : Z) : Z := Z.max 4 (Z.min 12 n).

(** What [metadata] holds under ["duration"]. *)
Inductive duration_field :=
| DurAbsent
| DurNotStr
| DurStr (s : string).

Section SceneCount.

(** Python's [int] applied to a string; [None] when it raises. *)
Context (py_int : string -> option Z).

(** [minutes, seconds = map(int, duration_str.split(":"))] and
    [minutes * 60 + seconds]; [None] stands for any exception raised on the
    way, all of which the source catches. *)
Definition parse_duration (s : string) : option Z :=
  match split_char ":"%char s with
  | [m; sec] =>
      match py_int m, py_int sec with
      | Some minutes, Some seconds => Some (minutes * 60 + seconds)
      | _, _ => None
      end
  | _ => None
  end.

Definition duration_scene_count (d : duration_field) : option Z :=
  match d with
  | DurStr s =>
      match parse_duration s with
      | Some duration_seconds =>
          if float_div_overflows duration_seconds 20 then None
          else Some (clamp_scenes (py_round_div duration_seconds 20))
      | None => None
      end
  | DurNotStr => None
  | DurAbsent => None
  end.

Definition lyrics_scene_count (lyrics_lines : list string) : option Z :=
  match lyrics_lines with
  | [] => None
  | _ => Some (clamp_scenes (py_round_div (Z.of_nat (length lyrics_lines)) 6))
  end.

(** Step 2 of the worker, entered when [scene_count is None]. *)
Definition auto_scene_count (d : duration_field) (lyrics_lines : list string)
  : Z :=
  match duration_scene_count d with
  | Some n => n
  | None =>
      match lyrics_scene_count lyrics_lines with
      | Some n => n
      | None => 5
      end
  end.

Definition resolve_scene_count (scene_count : option Z) (d : duration_field)
  (lyrics_lines : list string) : Z :=
  match scene_count with
  | Some n => n
  | None => auto_scene_count d lyrics_lines
  end.

End SceneCount.

(** *** Scene planning *)

Inductive description :=
| FromLyrics (chunk : list string)
| Generic (k : Z).

(** A scene description; [scene_id] is the number whose decimal text the
    source stores, the style and the timestamp are left out. *)
Record scene := Scene { scene_id : Z; scene_description : description }.

Fixpoint chunks_aux {A} (fuel size : nat) (l : list A) : list (list A) :=
  match fuel with
  | O => []
  | S fuel' =>
      match l with
      | [] => []
      | _ => take size l :: chunks_aux fuel' size (drop size l)
      end
  end.

(** [[l[i:i + size] for i in range(0, len(l), size)]] for [size >= 1]. *)
Definition chunks {A} (size : nat) (l : list A) : list (list A) :=
  chunks_aux (length l) size l.

(** [l[:k]] *)
Definition py_slice_to {A} (k : Z) (l : list A) : list A :=
  if 0 <=? k then take (Z.to_nat k) l
  else take (length l - Z.to_nat (- k)) l.

(** Step 3; [None] is the ZeroDivisionError of [len(lyrics_lines) // 0]. *)
Definition plan_scenes (lyrics_lines : list string) (scene_count : Z)
  : option (list scene) :=
  let from_lyrics :=
    match lyrics_lines with
    | [] => Some []
    | _ =>
        if scene_count =? 0 then None
        else
          let chunk_size :=
            Z.max 1 (Z.of_nat (length lyrics_lines) / scene_count) in
          Some (imap (fun i c => Scene (Z.of_nat i + 1) (FromLyrics c))
                  (py_slice_to scene_count
                     (chunks (Z.to_nat chunk_size) lyrics_lines)))
    end in
  match from_lyrics with
  | None => None
  | Some scenes =>
      Some (scenes ++
            map (fun i => Scene (Z.of_nat i + 1) (Generic (Z.of_nat i + 1)))
                (seq (length scenes)
                     (Z.to_nat (scene_count - Z.of_nat (length scenes)))))
  end.

(** *** Scene generation *)

Record scene_result := SceneResult {
  result_scene_id : Z;
  image_path : option string
}.

(** ["success": image_path is not None] *)
Definition success (r : scene_result) : bool :=
  match image_path r with Some _ => true | None => false end.

(** [FastRenderer.batch_generate_scenes], with the render of scene [i]
    given by [generate_scene i]; [None] is the ZeroDivisionError of the
    closing log line on an empty batch. *)
Definition batch_generate_scenes (generate_scene : nat -> option string)
  (scene_descriptions : list scene) : option (list scene_result) :=
  match scene_descriptions with
  | [] => None
  | _ =>
      Some (imap (fun i s => SceneResult (scene_id s) (generate_scene i))
                 scene_descriptions)
  end.

(** *** The worker *)

Inductive download_result :=
| DownloadError (err : string)
| DownloadOk (file_path : string) (duration : duration_field).

(** Everything outside the worker that it depends on. *)
Record env := Env {
  download_from_url : download_result;
  lyrics_lines : list string;
  generate_scene : nat -> option string;
  path_exists : string -> bool;
  (** [create_scene_video] on the [i]-th processed scene: the clip, or
      [None] when it reports an error or raises *)
  create_scene_video : nat -> option string;
  (** the error of [combine_videos_with_transitions], if any *)
  combine_videos : list string -> option string;
  (** the error of [add_audio], if any *)
  add_audio : option string;
  output_path : string
}.

(** The calls made on the progress tracker. *)
Inductive op :=
| OpCreate (total : Z) (title : string)
| OpStage (stage description : string)
| OpSetTotal (total : Z)
| OpUpdateJob
| OpScene (scene_index : Z)
| OpTransition (transition_index total_transitions : Z)
| OpAudio (progress_percent : Q)
| OpComplete (path : string)
| OpFail (message : string).

(** [OpUpdateJob] is [update_job(job_id, job_data)] with [job_data] the
    entry returned by [get_job], which does not copy: the entry is updated
    with itself. *)
Definition apply_op (job_id : string) (o : op) : store -> store :=
  match o with
  | OpCreate total title => create_job job_id total title
  | OpStage stage d => update_stage job_id stage d
  | OpSetTotal total => set_total_scenes job_id total
  | OpUpdateJob => with_job job_id (fun j => j)
  | OpScene i => update_scene_progress job_id i
  | OpTransition i n => update_transition_progress job_id i n
  | OpAudio p => update_audio_progress job_id p
  | OpComplete path => complete_job job_id path
  | OpFail m => fail_job job_id m
  end.

(** Scenes kept for the video: those whose image path is non-empty and
    still exists. *)
Definition processed (e : env) (successful_scenes : list scene_result)
  : list scene_result :=
  List.filter (fun r => match image_path r with
                        | Some p => negb (String.eqb p "") && path_exists e p
                        | None => false
                        end) successful_scenes.

(** Tracker calls of the clip loop over [n] processed scenes: a scene whose
    clip fails is skipped without a progress update. *)
Definition clip_ops (e : env) (n : nat) : list op :=
  flat_map (fun i => match create_scene_video e i with
                     | Some _ => [OpScene (Z.of_nat i)]
                     | None => []
                     end) (seq 0 n).

Definition scene_videos (e : env) (n : nat) : list string :=
  omap (create_scene_video e) (seq 0 n).

(** Step 5, after the stage update. The motion settings and the duration
    given to each scene go to [create_scene_video] and [add_audio], whose
    outcomes are in [env]. *)
Definition video_creation (e : env) (successful_scenes : list scene_result)
  : list op :=
  let processed_scenes := processed e successful_scenes in
  let videos := scene_videos e (length processed_scenes) in
  clip_ops e (length processed_scenes) ++
  match videos with
  | [] => [OpFail "Failed to create any scene videos"]
  | _ =>
      let num_transitions := Z.of_nat (length videos) - 1 in
      match combine_videos e videos with
      | Some err => [OpFail ("Error combining scenes: " ++ err)]
      | None =>
          OpTransition num_transitions num_transitions ::
          match add_audio e with
          | Some err => [OpFail ("Error adding audio: " ++ err)]
          | None => [OpAudio 100; OpComplete (output_path e)]
          end
      end
  end.

Definition not_enough_scenes (n : nat) : string :=
  "Not enough scenes were successfully generated (only " ++
  pretty (Z.of_nat n) ++ ")".

(** The message of the outermost handler; [text] is [str(e)]. *)
Definition process_error (text : string) : string :=
  "Error in video generation process: " ++ text.

(** Step 4 onwards, given the planned scenes. *)
Definition scene_generation (e : env) (scene_descriptions : list scene)
  : list op :=
  OpStage "scene_generation" "Generating scene images" ::
  match batch_generate_scenes (generate_scene e) scene_descriptions with
  | None => [OpFail (process_error "float division by zero")]
  | Some scene_results =>
      let successful_scenes := List.filter success scene_results in
      if (length successful_scenes <? 2)%nat
      then [OpFail (not_enough_scenes (length successful_scenes))]
      else OpStage "video_creation" "Creating video from scenes and audio"
           :: video_creation e successful_scenes
  end.

Section Worker.

Context (py_int : string -> option Z).

(** [_generate_from_url_worker], as the list of tracker calls it makes when
    no call of its own raises unexpectedly. *)
Definition _generate_from_url_worker (scene_count : option Z) (e : env)
  : list op :=
  OpStage "download" "Downloading audio from URL" ::
  match download_from_url e with
  | DownloadError err => [OpFail ("Download failed: " ++ err)]
  | DownloadOk _ duration =>
      let count :=
        resolve_scene_count py_int scene_count duration (lyrics_lines e) in
      OpStage "lyrics" "Extracting lyrics from audio" ::
      OpSetTotal count ::
      OpStage "scene_planning" "Creating scene descriptions from lyrics" ::
      match plan_scenes (lyrics_lines e) count with
      | None =>
          [OpFail (process_error "integer division or modulo by zero")]
      | Some scene_descriptions =>
          OpUpdateJob :: scene_generation e scene_descriptions
      end
  end.

Definition is_fail (o : op) : bool :=
  match o with OpFail _ => true | _ => false end.

(** An exception raised after [k] tracker calls, anywhere the worker has
    not returned yet: both handlers record [message] with [fail_job]. *)
Definition interrupt (k : nat) (message : string) (ops : list op) : list op :=
  if existsb is_fail (take k ops) then ops
  else take k ops ++ [OpFail message].

(** [generate_from_url]: the calls on the tracker for one job. *)
Definition generate_from_url (url : string) (scene_count : option Z)
  (e : env) (crash : option (nat * string)) : list op :=
  OpCreate 0 ("Music Video: " ++ url) ::
  OpStage "download" "Downloading audio from URL" ::
  match crash with
  | None => _generate_from_url_worker scene_count e
  | Some (k, message) =>
      interrupt k message (_generate_from_url_worker scene_count e)
  end.

End Worker.

(** The snapshot [get_progress] returns after each call. *)
Fixpoint snapshots (job_id : string) (ops : list op) (st : store)
  : list (option job) :=
  match ops with
  | [] => []
  | o :: ops' =>
      let st' := apply_op job_id o st in
      get_progress job_id st' :: snapshots job_id ops' st'
  end.

(** A stand-in for [int] on plain decimal text, for the examples. *)
Fixpoint digits_value (acc : Z) (s : string) : option Z :=
  match s with
  | EmptyString => Some acc
  | String a s' =>
      let n := Z.of_nat (nat_of_ascii a) in
      if (48 <=? n) && (n <=? 57) then digits_value (10 * acc + (n - 48)) s'
      else None
  end.

Definition int_decimal (s : string) : option Z :=
  match s with
  | EmptyString => None
  | _ => digits_value 0 s
  end.

End Orchestrator.

(** ** video/processor.py: combining clips *)
Module Compositor.

(** [os.path.basename] for ['/']-separated paths. *)
Fixpoint basename_aux (acc : string) (s : string) : string :=
  match s with
  | EmptyString => acc
  | String a s' =>
      if Ascii.eqb a "/"%char then basename_aux EmptyString s'
      else basename_aux (acc ++ String a EmptyString) s'
  end.

Definition basename (path : string) : string := basename_aux EmptyString path.

(** [os.path.join(a, b)] for a relative [b]. *)
Definition path_join (a b : string) : string := a ++ "/" ++ b.

Section Processor.

(** What a video file holds, and the external encoder: the clip made of two
    clips joined by a transition of the given type and duration, or the
    text it prints on failure. *)
Context {clip : Type}.
Context (encoder : string -> Q -> clip -> clip -> clip + string).

(** The files on disk and the encoder runs so far (inputs and output). *)
Record world := World {
  files : gmap string clip;
  encoder_runs : list (string * string * string)
}.

(** [shutil.copy(src, dst)]; [None] when it raises (no such file, or source
    and destination are the same file). Directories as destinations are not
    modelled. *)
Definition copy (src dst : string) (w : world) : option world :=
  match files w !! src with
  | None => None
  | Some c =>
      if decide (src = dst) then None
      else Some (World (<[dst := c]> (files w)) (encoder_runs w))
  end.

(** [shutil.rmtree(dir, ignore_errors=True)] *)
Definition rmtree (dir : string) (w : world) : world :=
  World (filter (fun kv => negb (String.prefix (dir ++ "/") kv.1) = true)
                (files w))
        (encoder_runs w).

(** [add_transition]: probes the first video, runs the encoder and, when
    that succeeds, leaves its output at [output_path]. *)
Definition add_transition (video1_path video2_path output_path : string)
  (transition_type : string) (transition_duration : Q) (w : world)
  : world * (bool * option string) :=
  match files w !! video1_path with
  | None => (w, (false, Some "FFmpeg error getting video1 duration"))
  | Some c1 =>
      let runs := encoder_runs w ++
                  [(video1_path, video2_path, output_path)] in
      match files w !! video2_path with
      | None => (World (files w) runs, (false, Some "FFmpeg error"))
      | Some c2 =>
          match encoder transition_type transition_duration c1 c2 with
          | inl c => (World (<[output_path := c]> (files w)) runs,
                      (true, None))
          | inr err => (World (files w) runs,
                        (false, Some ("FFmpeg error: " ++ err)%string))
          end
      end
  end.

Definition temp_output (temp_dir : string) (i : nat) : string :=
  path_join temp_dir ("temp_transition_" ++ pretty (Z.of_nat i) ++ ".mp4").

(** The pairwise loop [for i in range(1, len(video_paths))], from index [i]
    on: the final [result_path], or the error of the transition that
    failed (the temporary directory is then removed). *)
Fixpoint combine_loop (temp_dir : string) (transition_type : string)
  (transition_duration : Q) (i : nat) (result_path : string)
  (rest : list string) (w : world) : world * (string + string) :=
  match rest with
  | [] => (w, inl result_path)
  | v :: rest' =>
      let out := temp_output temp_dir i in
      match add_transition result_path v out transition_type
              transition_duration w with
      | (w', (true, _)) =>
          combine_loop temp_dir transition_type transition_duration
            (S i) out rest' w'
      | (w', (false, err)) =>
          (rmtree temp_dir w', inr (default "" err))
      end
  end.

Definition combine_failed : string :=
  "Failed to combine videos with transitions".

(** [combine_videos_with_transitions]; [self.temp_dir] is [tmp]. *)
Definition combine_videos_with_transitions (tmp : string)
  (video_paths : list string) (output_path : string)
  (transition_type : string) (transition_duration : Q) (w : world)
  : world * (bool * option string) :=
  match video_paths with
  | [] => (w, (false, Some "No videos provided"))
  | [v] =>
      match copy v output_path w with
      | Some w' => (w', (true, None))
      | None => (w, (false, Some combine_failed))
      end
  | v :: rest =>
      let temp_dir :=
        path_join tmp ("transition_temp_" ++ basename output_path) in
      match combine_loop temp_dir transition_type transition_duration
              1 v rest w with
      | (w', inr err) => (w', (false, Some err))
      | (w', inl result_path) =>
          match copy result_path output_path w' with
          | Some w'' => (rmtree temp_dir w'', (true, None))
          | None => (w', (false, Some combine_failed))
          end
      end
  end.

End Processor.

End Compositor.

(** ** JSON values *)
Module Json.

(** What [json.load] returns, floats apart: [JNull] is [None]. The pairs of
    a [JDict] are in file order, with distinct keys. *)
Inductive json :=
| JNull
| JBool (b : bool)
| JInt (z : Z)
| JStr (s : string)
| JList (l : list json)
| JDict (kvs : list (string * json)).

Abbreviation dict := (list (string * json)).

(** [d.get(k)], [None] being [JNull] *)
Fixpoint dict_get (k : string) (d : dict) : json :=
  match d with
  | [] => JNull
  | (k', v) :: d' => if String.eqb k k' then v else dict_get k d'
  end.

(** [k in d] *)
Fixpoint dict_has (k : string) (d : dict) : bool :=
  match d with
  | [] => false
  | (k', _) :: d' => String.eqb k k' || dict_has k d'
  end.

(** [d[k] = v]: in place for a key of [d], at the end for a new one *)
Fixpoint dict_set (k : string) (v : json) (d : dict) : dict :=
  match d with
  | [] => [(k, v)]
  | (k', v') :: d' =>
      if String.eqb k k' then (k, v) :: d' else (k', v') :: dict_set k v d'
  end.

(** Python's [==] on these values: a bool equals the integer 0 or 1, lists
    are compared in order and dicts key by key. *)
Fixpoint py_eqb (a b : json) : bool :=
  match a, b with
  | JNull, JNull => true
  | JBool x, JBool y => Bool.eqb x y
  | JBool x, JInt z => z =? (if x then 1 else 0)
  | JInt z, JBool x => z =? (if x then 1 else 0)
  | JInt x, JInt y => x =? y
  | JStr x, JStr y => String.eqb x y
  | JList xs, JList ys =>
      (fix all2 (xs ys : list json) : bool :=
         match xs, ys with
         | [], [] => true
         | x :: xs', y :: ys' => py_eqb x y && all2 xs' ys'
         | _, _ => false
         end) xs ys
  | JDict d1, JDict d2 =>
      (length d1 =? length d2)%nat &&
      (fix sub (d : dict) : bool :=
         match d with
         | [] => true
         | (k, v) :: d' =>
             dict_has k d2 && py_eqb v (dict_get k d2) && sub d'
         end) d1
  | _, _ => false
  end.

(** [x in l] for a list [l] *)
Definition py_in (x : json) (l : list json) : bool := existsb (py_eqb x) l.

End Json.

(** ** comfyui/fix_workflow_file.py *)
Module FixWorkflow.
Import Json.

(** A workflow file: an object whose ["nodes"], when present, is a list of
    objects and whose ["links"], when present, is a list of lists. Its other
    keys pass through unchanged and are left out. *)
Record workflow := Workflow {
  nodes : option (list dict);
  links : option (list (list json))
}.

(** What is printed for a link whose endpoint is missing. *)
Record warning := Warning { w_link : json; w_origin : json; w_target : json }.

Definition preview_node : dict :=
  [("id", JInt 25); ("type", JStr "PreviewImage");
   ("pos", JList [JInt 1450; JInt (-150)]);
   ("size", JList [JInt 360; JInt 400]);
   ("flags", JDict []); ("order", JInt 9); ("mode", JInt 0);
   ("inputs", JList [JDict [("name", JStr "images"); ("type", JStr "IMAGE");
                            ("link", JInt 53)]]);
   ("outputs", JList []);
   ("properties", JDict [("cnr_id", JStr "comfy-core");
                         ("ver", JStr "0.3.33");
                         ("Node name for S&R", JStr "PreviewImage");
                         ("widget_ue_connectable", JDict [])]);
   ("widgets_values", JList [])].

(** [any(link[0] == 53 for link in links)]: stops at the first match;
    [None] is the IndexError of an empty link met before it. *)
Fixpoint link_53_exists (ls : list (list json)) : option bool :=
  match ls with
  | [] => Some false
  | [] :: _ => None
  | (x :: _) :: ls' => if py_eqb x (JInt 53) then Some true
                       else link_53_exists ls'
  end.

(** The id of the first node of type ['VAEDecode'] ([JNull] when there is
    none or it has no id). *)
Fixpoint vae_decode_node_id (ns : list dict) : json :=
  match ns with
  | [] => JNull
  | n :: ns' => if py_eqb (dict_get "type" n) (JStr "VAEDecode")
                then dict_get "id" n
                else vae_decode_node_id ns'
  end.

(** The loop giving an ['order'] to the nodes that have none. *)
Fixpoint assign_order (node_order : Z) (ns : list dict) : list dict :=
  match ns with
  | [] => []
  | n :: ns' =>
      if dict_has "order" n then n :: assign_order node_order ns'
      else dict_set "order" (JInt node_order) n
           :: assign_order (node_order + 1) ns'
  end.

(** The loop over the links; [None] is the ValueError of unpacking a link
    of more than six entries into six names. *)
Fixpoint validate_links (node_ids : list json) (ls : list (list json))
  : option (list (list json) * list warning) :=
  match ls with
  | [] => Some ([], [])
  | link :: ls' =>
      let rest := validate_links node_ids ls' in
      if (6 <=? length link)%nat then
        match link with
        | [link_id; origin_node_id; origin_slot; target_node_id;
           target_slot; link_type] =>
            match rest with
            | None => None
            | Some (valid, warnings) =>
                if py_in origin_node_id node_ids &&
                   py_in target_node_id node_ids
                then Some (link :: valid, warnings)
                else Some (valid,
                           Warning link_id origin_node_id target_node_id
                           :: warnings)
            end
        | _ => None
        end
      else rest
  end.

(** [fix_workflow_file] on the loaded workflow: the workflow it writes and
    the warnings it prints, or [None] when it returns [False] (nothing is
    written then). *)
Definition fix_workflow_file (wf : workflow)
  : option (workflow * list warning) :=
  match nodes wf with
  | None =>
      (* no node 25 in the default [], then KeyError on workflow['nodes'] *)
      None
  | Some ns =>
      let preview_node_exists :=
        existsb (fun n => py_eqb (dict_get "id" n) (JInt 25)) ns in
      let added :=
        if preview_node_exists then Some (ns, links wf)
        else
          let ns' := ns ++ [preview_node] in
          match link_53_exists (default [] (links wf)) with
          | None => None
          | Some true => Some (ns', links wf)
          | Some false =>
              match vae_decode_node_id ns' with
              | JNull => Some (ns', links wf)
              | vae_id =>
                  match links wf with
                  | None => None
                  | Some ls =>
                      Some (ns', Some (ls ++ [[JInt 53; vae_id; JInt 0;
                                               JInt 25; JInt 0;
                                               JStr "IMAGE"]]))
                  end
              end
          end in
      match added with
      | None => None
      | Some (ns1, ls1) =>
          let ns2 := assign_order 0 ns1 in
          let node_ids := map (dict_get "id") ns2 in
          match validate_links node_ids (default [] ls1) with
          | None => None
          | Some (valid_links, warnings) =>
              Some (Workflow (Some ns2) (Some valid_links), warnings)
          end
      end
  end.

End FixWorkflow.

(** ** comfyui/interface.py: waiting for a prompt *)
Module Backend.

(** The answer to [GET /prompt/status]. *)
Inductive status_response :=
| StatusHttpError (code : Z)
| StatusRaises
| StatusData (error : option string) (executing pending : option string).

(** One entry of the result of [get_prompt_outputs]. *)
Inductive output :=
| OutImage (filename subfolder : string)
| OutOther (type : string).

(** The answer to [GET /history/<prompt_id>], seen through
    [get_prompt_outputs]: the prompt is absent (also when the request
    fails), present with the outputs extracted, or present in a shape on
    which the extraction raises. *)
Inductive history_response :=
| HistoryAbsent
| HistoryOutputs (outputs : list (string * output))
| HistoryMalformed.

(** The render server: what it answers to the request that comes as event
    number [i], and how long that request takes, in seconds. *)
Record backend := {
  status_at : nat -> status_response;
  history_at : nat -> history_response;
  image_at : nat -> bool;
  latency : nat -> Q
}.

Inductive event :=
| EvStatus
| EvHistory
| EvSleep (seconds : Q)
| EvWarnSilentFailure
| EvGetImage (filename subfolder : string).

(** The clock read by [time.time()] and what the client has done so far. *)
Record world := World { now : Q; log : list event }.

(** The second component of the pair [wait_for_prompt] returns. *)
Inductive payload :=
| Outputs (outputs : list (string * output))
| Error (message : string).

Inductive outcome :=
| Returned (success : bool) (result : payload)
| Raised
| OutOfFuel.

Definition request (b : backend) (ev : event) (w : world) : world :=
  World (now w + latency b (length (log w)))%Q (log w ++ [ev]).

(** [time.sleep(d)]; [None] is the ValueError of a negative [d]. *)
Definition sleep (d : Q) (w : world) : option world :=
  if Qle_bool 0 d then Some (World (now w + d)%Q (log w ++ [EvSleep d]))
  else None.

Definition timeout_message : string := "Timeout waiting for prompt to complete".

Section Wait.

Context (b : backend) (prompt_id : string) (timeout check_interval : Q).

Definition is_prompt (o : option string) : bool :=
  match o with
  | Some p => String.eqb p prompt_id
  | None => false
  end.

(** [get_history] followed by the test and extraction the loop applies. *)
Definition fetch_history (w : world) : world * history_response :=
  (request b EvHistory w, history_at b (length (log w))).

(** The loop of [wait_for_prompt], entered with the clock value read at the
    start; one unit of fuel per iteration. A sleep that raises inside the
    [try] is caught and the closing sleep, outside it, raises again. *)
Fixpoint wait_loop (fuel : nat) (start_time : Q) (w : world)
  : world * outcome :=
  if Qlt_le_dec (now w - start_time) timeout then
    match fuel with
    | O => (w, OutOfFuel)
    | S fuel' =>
        let again (w' : world) :=
          match sleep check_interval w' with
          | Some w'' => wait_loop fuel' start_time w''
          | None => (w', Raised)
          end in
        let w1 := request b EvStatus w in
        match status_at b (length (log w)) with
        | StatusRaises => again w1
        | StatusHttpError _ => again w1
        | StatusData (Some err) _ _ => (w1, Returned false (Error err))
        | StatusData None executing pending =>
            if is_prompt executing then again w1
            else
              let (w2, history) := fetch_history w1 in
              match history with
              | HistoryMalformed => again w2
              | HistoryOutputs (o :: outs) =>
                  (w2, Returned true (Outputs (o :: outs)))
              | HistoryOutputs [] => again w2
              | HistoryAbsent =>
                  if is_prompt pending then again w2
                  else
                    match sleep (check_interval * 2) w2 with
                    | None => (w2, Raised)
                    | Some w3 =>
                        let (w4, history') := fetch_history w3 in
                        match history' with
                        | HistoryOutputs (o :: outs) =>
                            (w4, Returned true (Outputs (o :: outs)))
                        | HistoryMalformed => again w4
                        | _ =>
                            again (World (now w4)
                                     (log w4 ++ [EvWarnSilentFailure]))
                        end
                    end
              end
        end
    end
  else (w, Returned false (Error timeout_message)).

(** [wait_for_prompt(prompt_id, timeout, check_interval)] *)
Definition wait_for_prompt (fuel : nat) (w : world) : world * outcome :=
  wait_loop fuel (now w) w.

(** [download_output_images]: one [get_image] per image output that has a
    file name; the keys of the images that arrived. *)
Fixpoint download_output_images (outputs : list (string * output))
  (w : world) : world * list string :=
  match outputs with
  | [] => (w, [])
  | (key, OutImage filename subfolder) :: rest =>
      if String.eqb filename "" then download_output_images rest w
      else
        let arrived := image_at b (length (log w)) in
        let w1 := request b (EvGetImage filename subfolder) w in
        let (w2, keys) := download_output_images rest w1 in
        (w2, if arrived then key :: keys else keys)
  | (_, OutOther _) :: rest => download_output_images rest w
  end.

(** The end of [generate_scene], from the wait on: the keys of the images
    fetched, or the error. The source calls [wait_for_prompt] with its
    defaults, a timeout of 300 and an interval of 1. *)
Definition await_and_download (fuel : nat) (w : world)
  : world * option (list string + string) :=
  match wait_for_prompt fuel w with
  | (w', Returned true (Outputs outs)) =>
      let (w'', keys) := download_output_images outs w' in
      (w'', Some (inl keys))
  | (w', Returned true (Error _)) => (w', Some (inl []))
  | (w', Returned false (Error message)) => (w', Some (inr message))
  | (w', Returned false (Outputs _)) => (w', Some (inr "Unknown error"))
  | (w', _) => (w', None)
  end.

End Wait.

End Backend.

(** ** comfyui/interface.py: patching a workflow *)
Module Patcher.

(** *** Python objects *)

(** Workflows are mutable dicts and lists that the code reaches through
    references, so they live in a store of objects; a reference is the
    index of its object. *)
Abbreviation loc := nat.

Inductive val :=
| VNone
| VBool (b : bool)
| VInt (z : Z)
| VStr (s : string)
| VRef (l : loc).

(** The keys of a dict: strings, as JSON has them, and the integers that an
    item assignment by index puts into a dict. *)
Inductive key := KStr (s : string) | KInt (z : Z).

Inductive obj :=
| ODict (kvs : list (key * val))
| OList (vs : list val).

Abbreviation heap := (list obj).

Definition key_eqb (a b : key) : bool :=
  match a, b with
  | KStr x, KStr y => String.eqb x y
  | KInt x, KInt y => x =? y
  | _, _ => false
  end.

Fixpoint dict_get (k : key) (d : list (key * val)) : val :=
  match d with
  | [] => VNone
  | (k', v) :: d' => if key_eqb k k' then v else dict_get k d'
  end.

Fixpoint dict_has (k : key) (d : list (key * val)) : bool :=
  match d with
  | [] => false
  | (k', _) :: d' => key_eqb k k' || dict_has k d'
  end.

Fixpoint dict_set (k : key) (v : val) (d : list (key * val))
  : list (key * val) :=
  match d with
  | [] => [(k, v)]
  | (k', v') :: d' =>
      if key_eqb k k' then (k, v) :: d' else (k', v') :: dict_set k v d'
  end.

(** [v == s] for a string [s] *)
Definition is_str (s : string) (v : val) : bool :=
  match v with VStr s' => String.eqb s' s | _ => false end.

Definition key_val (k : key) : val :=
  match k with KStr s => VStr s | KInt z => VInt z end.

Fixpoint chars (s : string) : list val :=
  match s with
  | EmptyString => []
  | String a s' => VStr (String a EmptyString) :: chars s'
  end.

(** In what follows [None] stands for an exception. *)

(** [x.get(k)]: only a dict has the method. *)
Definition py_get (h : heap) (x : val) (k : string) : option val :=
  match x with
  | VRef l =>
      match h !! l with
      | Some (ODict kvs) => Some (dict_get (KStr k) kvs)
      | _ => None
      end
  | _ => None
  end.

(** The items [for item in x] goes through. *)
Definition py_iter (h : heap) (x : val) : option (list val) :=
  match x with
  | VStr s => Some (chars s)
  | VRef l =>
      match h !! l with
      | Some (OList vs) => Some vs
      | Some (ODict kvs) => Some (map (fun kv => key_val kv.1) kvs)
      | None => None
      end
  | _ => None
  end.

(** [s in x] for a string [s] *)
Definition py_contains (h : heap) (x : val) (s : string) : option bool :=
  match x with
  | VStr t => Some (match String.index 0 s t with
                    | Some _ => true
                    | None => false
                    end)
  | VRef l =>
      match h !! l with
      | Some (OList vs) => Some (existsb (is_str s) vs)
      | Some (ODict kvs) => Some (dict_has (KStr s) kvs)
      | None => None
      end
  | _ => None
  end.

(** [len(x)] *)
Definition py_len (h : heap) (x : val) : option nat :=
  match x with
  | VStr t => Some (String.length t)
  | VRef l =>
      match h !! l with
      | Some (OList vs) => Some (length vs)
      | Some (ODict kvs) => Some (length kvs)
      | None => None
      end
  | _ => None
  end.

(** [x[s] = value] for a string [s]: only a dict takes it. *)
Definition set_item_str (h : heap) (x : val) (s : string) (value : val)
  : option heap :=
  match x with
  | VRef l =>
      match h !! l with
      | Some (ODict kvs) =>
          Some (<[l := ODict (dict_set (KStr s) value kvs)]> h)
      | _ => None
      end
  | _ => None
  end.

(** [x[i] = value] for an index [i >= 0]: a list takes it within its
    length, a dict takes it as a key. *)
Definition set_item_int (h : heap) (x : val) (i : nat) (value : val)
  : option heap :=
  match x with
  | VRef l =>
      match h !! l with
      | Some (OList vs) =>
          if (i <? length vs)%nat
          then Some (<[l := OList (<[i := value]> vs)]> h)
          else None
      | Some (ODict kvs) =>
          Some (<[l := ODict (dict_set (KInt (Z.of_nat i)) value kvs)]> h)
      | None => None
      end
  | _ => None
  end.

(** *** [copy.deepcopy] *)

Fixpoint copy_all (copy : val -> heap -> option (heap * val))
  (vs : list val) (h : heap) : option (heap * list val) :=
  match vs with
  | [] => Some (h, [])
  | v :: vs' =>
      match copy v h with
      | None => None
      | Some (h1, v') =>
          match copy_all copy vs' h1 with
          | None => None
          | Some (h2, vs'') => Some (h2, v' :: vs'')
          end
      end
  end.

(** A copy of everything [v] reaches, in new objects; the fuel bounds the
    depth. Objects are copied once per path that leads to them: on the
    trees that [json.load] builds, where no object is shared or reaches
    itself, this is what [copy.deepcopy] produces. *)
Fixpoint deepcopy (fuel : nat) (v : val) (h : heap) : option (heap * val) :=
  match v with
  | VRef l =>
      match fuel with
      | O => None
      | S fuel' =>
          match h !! l with
          | None => None
          | Some (OList vs) =>
              match copy_all (deepcopy fuel') vs h with
              | None => None
              | Some (h', vs') => Some (h' ++ [OList vs'], VRef (length h'))
              end
          | Some (ODict kvs) =>
              match copy_all (deepcopy fuel') (map snd kvs) h with
              | None => None
              | Some (h', vs') =>
                  Some (h' ++ [ODict (zip (map fst kvs) vs')],
                        VRef (length h'))
              end
          end
      end
  | _ => Some (h, v)
  end.

(** Python's [==], to the depth the fuel allows: a bool equals the integer
    0 or 1, lists are compared in order and dicts key by key. *)
Fixpoint deep_eq (fuel : nat) (h : heap) (a b : val) : bool :=
  match a, b with
  | VNone, VNone => true
  | VBool x, VBool y => Bool.eqb x y
  | VBool x, VInt z => z =? (if x then 1 else 0)
  | VInt z, VBool x => z =? (if x then 1 else 0)
  | VInt x, VInt y => x =? y
  | VStr x, VStr y => String.eqb x y
  | VRef la, VRef lb =>
      match fuel with
      | O => false
      | S fuel' =>
          match h !! la, h !! lb with
          | Some (OList xs), Some (OList ys) =>
              (length xs =? length ys)%nat &&
              forallb (fun xy => deep_eq fuel' h xy.1 xy.2) (zip xs ys)
          | Some (ODict d1), Some (ODict d2) =>
              (length d1 =? length d2)%nat &&
              forallb (fun kv => dict_has kv.1 d2 &&
                                 deep_eq fuel' h kv.2 (dict_get kv.1 d2)) d1
          | _, _ => false
          end
      end
  | _, _ => false
  end.

(** *** [update_workflow] *)

Section Update.

(** [str(x)] for a list or a dict [x], which is not spelled out. *)
Context (py_repr : heap -> loc -> string).

Definition py_str (h : heap) (v : val) : string :=
  match v with
  | VNone => "None"
  | VBool true => "True"
  | VBool false => "False"
  | VInt z => pretty z
  | VStr s => s
  | VRef l => py_repr h l
  end.

(** The index of the first item whose ["name"] is [param], in the loop
    [for i, input_param in enumerate(...)]. *)
Fixpoint find_named (h : heap) (items : list val) (param : string) (i : nat)
  : option (option nat) :=
  match items with
  | [] => Some None
  | input_param :: items' =>
      match py_get h input_param "name" with
      | None => None
      | Some name =>
          if is_str param name then Some (Some i)
          else find_named h items' param (S i)
      end
  end.

Definition param_index (h : heap) (node : list (key * val)) (param : string)
  : option (option nat) :=
  if dict_has (KStr "inputs") node then
    match py_iter h (dict_get (KStr "inputs") node) with
    | None => None
    | Some items => find_named h items param 0
    end
  else Some None.

(** [cond and len(node["widgets_values"]) > bound]; the length is taken
    only when [cond] holds. *)
Definition longer_than (h : heap) (widgets : val) (cond : bool) (bound : nat)
  : option bool :=
  if cond then
    match py_len h widgets with
    | None => None
    | Some n => Some (bound <? n)%nat
    end
  else Some false.

(** The special cases for CLIPTextEncode and SaveImage nodes. *)
Definition update_special (h : heap) (node : list (key * val))
  (param : string) (value : val) : option heap :=
  let type := dict_get (KStr "type") node in
  let widgets := dict_get (KStr "widgets_values") node in
  match longer_than h widgets
          (is_str "CLIPTextEncode" type && String.eqb param "text") 0 with
  | None => None
  | Some true => set_item_int h widgets 0 value
  | Some false =>
      if is_str "SaveImage" type then
        match longer_than h widgets (String.eqb param "filename_prefix") 1
        with
        | None => None
        | Some true => set_item_int h widgets 1 value
        | Some false =>
            match longer_than h widgets (String.eqb param "output_dir") 0
            with
            | None => None
            | Some true => set_item_int h widgets 0 value
            | Some false => Some h
            end
        end
      else Some h
  end.

(** What is done with the node whose id matches. *)
Definition update_node (h : heap) (node : list (key * val)) (param : string)
  (value : val) : option heap :=
  let inputs := dict_get (KStr "inputs") node in
  let widgets := dict_get (KStr "widgets_values") node in
  match (if dict_has (KStr "inputs") node then py_contains h inputs param
         else Some false) with
  | None => None
  | Some true => set_item_str h inputs param value
  | Some false =>
      if dict_has (KStr "widgets_values") node then
        match param_index h node param with
        | None => None
        | Some None => update_special h node param value
        | Some (Some i) =>
            match py_len h widgets with
            | None => None
            | Some n =>
                if (i <? n)%nat then set_item_int h widgets i value
                else update_special h node param value
            end
        end
      else Some h
  end.

(** The loop over the nodes, up to the first one whose id matches; a node
    that is not a dict has no [get]. *)
Fixpoint update_nodes (h : heap) (nodes : list val) (node_id param : string)
  (value : val) : option heap :=
  match nodes with
  | [] => Some h
  | VRef l :: nodes' =>
      match h !! l with
      | Some (ODict node) =>
          if String.eqb (py_str h (dict_get (KStr "id") node)) node_id
          then update_node h node param value
          else update_nodes h nodes' node_id param value
      | _ => None
      end
  | _ :: _ => None
  end.

(** The items of [updated_workflow.get("nodes", [])]. *)
Definition workflow_nodes (h : heap) (updated_workflow : val)
  : option (list val) :=
  match updated_workflow with
  | VRef l =>
      match h !! l with
      | Some (ODict kvs) =>
          if dict_has (KStr "nodes") kvs
          then py_iter h (dict_get (KStr "nodes") kvs)
          else Some []
      | _ => None
      end
  | _ => None
  end.

(** The body of the loop over the updates: an exception is caught and
    leaves the workflow as it is. *)
Definition update_one (h : heap) (updated_workflow : val) (key : string)
  (value : val) : heap :=
  match Orchestrator.split_char "."%char key with
  | [node_id; param] =>
      match workflow_nodes h updated_workflow with
      | None => h
      | Some nodes => default h (update_nodes h nodes node_id param value)
      end
  | _ => h
  end.

Definition apply_updates (h : heap) (updated_workflow : val)
  (updates : list (string * val)) : heap :=
  fold_left (fun h kv => update_one h updated_workflow kv.1 kv.2) updates h.

(** [update_workflow(workflow, updates)], on the items of [updates] in
    order: the store afterwards and the workflow returned. *)
Definition update_workflow (fuel : nat) (h : heap) (workflow : val)
  (updates : list (string * val)) : option (heap * val) :=
  match deepcopy fuel workflow h with
  | None => None
  | Some (h1, updated_workflow) =>
      Some (apply_updates h1 updated_workflow updates, updated_workflow)
  end.

End Update.

(** *** The seed, in [generate_scene] *)

Section Seed.

(** The values [random.randint(0, 9999999999)] returns, call after call. *)
Context (randint : nat -> Z).

(** One iteration of the loop over the nodes; [drawn] counts the calls of
    [randint] so far. *)
Definition seed_node (h : heap) (node : val) (drawn : nat)
  : option (heap * nat) :=
  match node with
  | VRef l =>
      match h !! l with
      | Some (ODict kvs) =>
          if dict_has (KStr "type") kvs then
            if is_str "KSampler" (dict_get (KStr "type") kvs) &&
               dict_has (KStr "widgets_values") kvs
            then
              let widgets := dict_get (KStr "widgets_values") kvs in
              match py_len h widgets with
              | None => None
              | Some n =>
                  if (0 <? n)%nat then
                    match set_item_int h widgets 0 (VInt (randint drawn))
                    with
                    | None => None
                    | Some h' => Some (h', S drawn)
                    end
                  else Some (h, drawn)
              end
            else Some (h, drawn)
          else None
      | _ => None
      end
  | _ => None
  end.

Fixpoint seed_nodes (h : heap) (nodes : list val) (drawn : nat)
  : option (heap * nat) :=
  match nodes with
  | [] => Some (h, drawn)
  | node :: nodes' =>
      match seed_node h node drawn with
      | None => None
      | Some (h', drawn') => seed_nodes h' nodes' drawn'
      end
  end.

(** [for node in updated_workflow["nodes"]: ...] *)
Definition randomize_seeds (h : heap) (updated_workflow : val) (drawn : nat)
  : option (heap * nat) :=
  match updated_workflow with
  | VRef l =>
      match h !! l with
      | Some (ODict kvs) =>
          if dict_has (KStr "nodes") kvs then
            match py_iter h (dict_get (KStr "nodes") kvs) with
            | None => None
            | Some nodes => seed_nodes h nodes drawn
            end
          else None
      | _ => None
      end
  | _ => None
  end.

(** The two steps as [generate_scene] chains them. *)
Definition patch_and_seed (py_repr : heap -> loc -> string) (fuel : nat)
  (h : heap) (workflow : val) (updates : list (string * val)) (drawn : nat)
  : option (heap * val * nat) :=
  match update_workflow py_repr fuel h workflow updates with
  | None => None
  | Some (h1, updated_workflow) =>
      match randomize_seeds h1 updated_workflow drawn with
      | None => None
      | Some (h2, drawn') => Some (h2, updated_workflow, drawn')
      end
  end.

End Seed.

End Patcher.

(** ** progress_tracker.py: the progress files *)
Module TrackerFiles.
Import Tracker.

(** What [json.load] makes of a file of the progress directory: an entry
    as the tracker writes them, or an exception. *)
Inductive content :=
| Entry (j : job)
| Unreadable.

(** A tracker: [self.progress_data] and the files of [self.output_dir], by
    file name. Job ids are plain file names, as the ids the generator makes
    are. *)
Record tracker := Tracker {
  progress_data : store;
  directory : gmap string content
}.

(** [f"{job_id}.json"] *)
Definition progress_file (job_id : string) : string := job_id ++ ".json".

(** [s.endswith(suffix)] *)
Definition endswith (s suffix : string) : bool :=
  (String.length suffix <=? String.length s)%nat &&
  String.eqb (substring (String.length s - String.length suffix)
                        (String.length suffix) s) suffix.

(** [s[:-n]] for [n > 0] *)
Definition drop_last (n : nat) (s : string) : string :=
  substring 0 (String.length s - n) s.

Section Files.

(** Whether [open(progress_file, 'w')] succeeds; when it does not the file
    stays as it is and the error is logged. *)
Context (writable : string -> bool).

Definition _save_progress (job_id : string) (t : tracker) : tracker :=
  match progress_data t !! job_id with
  | None => t
  | Some j =>
      if writable (progress_file job_id)
      then Tracker (progress_data t)
                   (<[progress_file job_id := Entry j]> (directory t))
      else t
  end.

(** A mutator: the change in memory, then [_save_progress]. On an unknown
    job a mutator other than [create_job] returns before the save, which
    would not write either. *)
Definition call (job_id : string) (o : Orchestrator.op) (t : tracker)
  : tracker :=
  _save_progress job_id
    (Tracker (Orchestrator.apply_op job_id o (progress_data t))
             (directory t)).

(** [get_job]: the entry in memory or, failing that, the one loaded from
    the file of the job, which then stays in memory. *)
Definition get_job (job_id : string) (t : tracker) : tracker * option job :=
  match progress_data t !! job_id with
  | Some j => (t, Some j)
  | None =>
      match directory t !! progress_file job_id with
      | Some (Entry j) =>
          (Tracker (<[job_id := j]> (progress_data t)) (directory t), Some j)
      | Some Unreadable => (t, None)
      | None => (t, None)
      end
  end.

(** [get_progress]: the same, returning a copy. *)
Definition get_progress (job_id : string) (t : tracker)
  : tracker * option job :=
  get_job job_id t.

(** One iteration of the loop of [_load_all_progress_files]. *)
Definition load_file (filename : string) (c : content) (st : store)
  : store :=
  if endswith filename ".json" then
    let job_id := drop_last 5 filename in
    match st !! job_id with
    | Some _ => st
    | None =>
        match c with
        | Entry j => <[job_id := j]> st
        | Unreadable => st
        end
    end
  else st.

(** [_load_all_progress_files], over the files in the order [os.listdir]
    gives them. *)
Definition _load_all_progress_files (t : tracker) : tracker :=
  Tracker (map_fold load_file (progress_data t) (directory t)) (directory t).

(** [get_all_jobs]: the entries returned, by job id (the list of the
    source has them in the order they came into memory). *)
Definition get_all_jobs (t : tracker) : tracker * store :=
  let t' := _load_all_progress_files t in
  (t', progress_data t').

(** What a client of the tracker may do. *)
Inductive action :=
| Call (job_id : string) (o : Orchestrator.op)
| GetJob (job_id : string)
| GetProgress (job_id : string)
| GetAllJobs.

Definition step (t : tracker) (a : action) : tracker :=
  match a with
  | Call job_id o => call job_id o t
  | GetJob job_id => (get_job job_id t).1
  | GetProgress job_id => (get_progress job_id t).1
  | GetAllJobs => (get_all_jobs t).1
  end.

Definition run_actions (actions : list action) (t : tracker) : tracker :=
  fold_left step actions t.

End Files.

(** [RenderProgressTracker(output_dir)] on a directory that exists. *)
Definition start (dir : gmap string content) : tracker := Tracker ∅ dir.

End TrackerFiles.


(** ** comfyui/interface.py: the nodes [generate_scene] patches *)
Module SceneRequest.
Import Json.

(** [s.lower()]. Strings are byte strings; only the bytes of the letters A
    to Z change, which is what matters for the search of ASCII words. *)
Definition lower_ascii (a : ascii) : ascii :=
  let n := nat_of_ascii a in
  if (65 <=? n)%nat && (n <=? 90)%nat then ascii_of_nat (n + 32) else a.

Fixpoint lower (s : string) : string :=
  match s with
  | EmptyString => EmptyString
  | String a s' => String (lower_ascii a) (lower s')
  end.

(** [sub in s] for strings *)
Definition substring_of (sub s : string) : bool :=
  match String.index 0 sub s with Some _ => true | None => false end.

Definition negative_words : list string :=
  ["negative"; "bad"; "ugly"; "low quality"].

(** [any(neg_word in text.lower() for neg_word in [...])] *)
Definition looks_negative (text : string) : bool :=
  existsb (fun neg_word => substring_of neg_word (lower text)) negative_words.

(** In what follows [None] stands for an exception. *)

(** [x[k]] for a string [k]: only a dict that has the key answers. *)
Definition getitem (x : json) (k : string) : option json :=
  match x with
  | JDict d => if dict_has k d then Some (dict_get k d) else None
  | _ => None
  end.

(** [k in x] for a string [k] *)
Definition contains (x : json) (k : string) : option bool :=
  match x with
  | JDict d => Some (dict_has k d)
  | JList l => Some (py_in (JStr k) l)
  | JStr s => Some (substring_of k s)
  | _ => None
  end.

(** [len(x)] *)
Definition len (x : json) : option nat :=
  match x with
  | JDict d => Some (length d)
  | JList l => Some (length l)
  | JStr s => Some (String.length s)
  | _ => None
  end.

(** [x[0]] *)
Definition first_item (x : json) : option json :=
  match x with
  | JList (v :: _) => Some v
  | JStr (String a _) => Some (JStr (String a EmptyString))
  | _ => None
  end.

(** The items [for node in x] goes through. *)
Definition items (x : json) : option (list json) :=
  match x with
  | JList l => Some l
  | JDict d => Some (map (fun kv => JStr kv.1) d)
  | JStr s =>
      Some ((fix chars (s : string) : list json :=
               match s with
               | EmptyString => []
               | String a s' => JStr (String a EmptyString) :: chars s'
               end) s)
  | _ => None
  end.

Section Search.

(** [str(x)] for a list or a dict [x], which is not spelled out. *)
Context (py_repr : json -> string).

Definition py_str (x : json) : string :=
  match x with
  | JNull => "None"
  | JBool true => "True"
  | JBool false => "False"
  | JInt z => pretty z
  | JStr s => s
  | _ => py_repr x
  end.

(** [str(node["id"])] *)
Definition node_id (node : json) : option string :=
  match getitem node "id" with
  | Some id => Some (py_str id)
  | None => None
  end.

(** [a and b], where [b] is evaluated only when [a] holds *)
Definition and_then (a : option bool) (b : option bool) : option bool :=
  match a with
  | Some true => b
  | other => other
  end.

(** ["inputs" in node and "text" in node["inputs"]] *)
Definition has_text_input (node : json) : option bool :=
  and_then (contains node "inputs")
    (match getitem node "inputs" with
     | Some inputs => contains inputs "text"
     | None => None
     end).

(** A text that passes for a positive prompt. *)
Definition positive (text : json) : bool :=
  match text with
  | JStr s => negb (String.eqb s "") && negb (looks_negative s)
  | _ => false
  end.

(** The tests made on a CLIPTextEncode node: whether it is taken as the
    node of the positive prompt. *)
Definition takes_prompt (node : json) : option bool :=
  match has_text_input node with
  | None => None
  | Some true =>
      match getitem node "inputs" with
      | Some inputs =>
          match getitem inputs "text" with
          | Some input_text => Some (positive input_text)
          | None => None
          end
      | None => None
      end
  | Some false =>
      match and_then (contains node "widgets_values")
              (match getitem node "widgets_values" with
               | Some widgets =>
                   match len widgets with
                   | Some n => Some (0 <? n)%nat
                   | None => None
                   end
               | None => None
               end) with
      | None => None
      | Some true =>
          match getitem node "widgets_values" with
          | Some widgets =>
              match first_item widgets with
              | Some (JStr s) => Some (negb (looks_negative s))
              | Some _ => Some false
              | None => None
              end
          | None => None
          end
      | Some false => Some false
      end
  end.

(** The first loop over the nodes: the ids of the text node and of the
    save node, the loop ending at the text node. *)
Fixpoint find_nodes (nodes : list json) (save_node_id : option string)
  : option (option string * option string) :=
  match nodes with
  | [] => Some (None, save_node_id)
  | node :: rest =>
      match getitem node "type" with
      | None => None
      | Some type =>
          match (if py_eqb type (JStr "CLIPTextEncode")
                 then takes_prompt node else Some false) with
          | None => None
          | Some true =>
              match node_id node with
              | Some id => Some (Some id, save_node_id)
              | None => None
              end
          | Some false =>
              if py_eqb type (JStr "SaveImage") then
                match node_id node with
                | Some id => find_nodes rest (Some id)
                | None => None
                end
              else find_nodes rest save_node_id
          end
      end
  end.

(** The loop of last resort: the first node that has a text input. *)
Fixpoint any_text_input (nodes : list json) : option (option string) :=
  match nodes with
  | [] => Some None
  | node :: rest =>
      match has_text_input node with
      | None => None
      | Some true =>
          match node_id node with
          | Some id => Some (Some id)
          | None => None
          end
      | Some false => any_text_input rest
      end
  end.

(** [if s:] for a string that may be [None] *)
Definition truthy (s : option string) : bool :=
  match s with
  | Some s => negb (String.eqb s "")
  | None => false
  end.

Definition no_text_node : string :=
  "Could not find text input node in workflow".

(** The updates [generate_scene] builds for a workflow, in the order it
    puts them into the dict, or the error it returns for want of a text
    node. *)
Definition scene_updates (workflow : json) (prompt output_name output_dir
  : string) : option (list (string * json) + string) :=
  match getitem workflow "nodes" with
  | None => None
  | Some x =>
      match items x with
      | None => None
      | Some nodes =>
          match find_nodes nodes None with
          | None => None
          | Some (text_node_id, save_node_id) =>
              (* [if text_node_id: ... else:] the loop of last resort *)
              let chosen :=
                if truthy text_node_id then Some text_node_id
                else any_text_input nodes in
              match chosen with
              | None => None
              | Some None => Some (inr no_text_node)
              | Some (Some id) =>
                  Some (inl (((id ++ ".text")%string, JStr prompt) ::
                    match save_node_id with
                    | Some save =>
                        if truthy save_node_id
                        then [((save ++ ".filename_prefix")%string,
                               JStr output_name);
                              ((save ++ ".output_dir")%string,
                               JStr output_dir)]
                        else []
                    | None => []
                    end))
              end
          end
      end
  end.

End Search.

End SceneRequest.


(** ** comfyui/interface.py: the outputs of a prompt *)
Module PromptOutputs.
Import Json.

(** [d.get(k, default)] *)
Definition get_default (d : dict) (k : string) (default : json) : json :=
  if dict_has k d then dict_get k d else default.

(** What one output of a node gives: nothing unless it is a list that is
    not empty, otherwise the entry made from its first item; [None] is the
    AttributeError of a first item that is not a dict. *)
Definition output_entry (output_data : json) : option (option json) :=
  match output_data with
  | JList (first :: _) =>
      match first with
      | JDict image_data =>
          if py_eqb (dict_get "type" image_data) (JStr "image")
          then Some (Some (JDict
                 [("type", JStr "image");
                  ("filename", get_default image_data "filename" (JStr ""));
                  ("subfolder",
                   get_default image_data "subfolder" (JStr ""))]))
          else Some (Some (JDict
                 [("type", get_default image_data "type" (JStr "unknown"));
                  ("data", output_data)]))
      | _ => None
      end
  | _ => Some None
  end.

(** [for output_name, output_data in node_outputs.items()] *)
Fixpoint node_entries (node_id : string) (node_outputs : dict)
  (outputs : dict) : option dict :=
  match node_outputs with
  | [] => Some outputs
  | (output_name, output_data) :: rest =>
      match output_entry output_data with
      | None => None
      | Some None => node_entries node_id rest outputs
      | Some (Some entry) =>
          node_entries node_id rest
            (dict_set (node_id ++ "_" ++ output_name) entry outputs)
      end
  end.

(** [for node_id, node_outputs in prompt_data["outputs"].items()]; a value
    that is not a dict has no [items]. *)
Fixpoint all_entries (nodes : dict) (outputs : dict) : option dict :=
  match nodes with
  | [] => Some outputs
  | (node_id, JDict node_outputs) :: rest =>
      match node_entries node_id node_outputs outputs with
      | None => None
      | Some outputs' => all_entries rest outputs'
      end
  | _ :: _ => None
  end.

(** [get_prompt_outputs(history, prompt_id)] for a history that is a dict;
    [None] when it raises. *)
Definition get_prompt_outputs (history : dict) (prompt_id : string)
  : option dict :=
  if dict_has prompt_id history then
    let prompt_data := dict_get prompt_id history in
    match SceneRequest.contains prompt_data "outputs" with
    | None => None
    | Some false => Some []
    | Some true =>
        match SceneRequest.getitem prompt_data "outputs" with
        | Some (JDict nodes) => all_entries nodes []
        | _ => None
        end
    end
  else Some [].

End PromptOutputs.


(** * Properties *)

(** ** The progress tracker *)
Module TrackerFacts.
Import Tracker.

Lemma get_with_job (st : store) (id : string) (f : job -> job) (j : job) :
  st !! id = Some j -> get_progress id (with_job id f st) = Some (f j).
Proof.
  intros H. unfold get_progress, with_job. rewrite H.
  apply lookup_insert_eq.
Qed.


Lemma inject_Z_pos (z : Z) : 0 < z -> (0 < inject_Z z)%Q.
Proof. intros H. unfold Qlt; simpl. lia. Qed.

Lemma percent_done_exact (k total : Z) :
  0 < total ->
  (percent_done k total == inject_Z (k + 1) / inject_Z total * 100)%Q.
Proof. intros H. unfold percent_done. by rewrite Z.max_r by lia. Qed.

Lemma percent_done_range (k total : Z) :
  0 <= k < total -> (0 < percent_done k total <= 100)%Q.
Proof.
  intros H. unfold percent_done.
  rewrite Z.max_r by lia.
  assert (HT : (0 < inject_Z total)%Q) by (apply inject_Z_pos; lia).
  assert (Hk : (0 < inject_Z (k + 1))%Q) by (apply inject_Z_pos; lia).
  assert (Hle : (inject_Z (k + 1) <= inject_Z total)%Q)
    by (rewrite <- Zle_Qle; lia).
  split.
  - apply Qmult_lt_0_compat; [|reflexivity].
    apply Qlt_shift_div_l; [done|]. lra.
  - assert (inject_Z (k + 1) / inject_Z total <= 1)%Q.
    { apply Qle_shift_div_r; [done|]. lra. }
    lra.
Qed.

(** Inside its range a band is the plain interpolation, never clipped. *)
Lemma band_exact (lo hi p : Q) :
  (0 <= p <= 100)%Q -> (lo <= hi)%Q -> (hi <= 100)%Q ->
  (band lo hi p == lo + (hi - lo) * p / 100)%Q /\
  (lo <= band lo hi p <= hi)%Q.
Proof.
  intros Hp Hl Hh. unfold band.
  assert (0 <= (hi - lo) * p / 100 <= hi - lo)%Q.
  { split.
    - apply Qle_shift_div_l; [reflexivity|]. rewrite Qmult_0_l.
      apply Qmult_le_0_compat; lra.
    - apply Qle_shift_div_r; [reflexivity|]. nra. }
  rewrite Q.min_r by lra. split; [reflexivity | lra].
Qed.

Lemma band_mono (lo hi p q : Q) :
  (lo <= hi)%Q -> (p <= q)%Q -> (band lo hi p <= band lo hi q)%Q.
Proof.
  intros Hl Hp. unfold band.
  apply Q.min_le_compat_l.
  assert ((hi - lo) * p / 100 <= (hi - lo) * q / 100)%Q; [|lra].
  unfold Qdiv. apply Qmult_le_compat_r; [nra | discriminate].
Qed.

Lemma band_bounds (lo hi p : Q) :
  (lo <= hi)%Q -> (lo <= 100)%Q -> (0 <= p)%Q ->
  (lo <= band lo hi p <= 100)%Q.
Proof.
  intros Hl Hh Hp. unfold band. split.
  - apply Q.min_glb; [done|].
    assert (0 <= (hi - lo) * p / 100)%Q; [|lra].
    apply Qle_shift_div_l; [reflexivity|]. rewrite Qmult_0_l.
    apply Qmult_le_0_compat; lra.
  - apply Q.le_min_l.
Qed.

(** The job [id] reads progress [q] in [st]. *)
Definition progress_is (id : string) (st : store) (q : Q) : Prop :=
  exists j, get_progress id st = Some j /\ (overall_progress j == q)%Q.

(** The job [id] reads a progress between [lo] and [hi] in [st]. *)
Definition progress_within (id : string) (st : store) (lo hi : Q) : Prop :=
  exists j, get_progress id st = Some j /\
            (lo <= overall_progress j <= hi)%Q.

(** The band the specification gives to scene generation. *)
Definition spec_scene_generation_progress (scenes_done scenes_total : Z) : Q :=
  (15 + (50 - 15) * (inject_Z scenes_done / inject_Z scenes_total))%Q.

(** C3, as stated, fails: with one scene of four done during scene
    generation the tracker reads 27.5, where the band 15-50 of the
    specification would give 23.75. *)
Lemma C3_scene_generation_band_is_not_15_50 :
  let st := update_scene_progress "job" 0
              (update_stage "job" "scene_generation" "Generating scene images"
                 (create_job "job" 4 "title" ∅)) in
  progress_is "job" st (55 # 2) /\
  ~ progress_is "job" st (spec_scene_generation_progress 1 4).
Proof.
  set (j0 := new_job 4 "title").
  assert (H0 : (create_job "job" 4 "title" ∅ : store) !! "job" = Some j0)
    by apply lookup_insert_eq.
  pose proof (get_with_job _ _
    (job_update_stage "scene_generation" "Generating scene images") _ H0)
    as H1.
  pose proof (get_with_job _ _ (job_update_scene_progress 0) _ H1) as H2.
  cbv zeta. split.
  - eexists. split; [exact H2 | reflexivity].
  - intros (j & Hj & Hq).
    unfold update_scene_progress, update_stage in Hj.
    rewrite H2 in Hj. injection Hj as <-.
    revert Hq. vm_compute. discriminate.
Qed.

(** C3, amended: the stage values are 5, 10, 15, 20 and 50; the scene
    generation band is 20-50; video creation splits into 50-75 (clips),
    75-90 (transitions) and 90-100 (audio), each the linear interpolation
    of its band. *)
Theorem C3_stage_bands (st : store) (id : string) (j : job) (d : string) :
  st !! id = Some j ->
  progress_is id (update_stage id "download" d st) 5 /\
  progress_is id (update_stage id "lyrics" d st) 10 /\
  progress_is id (update_stage id "scene_planning" d st) 15 /\
  progress_is id (update_stage id "scene_generation" d st) 20 /\
  progress_is id (update_stage id "video_creation" d st) 50 /\
  (forall k, stage_name j = "scene_generation" -> 0 <= k < total_scenes j ->
     progress_is id (update_scene_progress id k st)
       (20 + 30 * (inject_Z (k + 1) / inject_Z (total_scenes j))) /\
     progress_within id (update_scene_progress id k st) 20 50) /\
  (forall k, stage_name j = "video_creation" -> 0 <= k < total_scenes j ->
     progress_is id (update_scene_progress id k st)
       (50 + 25 * (inject_Z (k + 1) / inject_Z (total_scenes j))) /\
     progress_within id (update_scene_progress id k st) 50 75) /\
  (forall k n, 0 <= k < n ->
     progress_is id (update_transition_progress id k n st)
       (75 + 15 * (inject_Z (k + 1) / inject_Z n)) /\
     progress_within id (update_transition_progress id k n st) 75 90) /\
  (forall p, (0 <= p <= 100)%Q ->
     progress_is id (update_audio_progress id p st) (90 + 10 * p / 100) /\
     progress_within id (update_audio_progress id p st) 90 100).
Proof.
  intros Hj.
  repeat match goal with |- _ /\ _ => split end.
  1-5: eexists; split; [by apply get_with_job | reflexivity].
  - intros k Hs Hk.
    pose proof (percent_done_range _ _ Hk) as Hr.
    destruct (band_exact 20 50 (percent_done k (total_scenes j)))
      as [He Hb]; [lra | lra | lra |].
    split; eexists; (split; [by apply get_with_job |]); simpl;
      rewrite Hs; simpl; [|done].
    rewrite He, percent_done_exact by lia. field.
    intros H0. apply (Qlt_irrefl 0). rewrite <- H0 at 2.
    apply inject_Z_pos. lia.
  - intros k Hs Hk.
    pose proof (percent_done_range _ _ Hk) as Hr.
    destruct (band_exact 50 75 (percent_done k (total_scenes j)))
      as [He Hb]; [lra | lra | lra |].
    split; eexists; (split; [by apply get_with_job |]); simpl;
      rewrite Hs; simpl; [|done].
    rewrite He, percent_done_exact by lia. field.
    intros H0. apply (Qlt_irrefl 0). rewrite <- H0 at 2.
    apply inject_Z_pos. lia.
  - intros k n Hk.
    pose proof (percent_done_range _ _ Hk) as Hr.
    destruct (band_exact 75 90 (percent_done k n))
      as [He Hb]; [lra | lra | lra |].
    split; eexists; (split; [by apply get_with_job |]); simpl; [|done].
    rewrite He, percent_done_exact by lia. field.
    intros H0. apply (Qlt_irrefl 0). rewrite <- H0 at 2.
    apply inject_Z_pos. lia.
  - intros p Hp.
    destruct (band_exact 90 100 p) as [He Hb]; [lra | lra | lra |].
    split; eexists; (split; [by apply get_with_job |]); simpl; [|done].
    rewrite He. field.
Qed.

Lemma C3_stage_bands_witness :
  (create_job "job" 4 "title" ∅ : store) !! "job" = Some (new_job 4 "title") /\
  progress_is "job"
    (update_stage "job" "scene_generation" "Generating scene images"
       (create_job "job" 4 "title" ∅)) 20 /\
  progress_within "job"
    (update_audio_progress "job" 50 (create_job "job" 4 "title" ∅)) 90 100.
Proof.
  assert (H : (create_job "job" 4 "title" ∅ : store) !! "job"
              = Some (new_job 4 "title")) by (vm_compute; reflexivity).
  split; [exact H|].
  pose proof (C3_stage_bands _ "job" _ "Generating scene images" H)
    as (_ & _ & _ & Hsg & _ & _ & _ & _ & Haudio).
  split; [exact Hsg|]. apply (Haudio 50%Q). split; discriminate.
Defined.

End TrackerFacts.

(** ** The orchestrator *)
Module OrchestratorFacts.
Import Tracker Orchestrator TrackerFacts.

(** *** Scene count *)

Lemma clamp_scenes_range (n : Z) : 4 <= clamp_scenes n <= 12.
Proof. unfold clamp_scenes. lia. Qed.

Lemma duration_scene_count_spec (py_int : string -> option Z)
  (d : duration_field) (n : Z) :
  duration_scene_count py_int d = Some n ->
  exists s seconds, d = DurStr s /\ parse_duration py_int s = Some seconds /\
                    n = clamp_scenes (py_round_div seconds 20).
Proof.
  unfold duration_scene_count. intros H.
  destruct d as [| |s]; try discriminate.
  destruct (parse_duration py_int s) as [seconds|] eqn:Hs; [|discriminate].
  destruct (float_div_overflows seconds 20); [discriminate|].
  injection H as <-. by exists s, seconds.
Qed.

Lemma auto_scene_count_range (py_int : string -> option Z)
  (d : duration_field) (lines : list string) :
  4 <= auto_scene_count py_int d lines <= 12.
Proof.
  unfold auto_scene_count.
  destruct (duration_scene_count py_int d) as [n|] eqn:Hd.
  - destruct (duration_scene_count_spec _ _ _ Hd) as (s & secs & _ & _ & ->).
    apply clamp_scenes_range.
  - destruct lines as [|l lines]; simpl; [lia | apply clamp_scenes_range].
Qed.

(** C10: without an explicit scene count the worker settles on a count
    between 4 and 12: the clamped rounding of seconds/20 when the duration
    parses, else the clamped rounding of lines/6 when there are lyrics,
    else 5. *)
Theorem C10_auto_scene_count (py_int : string -> option Z)
  (d : duration_field) (lines : list string) :
  let n := resolve_scene_count py_int None d lines in
  4 <= n <= 12 /\
  ((exists s seconds,
      d = DurStr s /\ parse_duration py_int s = Some seconds /\
      n = Z.max 4 (Z.min 12 (py_round_div seconds 20))) \/
   (duration_scene_count py_int d = None /\ lines <> [] /\
    n = Z.max 4 (Z.min 12 (py_round_div (Z.of_nat (length lines)) 6))) \/
   (duration_scene_count py_int d = None /\ lines = [] /\ n = 5)).
Proof.
  cbv zeta. split; [apply auto_scene_count_range|].
  unfold resolve_scene_count, auto_scene_count.
  destruct (duration_scene_count py_int d) as [n|] eqn:Hd.
  - destruct (duration_scene_count_spec _ _ _ Hd) as (s & secs & -> & Hp & ->).
    left. by exists s, secs.
  - destruct lines as [|l lines]; simpl.
    + by right; right.
    + right; left. done.
Qed.

(** The worker records that count as the job's [total_scenes]. *)
Lemma worker_sets_total (py_int : string -> option Z) (e : env)
  (file : string) (d : duration_field) :
  download_from_url e = DownloadOk file d ->
  _generate_from_url_worker py_int None e !! 2%nat =
    Some (OpSetTotal (resolve_scene_count py_int None d (lyrics_lines e))).
Proof. intros H. unfold _generate_from_url_worker. by rewrite H. Qed.

(** *** Scene planning *)

Lemma py_slice_to_length {A} (k : Z) (l : list A) :
  0 <= k -> (length (py_slice_to k l) <= Z.to_nat k)%nat.
Proof.
  intros H. unfold py_slice_to.
  destruct (0 <=? k) eqn:E; [|lia].
  rewrite length_take. lia.
Qed.

(** For a count that is not negative the plan has exactly that many
    scenes. *)
Lemma plan_scenes_length (lines : list string) (count : Z)
  (scenes : list scene) :
  0 <= count -> plan_scenes lines count = Some scenes ->
  length scenes = Z.to_nat count.
Proof.
  intros Hc. unfold plan_scenes.
  set (fl := match lines with [] => Some [] | _ => _ end).
  assert (Hfl : forall l, fl = Some l -> (length l <= Z.to_nat count)%nat).
  { subst fl. intros l. destruct lines as [|x xs].
    - intros [= <-]. simpl. lia.
    - destruct (count =? 0); [discriminate|]. intros [= <-].
      rewrite length_imap. by apply py_slice_to_length. }
  destruct fl as [l|]; [|discriminate].
  specialize (Hfl l eq_refl). intros [= <-].
  rewrite length_app, length_map, length_seq. lia.
Qed.

Lemma batch_generate_scenes_length (g : nat -> option string)
  (scenes : list scene) (results : list scene_result) :
  batch_generate_scenes g scenes = Some results ->
  length results = length scenes.
Proof.
  unfold batch_generate_scenes. destruct scenes as [|s scenes]; [discriminate|].
  intros H. injection H as <-. simpl. by rewrite length_imap.
Qed.

Lemma processed_length (e : env) (l : list scene_result) :
  (length (processed e l) <= length l)%nat.
Proof. unfold processed. apply List.filter_length_le. Qed.

(** *** Snapshots of one job *)

(** What a tracker call does to the entry of the job. *)
Definition job_op (o : op) (j : job) : job :=
  match o with
  | OpCreate total title => new_job total title
  | OpStage stage d => job_update_stage stage d j
  | OpSetTotal total => job_set_total_scenes total j
  | OpUpdateJob => j
  | OpScene i => job_update_scene_progress i j
  | OpTransition i n => job_update_transition_progress i n j
  | OpAudio p => job_update_audio_progress p j
  | OpComplete path => job_complete path j
  | OpFail m => job_fail m j
  end.

Fixpoint history (ops : list op) (j : job) : list job :=
  match ops with
  | [] => []
  | o :: ops' => job_op o j :: history ops' (job_op o j)
  end.

Definition run (ops : list op) (j : job) : job :=
  fold_left (fun j o => job_op o j) ops j.

Lemma apply_op_lookup (st : store) (id : string) (o : op) (j : job) :
  st !! id = Some j -> apply_op id o st !! id = Some (job_op o j).
Proof.
  intros H. destruct o; simpl;
    try exact (get_with_job st id _ j H).
  apply lookup_insert_eq.
Qed.

Lemma snapshots_history (id : string) (ops : list op) (st : store) (j : job) :
  st !! id = Some j -> snapshots id ops st = Some <$> history ops j.
Proof.
  revert st j. induction ops as [|o ops IH]; intros st j H; [done|].
  simpl. pose proof (apply_op_lookup _ _ o _ H) as H'.
  unfold get_progress. rewrite H'. f_equal. by apply IH.
Qed.

Lemma snapshots_create (id : string) (total : Z) (title : string)
  (ops : list op) (st : store) :
  snapshots id (OpCreate total title :: ops) st =
  Some <$> (new_job total title :: history ops (new_job total title)).
Proof.
  simpl. unfold get_progress, create_job. rewrite lookup_insert_eq.
  f_equal. apply snapshots_history, lookup_insert_eq.
Qed.

(** *** Progress never falls *)

Definition settled (j : job) : Prop :=
  status j = "completed" -> (overall_progress j == 100)%Q.

(** Every call of [ops], made in turn from [j], leaves the progress at
    least where it was, and a completed job reads 100. *)
Fixpoint rising (j : job) (ops : list op) : Prop :=
  match ops with
  | [] => True
  | o :: ops' =>
      (overall_progress j <= overall_progress (job_op o j))%Q /\
      settled (job_op o j) /\ rising (job_op o j) ops'
  end.

Lemma rising_sorted (j : job) (ops : list op) :
  rising j ops ->
  Sorted Qle (overall_progress <$> (j :: history ops j)) /\
  Forall settled (history ops j).
Proof.
  revert j. induction ops as [|o ops IH]; intros j H; simpl.
  - split; [repeat constructor | constructor].
  - destruct H as (Hle & Hs & Hr). destruct (IH _ Hr) as [IH1 IH2].
    split; [|by constructor].
    constructor; [exact IH1 | by constructor].
Qed.

Lemma rising_app (j : job) (a b : list op) :
  rising j (a ++ b) <-> rising j a /\ rising (run a j) b.
Proof.
  revert j. induction a as [|o a IH]; intros j; simpl; [tauto|].
  rewrite IH. unfold run. simpl. tauto.
Qed.

Lemma rising_take (j : job) (ops : list op) (k : nat) :
  rising j ops -> rising j (take k ops).
Proof.
  revert j k. induction ops as [|o ops IH]; intros j [|k] H; simpl; try done.
  destruct H as (? & ? & ?). auto.
Qed.

Lemma rising_fail (j : job) (m : string) : rising j [OpFail m].
Proof.
  simpl. split; [apply Qle_refl|]. split; [|done].
  unfold settled. simpl. discriminate.
Qed.

Lemma rising_interrupt (j : job) (ops : list op) (k : nat) (m : string) :
  rising j ops -> rising j (interrupt k m ops).
Proof.
  intros H. unfold interrupt.
  destruct (existsb is_fail (take k ops)); [done|].
  apply rising_app. split; [by apply rising_take | apply rising_fail].
Qed.

Lemma percent_done_mono (k k' total : Z) :
  k <= k' -> (percent_done k total <= percent_done k' total)%Q.
Proof.
  intros H. unfold percent_done.
  assert (HT : (0 < inject_Z (Z.max 1 total))%Q) by (apply inject_Z_pos; lia).
  apply Qmult_le_compat_r; [|discriminate].
  unfold Qdiv. apply Qmult_le_compat_r.
  - rewrite <- Zle_Qle. lia.
  - apply Qlt_le_weak, Qinv_lt_0_compat, HT.
Qed.

Lemma percent_done_nonneg (k total : Z) :
  0 <= k -> (0 <= percent_done k total)%Q.
Proof.
  intros H. unfold percent_done.
  assert (HT : (0 < inject_Z (Z.max 1 total))%Q) by (apply inject_Z_pos; lia).
  apply Qmult_le_0_compat; [|discriminate].
  apply Qle_shift_div_l; [done|]. rewrite Qmult_0_l.
  change 0%Q with (inject_Z 0). rewrite <- Zle_Qle. lia.
Qed.

(** The state the clip loop keeps: still running in video creation, the
    progress inside the clip band. *)
Record in_clips (total : Z) (j : job) : Prop := {
  ic_stage : stage_name j = "video_creation";
  ic_status : status j = "running";
  ic_total : total_scenes j = total;
  ic_bounds : (50 <= overall_progress j <= 75)%Q
}.

Lemma rising_clip_ops (e : env) (total : Z) (n a : nat) (j : job) :
  in_clips total j ->
  Z.of_nat (a + n) <= total ->
  (overall_progress j <= band 50 75 (percent_done (Z.of_nat a) total))%Q ->
  rising j (flat_map (fun i => match create_scene_video e i with
                               | Some _ => [OpScene (Z.of_nat i)]
                               | None => []
                               end) (seq a n)) /\
  in_clips total
    (run (flat_map (fun i => match create_scene_video e i with
                             | Some _ => [OpScene (Z.of_nat i)]
                             | None => []
                             end) (seq a n)) j).
Proof.
  revert a j. induction n as [|n IH]; intros a j Hj Hn Hle; [done|].
  simpl. assert (Hmono : (band 50 75 (percent_done (Z.of_nat a) total) <=
                          band 50 75 (percent_done (Z.of_nat (S a)) total))%Q).
  { apply band_mono; [discriminate|]. apply percent_done_mono. lia. }
  destruct (create_scene_video e a) as [clip|];
    cbn [app rising run fold_left job_op].
  - destruct Hj as [Hst Hrun Htot Hb].
    pose proof (percent_done_range (Z.of_nat a) total ltac:(lia)) as Hr.
    destruct (band_exact 50 75 (percent_done (Z.of_nat a) total))
      as [_ Hbb]; [lra | discriminate | discriminate |].
    remember (job_update_scene_progress (Z.of_nat a) j) as j' eqn:Ej'.
    assert (Ho : overall_progress j' =
                 band 50 75 (percent_done (Z.of_nat a) total)).
    { rewrite Ej'. simpl. by rewrite Hst, Htot. }
    assert (Hj' : in_clips total j').
    { constructor; [by rewrite Ej' .. | rewrite Ho; exact Hbb]. }
    destruct (IH (S a) j' Hj') as [IH1 IH2]; [lia | by rewrite Ho |].
    split; [|exact IH2].
    split; [by rewrite Ho|]. split; [|exact IH1].
    unfold settled. rewrite Ej'. simpl. rewrite Hrun. discriminate.
  - apply IH; [done | lia | by apply Qle_trans with (1 := Hle)].
Qed.

Lemma scene_videos_length (e : env) (n : nat) :
  (length (scene_videos e n) <= n)%nat.
Proof.
  unfold scene_videos.
  assert (H : forall l : list nat,
             (length (omap (create_scene_video e) l) <= length l)%nat).
  { induction l as [|i l IH]; csimpl; [done|].
    destruct (create_scene_video e i); csimpl; lia. }
  etrans; [apply H|]. by rewrite length_seq.
Qed.

Lemma rising_video_creation (e : env) (total : Z) (ok : list scene_result)
  (j : job) :
  in_clips total j ->
  (overall_progress j == 50)%Q ->
  Z.of_nat (length (processed e ok)) <= total ->
  rising j (video_creation e ok).
Proof.
  intros Hj H50 Hn. unfold video_creation.
  destruct (rising_clip_ops e total (length (processed e ok)) 0 j Hj)
    as [Hr Hj']; [lia | |].
  { rewrite H50. apply band_bounds; [discriminate .. |].
    apply percent_done_nonneg. lia. }
  apply rising_app. split; [exact Hr|].
  fold (clip_ops e (length (processed e ok))) in *.
  remember (run (clip_ops e (length (processed e ok))) j) as j1 eqn:Ej1.
  destruct Hj' as [Hst Hrun Htot Hb].
  destruct (scene_videos e (length (processed e ok))) as [|v vs] eqn:Hv;
    [apply rising_fail|].
  destruct (combine_videos e (v :: vs)) as [err|]; [apply rising_fail|].
  set (m := Z.of_nat (length (v :: vs)) - 1).
  assert (Hm : 0 <= m) by (subst m; simpl; lia).
  destruct (band_bounds 75 90 (percent_done m m)) as [Hlo Hhi];
    [discriminate .. | by apply percent_done_nonneg |].
  assert (Hfull : (band 90 100 100 == 100)%Q) by (vm_compute; reflexivity).
  cbn [rising job_op]. split.
  { cbn [overall_progress job_update_transition_progress]. lra. }
  split; [unfold settled; simpl; rewrite Hrun; discriminate|].
  destruct (add_audio e) as [err|].
  { split; [apply Qle_refl|]. split; [|done].
    unfold settled. simpl. discriminate. }
  cbn [rising job_op]. split.
  { cbn [overall_progress job_update_audio_progress
         job_update_transition_progress].
    rewrite Hfull. exact Hhi. }
  split; [unfold settled; simpl; rewrite Hrun; discriminate|].
  split.
  { cbn [overall_progress job_update_audio_progress job_complete].
    rewrite Hfull. apply Qle_refl. }
  split; [|done]. unfold settled. simpl. reflexivity.
Qed.

Lemma rising_scene_generation (e : env) (total : Z) (scenes : list scene)
  (j : job) :
  status j = "running" -> total_scenes j = total ->
  (overall_progress j <= 20)%Q ->
  Z.of_nat (length scenes) <= total ->
  rising j (scene_generation e scenes).
Proof.
  intros Hrun Htot Hle Hn. unfold scene_generation.
  cbn [rising job_op]. split; [exact Hle|].
  split; [unfold settled; simpl; rewrite Hrun; discriminate|].
  destruct (batch_generate_scenes (generate_scene e) scenes)
    as [results|] eqn:Hb; [|apply rising_fail].
  apply batch_generate_scenes_length in Hb.
  destruct (length (List.filter success results) <? 2)%nat;
    [apply rising_fail|].
  cbn [rising job_op]. split; [simpl; discriminate|].
  split; [unfold settled; simpl; rewrite Hrun; discriminate|].
  apply rising_video_creation with (total := total).
  - constructor; simpl; done.
  - reflexivity.
  - pose proof (processed_length e (List.filter success results)).
    pose proof (List.filter_length_le success results). lia.
Qed.

(** The scene counts the monotonicity result covers: derived by the
    worker, or requested and not negative. *)
Definition count_accepted (scene_count : option Z) : Prop :=
  match scene_count with
  | None => True
  | Some n => 0 <= n
  end.

Lemma resolve_scene_count_nonneg (py_int : string -> option Z)
  (scene_count : option Z) (d : duration_field) (lines : list string) :
  count_accepted scene_count ->
  0 <= resolve_scene_count py_int scene_count d lines.
Proof.
  destruct scene_count as [n|]; simpl; [done|]. intros _.
  pose proof (auto_scene_count_range py_int d lines). lia.
Qed.

Lemma rising_worker (py_int : string -> option Z) (scene_count : option Z)
  (e : env) (j : job) :
  count_accepted scene_count ->
  status j = "running" -> (overall_progress j <= 5)%Q ->
  rising j (_generate_from_url_worker py_int scene_count e).
Proof.
  intros Hc Hrun Hle. unfold _generate_from_url_worker.
  cbn [rising job_op]. split; [exact Hle|].
  split; [unfold settled; simpl; rewrite Hrun; discriminate|].
  destruct (download_from_url e) as [err|file d]; [apply rising_fail|].
  set (count := resolve_scene_count py_int scene_count d (lyrics_lines e)).
  assert (H0 : 0 <= count) by by apply resolve_scene_count_nonneg.
  cbn [rising job_op].
  split; [simpl; discriminate|].
  split; [unfold settled; simpl; rewrite Hrun; discriminate|].
  split; [simpl; discriminate|].
  split; [unfold settled; simpl; rewrite Hrun; discriminate|].
  split; [simpl; discriminate|].
  split; [unfold settled; simpl; rewrite Hrun; discriminate|].
  destruct (plan_scenes (lyrics_lines e) count) as [scenes|] eqn:Hp;
    [|apply rising_fail].
  apply plan_scenes_length in Hp; [|done].
  cbn [rising job_op].
  split; [simpl; discriminate|].
  split; [unfold settled; simpl; rewrite Hrun; discriminate|].
  apply rising_scene_generation with (total := count); simpl;
    [done | done | discriminate | lia].
Qed.

Lemma rising_generate_from_url (py_int : string -> option Z) (url : string)
  (scene_count : option Z) (e : env) (crash : option (nat * string)) :
  count_accepted scene_count ->
  exists title ops,
    generate_from_url py_int url scene_count e crash =
      OpCreate 0 title :: ops /\
    rising (new_job 0 title) ops.
Proof.
  intros Hc. unfold generate_from_url. eexists _, _. split; [reflexivity|].
  cbn [rising job_op]. split; [simpl; discriminate|].
  split; [unfold settled; simpl; discriminate|].
  destruct crash as [[k m]|]; [apply rising_interrupt|];
    apply rising_worker; simpl; (done || discriminate).
Qed.

(** A run used in the examples: no duration and no lyrics, so five generic
    scenes; the render of the third scene fails, everything else works. *)
Definition demo_env : env :=
  Env (DownloadOk "song.mp3" DurAbsent) []
      (fun i => if (i =? 2)%nat then None else Some "scene.png")
      (fun _ => true) (fun _ => Some "clip.mp4") (fun _ => None) None
      "out.mp4".

(** C1, as stated, fails: [update_audio_progress(job_id, 100)] brings the
    progress to 100 while the job is still running, so 100 is read before
    the status is ['completed']. *)
Lemma C1_full_progress_before_completed :
  ~ (forall j,
       Some j ∈ snapshots "job"
                  (generate_from_url int_decimal "url" None demo_env None) ∅ ->
       (overall_progress j == 100)%Q <-> status j = "completed").
Proof.
  intros H. unfold generate_from_url in H. rewrite snapshots_create in H.
  set (jobs := new_job _ _ :: _) in H.
  destruct (jobs !! 14%nat) as [j|] eqn:Hj; [|by vm_compute in Hj].
  assert (Hin : Some j ∈ Some <$> jobs).
  { apply list_elem_of_fmap. exists j. split; [done|].
    apply list_elem_of_lookup. by exists 14%nat. }
  apply H in Hin. vm_compute in Hj. injection Hj as <-.
  destruct Hin as [Hin _]. discriminate Hin. reflexivity.
Qed.

(** C1, amended: for a job whose scene count is derived by the worker or
    requested and not negative, the progress read after each tracker call
    never falls, whatever fails or is interrupted on the way, and a
    snapshot whose status is ['completed'] reads 100. *)
Theorem C1_progress_never_falls (py_int : string -> option Z)
  (id url : string) (scene_count : option Z) (e : env)
  (crash : option (nat * string)) (st : store) :
  count_accepted scene_count ->
  exists jobs,
    snapshots id (generate_from_url py_int url scene_count e crash) st =
      Some <$> jobs /\
    Sorted Qle (overall_progress <$> jobs) /\
    Forall (fun j => status j = "completed" ->
                     (overall_progress j == 100)%Q) jobs.
Proof.
  intros Hc.
  destruct (rising_generate_from_url py_int url scene_count e crash Hc)
    as (title & ops & -> & Hr).
  rewrite snapshots_create. eexists. split; [reflexivity|].
  destruct (rising_sorted _ _ Hr) as [Hs Hf].
  split; [exact Hs|]. constructor; [|exact Hf]. simpl. discriminate.
Qed.

Lemma C1_progress_never_falls_witness :
  count_accepted (Some 5) /\
  exists jobs,
    snapshots "job"
      (generate_from_url int_decimal "url" (Some 5) demo_env
         (Some (12%nat, "Error creating video: disk full"))) ∅ =
      Some <$> jobs /\
    Sorted Qle (overall_progress <$> jobs) /\
    Forall (fun j => status j = "completed" ->
                     (overall_progress j == 100)%Q) jobs.
Proof.
  split; [simpl; lia|].
  apply (C1_progress_never_falls int_decimal "job" "url" (Some 5) demo_env
           (Some (12%nat, "Error creating video: disk full")) ∅).
  simpl. lia.
Defined.

(** Why [count_accepted] is asked for: with ten lyric lines and a requested
    count of -1 the plan has nine scenes for a total of -1, the clip band
    overshoots to 100 and the transition update brings it back to 91.875. *)
Example negative_count_progress_falls :
  let e := Env (DownloadOk "song.mp3" DurAbsent)
               ["a"; "b"; "c"; "d"; "e"; "f"; "g"; "h"; "i"; "j"]
               (fun _ => Some "scene.png") (fun _ => true)
               (fun _ => Some "clip.mp4") (fun _ => None) None "out.mp4" in
  let jobs := history (generate_from_url int_decimal "url" (Some (-1)) e None)
                      (new_job 0 "") in
  (overall_progress <$> jobs !! 17%nat) = Some 100%Q /\
  (Qred <$> (overall_progress <$> jobs !! 18%nat)) = Some (735 # 8)%Q.
Proof. vm_compute. done. Qed.

(** *** Scene generation *)

(** Some snapshot shows the job in [stage]. *)
Definition entered (stage : string) (snaps : list (option job)) : Prop :=
  exists j, Some j ∈ snaps /\ stage_name j = stage.

Lemma filter_all {A} (f : A -> bool) (l : list A) :
  (forall x, x ∈ l -> f x = true) -> List.filter f l = l.
Proof.
  induction l as [|x l IH]; intros H; simpl; [done|].
  rewrite (H x) by apply list_elem_of_here.
  f_equal. apply IH. intros y Hy. apply H. by apply list_elem_of_further.
Qed.

(** C2: every planned scene is rendered whether or not earlier ones
    failed; with fewer than two successes the job ends ['failed'] with the
    not-enough-scenes error and never shows the stage [video_creation];
    with two or more it enters [video_creation], which runs on the
    successful scenes, all of them when their images are in place. *)
Theorem C2_scene_generation_threshold (py_int : string -> option Z)
  (id url file : string) (scene_count : option Z) (e : env) (st : store)
  (d : duration_field) (scenes : list scene) (results : list scene_result) :
  download_from_url e = DownloadOk file d ->
  plan_scenes (lyrics_lines e)
    (resolve_scene_count py_int scene_count d (lyrics_lines e))
    = Some scenes ->
  batch_generate_scenes (generate_scene e) scenes = Some results ->
  let ok := List.filter success results in
  let ops := generate_from_url py_int url scene_count e None in
  let snaps := snapshots id ops st in
  length results = length scenes /\
  ((length ok < 2)%nat ->
     (exists j, last snaps = Some (Some j) /\ status j = "failed" /\
                error j = Some (not_enough_scenes (length ok))) /\
     ~ entered "video_creation" snaps) /\
  ((2 <= length ok)%nat ->
     entered "video_creation" snaps /\
     (exists pre,
        ops = pre ++
              OpStage "video_creation" "Creating video from scenes and audio"
              :: video_creation e ok) /\
     ((forall r p, r ∈ ok -> image_path r = Some p ->
                   p <> "" /\ path_exists e p = true) ->
      processed e ok = ok)).
Proof.
  intros Hd Hp Hb ok ops snaps.
  split; [by apply batch_generate_scenes_length in Hb|].
  assert (Hops : ops =
    [OpCreate 0 ("Music Video: " ++ url);
     OpStage "download" "Downloading audio from URL";
     OpStage "download" "Downloading audio from URL";
     OpStage "lyrics" "Extracting lyrics from audio";
     OpSetTotal (resolve_scene_count py_int scene_count d (lyrics_lines e));
     OpStage "scene_planning" "Creating scene descriptions from lyrics";
     OpUpdateJob;
     OpStage "scene_generation" "Generating scene images"] ++
    (if (length ok <? 2)%nat
     then [OpFail (not_enough_scenes (length ok))]
     else OpStage "video_creation" "Creating video from scenes and audio"
          :: video_creation e ok)).
  { subst ops. unfold generate_from_url, _generate_from_url_worker. rewrite Hd, Hp.
    unfold scene_generation. rewrite Hb. reflexivity. }
  split.
  - intros Hlt. apply Nat.ltb_lt in Hlt.
    subst snaps. rewrite Hops, Hlt. cbn [app].
    rewrite snapshots_create. split.
    + eexists. split; [reflexivity|]. split; reflexivity.
    + intros (j & Hj & Hs). cbn [history job_op fmap list_fmap] in Hj.
      repeat (apply elem_of_cons in Hj as [Hj|Hj];
              [injection Hj as ->; simpl in Hs; discriminate Hs|]).
      by apply elem_of_nil in Hj.
  - intros Hge. apply Nat.ltb_ge in Hge.
    split; [|split].
    + subst snaps. rewrite Hops, Hge. cbn [app].
      rewrite snapshots_create. eexists. split.
      * apply list_elem_of_lookup. exists 8%nat. reflexivity.
      * reflexivity.
    + rewrite Hops, Hge. by eexists.
    + intros Himg. apply filter_all. intros r Hr.
      assert (Hs : success r = true).
      { subst ok. apply list_elem_of_In, List.filter_In in Hr. tauto. }
      unfold success in Hs. destruct (image_path r) as [p|] eqn:Hip;
        [|discriminate].
      destruct (Himg r p Hr Hip) as [Hne Hex]. rewrite Hex.
      destruct (String.eqb_spec p ""); [done|reflexivity].
Qed.

Lemma C2_scene_generation_threshold_witness :
  let snaps := snapshots "job"
                 (generate_from_url int_decimal "url" (Some 5) demo_env None)
                 ∅ in
  entered "video_creation" snaps /\
  exists pre,
    generate_from_url int_decimal "url" (Some 5) demo_env None =
    pre ++ OpStage "video_creation" "Creating video from scenes and audio"
        :: video_creation demo_env
             [SceneResult 1 (Some "scene.png");
              SceneResult 2 (Some "scene.png");
              SceneResult 4 (Some "scene.png");
              SceneResult 5 (Some "scene.png")].
Proof.
  pose proof (C2_scene_generation_threshold int_decimal "job" "url"
    "song.mp3" (Some 5) demo_env ∅ DurAbsent
    (map (fun i => Scene (Z.of_nat i + 1) (Generic (Z.of_nat i + 1)))
         (seq 0 5))
    [SceneResult 1 (Some "scene.png"); SceneResult 2 (Some "scene.png");
     SceneResult 3 None; SceneResult 4 (Some "scene.png");
     SceneResult 5 (Some "scene.png")]
    eq_refl eq_refl eq_refl) as (_ & _ & H).
  destruct H as (H1 & H2 & _); [simpl; lia|].
  split; [exact H1 | exact H2].
Defined.

(** The second scenario of C2: five scenes, one success, no video. *)
Example one_success_of_five_fails :
  let e := Env (DownloadOk "song.mp3" DurAbsent) []
               (fun i => if (i =? 0)%nat then Some "scene.png" else None)
               (fun _ => true) (fun _ => Some "clip.mp4") (fun _ => None)
               None "out.mp4" in
  let jobs := history (generate_from_url int_decimal "url" (Some 5) e None)
                      (new_job 0 "") in
  (status <$> last jobs) = Some "failed" /\
  (error <$> last jobs) =
    Some (Some "Not enough scenes were successfully generated (only 1)") /\
  Forall (fun j => stage_name j <> "video_creation") jobs.
Proof.
  vm_compute. split; [done|]. split; [done|].
  repeat (constructor; [discriminate|]). constructor.
Qed.

End OrchestratorFacts.

(** ** Combining clips *)
Module CompositorFacts.
Import Compositor.



(** With two clips the encoder runs once, on the pair. *)
Example two_clips_one_transition :
  let enc : string -> Q -> nat -> nat -> nat + string :=
    fun _ _ a b => inl (a + b)%nat in
  let w := World (<["a.mp4" := 3%nat]> (<["b.mp4" := 4%nat]> ∅)) [] in
  let r := combine_videos_with_transitions enc "/tmp" ["a.mp4"; "b.mp4"]
             "out/video.mp4" "fade" 1 w in
  r.2 = (true, None) /\
  files r.1 !! "out/video.mp4" = Some 7%nat /\
  encoder_runs r.1 =
    [("a.mp4", "b.mp4", "/tmp/transition_temp_video.mp4/temp_transition_1.mp4")] /\
  files r.1 !! "/tmp/transition_temp_video.mp4/temp_transition_1.mp4" = None.
Proof. vm_compute. done. Qed.

End CompositorFacts.

(** ** Link validation *)
Module FixWorkflowFacts.
Import Json FixWorkflow.

(** A link of six entries whose origin and target are among [node_ids]. *)
Definition link_valid (node_ids : list json) (link : list json) : bool :=
  match link with
  | [_; origin; _; target; _; _] =>
      py_in origin node_ids && py_in target node_ids
  | _ => false
  end.

(** The warning a link causes, if any: only a link of six entries with a
    missing endpoint is reported. *)
Definition link_warning (node_ids : list json) (link : list json)
  : list warning :=
  match link with
  | [link_id; origin; _; target; _; _] =>
      if py_in origin node_ids && py_in target node_ids then []
      else [Warning link_id origin target]
  | _ => []
  end.

Lemma validate_links_short (node_ids : list json) (ls : list (list json)) :
  Forall (fun l => (length l <= 6)%nat) ls ->
  validate_links node_ids ls =
    Some (List.filter (link_valid node_ids) ls,
          flat_map (link_warning node_ids) ls).
Proof.
  induction 1 as [|l ls Hl _ IH]; [done|].
  cbn [validate_links]. rewrite IH.
  destruct l as [|a [|b [|c [|d [|e [|f [|g l]]]]]]]; try done.
  - cbn. by destruct (py_in b node_ids && py_in d node_ids).
  - simpl in Hl. lia.
Qed.

Lemma link_53_exists_total (ls : list (list json)) :
  Forall (fun l => (1 <= length l)%nat) ls -> is_Some (link_53_exists ls).
Proof.
  induction 1 as [|l ls Hl _ IH]; [by eexists|].
  destruct l as [|x l]; [simpl in Hl; lia|]. simpl.
  destruct (py_eqb x (JInt 53)); [by eexists | done].
Qed.

Lemma dict_get_set_ne (k k' : string) (v : json) (d : dict) :
  k <> k' -> dict_get k (dict_set k' v d) = dict_get k d.
Proof.
  intros Hne. induction d as [|[k0 v0] d IH]; simpl.
  - destruct (String.eqb_spec k k'); done.
  - destruct (String.eqb_spec k' k0) as [->|Hk0]; simpl.
    + destruct (String.eqb_spec k k0); done.
    + destruct (String.eqb_spec k k0); done.
Qed.

Lemma assign_order_ids (k : Z) (ns : list dict) :
  map (dict_get "id") (assign_order k ns) = map (dict_get "id") ns.
Proof.
  revert k. induction ns as [|n ns IH]; intros k; simpl; [done|].
  destruct (dict_has "order" n); simpl; rewrite IH; [done|].
  by rewrite dict_get_set_ne.
Qed.

Lemma link_valid_endpoints (ids : list json) (l : list json) :
  link_valid ids l = true ->
  exists link_id origin origin_slot target target_slot link_type,
    l = [link_id; origin; origin_slot; target; target_slot; link_type] /\
    py_in origin ids = true /\ py_in target ids = true.
Proof.
  destruct l as [|a [|b [|c [|d [|e [|f [|g l]]]]]]]; try discriminate.
  simpl. intros H. apply andb_prop in H as [H1 H2].
  by eexists _, _, _, _, _, _.
Qed.

(** C5, as stated, fails: a link of fewer than six entries is dropped, and
    nothing is printed for it. *)
Lemma C5_short_link_dropped_without_warning :
  fix_workflow_file
    (Workflow (Some [[("id", JInt 1)]; [("id", JInt 2)]; [("id", JInt 25)]])
              (Some [[JInt 7; JInt 1; JInt 0; JInt 2]]))
  = Some (Workflow (Some [[("id", JInt 1); ("order", JInt 0)];
                          [("id", JInt 2); ("order", JInt 1)];
                          [("id", JInt 25); ("order", JInt 2)]])
                   (Some []),
          []).
Proof. reflexivity. Qed.

(** A link of more than six entries is not dropped either: unpacking it
    raises, the function returns [False] and writes nothing. *)
Example long_link_is_fatal :
  fix_workflow_file
    (Workflow (Some [[("id", JInt 1)]; [("id", JInt 2)]; [("id", JInt 25)]])
              (Some [[JInt 7; JInt 1; JInt 0; JInt 2; JInt 0; JStr "IMAGE";
                      JStr "extra"]]))
  = None.
Proof. reflexivity. Qed.

(** C5, amended: on a workflow whose links have between one and six
    entries, the fix succeeds; the links it keeps are exactly the links of
    six entries, among the given ones and the link 53 it may add, whose
    origin and target are ids of the resulting nodes (the given ones and
    the preview node 25 when it was missing); a warning is printed for each
    link of six entries with a missing endpoint and for no other. *)
Theorem C5_link_validation (wf : workflow) (ns : list dict)
  (ls : list (list json)) :
  nodes wf = Some ns -> links wf = Some ls ->
  Forall (fun l => (1 <= length l <= 6)%nat) ls ->
  exists ns' ls' warnings candidates,
    fix_workflow_file wf = Some (Workflow (Some ns') (Some ls'), warnings) /\
    (candidates = ls \/ exists vae_id,
        candidates = ls ++ [[JInt 53; vae_id; JInt 0; JInt 25; JInt 0;
                             JStr "IMAGE"]]) /\
    let ids := map (dict_get "id") ns' in
    (ids = map (dict_get "id") ns \/
     ids = map (dict_get "id") ns ++ [JInt 25]) /\
    ls' = List.filter (link_valid ids) candidates /\
    warnings = flat_map (link_warning ids) candidates /\
    Forall (fun l =>
      exists link_id origin origin_slot target target_slot link_type,
        l = [link_id; origin; origin_slot; target; target_slot; link_type] /\
        py_in origin ids = true /\ py_in target ids = true) ls'.
Proof.
  intros Hn Hl Hlen.
  assert (Hshort : Forall (fun l => (length l <= 6)%nat) ls)
    by (eapply Forall_impl; [exact Hlen | simpl; lia]).
  assert (Hfin : forall ns1 cands,
    Forall (fun l => (length l <= 6)%nat) cands ->
    (cands = ls \/ exists vae_id,
        cands = ls ++ [[JInt 53; vae_id; JInt 0; JInt 25; JInt 0;
                        JStr "IMAGE"]]) ->
    (map (dict_get "id") ns1 = map (dict_get "id") ns \/
     map (dict_get "id") ns1 = map (dict_get "id") ns ++ [JInt 25]) ->
    exists ns' ls' warnings candidates,
      match validate_links (map (dict_get "id") (assign_order 0 ns1)) cands
      with
      | Some (valid_links, warnings) =>
          Some (Workflow (Some (assign_order 0 ns1)) (Some valid_links),
                warnings)
      | None => None
      end = Some (Workflow (Some ns') (Some ls'), warnings) /\
      (candidates = ls \/ exists vae_id,
          candidates = ls ++ [[JInt 53; vae_id; JInt 0; JInt 25; JInt 0;
                               JStr "IMAGE"]]) /\
      let ids := map (dict_get "id") ns' in
      (ids = map (dict_get "id") ns \/
       ids = map (dict_get "id") ns ++ [JInt 25]) /\
      ls' = List.filter (link_valid ids) candidates /\
      warnings = flat_map (link_warning ids) candidates /\
      Forall (fun l =>
        exists link_id origin origin_slot target target_slot link_type,
          l = [link_id; origin; origin_slot; target; target_slot; link_type]
          /\ py_in origin ids = true /\ py_in target ids = true) ls').
  { intros ns1 cands Hc Hcands Hids.
    rewrite (validate_links_short _ _ Hc).
    eexists _, _, _, cands. split; [reflexivity|].
    split; [exact Hcands|]. cbv zeta. rewrite assign_order_ids.
    split; [exact Hids|]. split; [reflexivity|]. split; [reflexivity|].
    apply Forall_forall. intros l Hin.
    apply list_elem_of_In, List.filter_In in Hin as [_ Hv].
    by apply link_valid_endpoints. }
  unfold fix_workflow_file. rewrite Hn, Hl.
  destruct (existsb _ ns).
  { apply Hfin; [done | by left | by left]. }
  destruct (link_53_exists_total ls) as [b Hb].
  { eapply Forall_impl; [exact Hlen | simpl; lia]. }
  change (default [] (Some ls)) with ls. rewrite Hb.
  assert (Hids25 : map (dict_get "id") (ns ++ [preview_node]) =
                   map (dict_get "id") ns ++ [JInt 25])
    by (by rewrite map_app).
  destruct b; [apply Hfin; [done | by left | by right]|].
  assert (Hc53 : forall v,
    Forall (fun l => (length l <= 6)%nat)
      (ls ++ [[JInt 53; v; JInt 0; JInt 25; JInt 0; JStr "IMAGE"]])).
  { intros v. apply Forall_app. split; [done|].
    constructor; [simpl; lia | constructor]. }
  destruct (vae_decode_node_id (ns ++ [preview_node])) eqn:Hv;
    (apply Hfin; [done || apply Hc53 | (by left) || (right; by eexists)
                 | by right]).
Qed.

Lemma C5_link_validation_witness :
  let wf := Workflow (Some [[("id", JInt 1)]; [("id", JInt 2)]])
                     (Some [[JInt 1; JInt 99; JInt 0; JInt 2; JInt 0;
                             JStr "IMAGE"]]) in
  nodes wf = Some [[("id", JInt 1)]; [("id", JInt 2)]] /\
  links wf = Some [[JInt 1; JInt 99; JInt 0; JInt 2; JInt 0; JStr "IMAGE"]] /\
  exists ns' ls' warnings,
    fix_workflow_file wf = Some (Workflow (Some ns') (Some ls'), warnings) /\
    Forall (fun l =>
      exists link_id origin origin_slot target target_slot link_type,
        l = [link_id; origin; origin_slot; target; target_slot; link_type] /\
        py_in origin (map (dict_get "id") ns') = true /\
        py_in target (map (dict_get "id") ns') = true) ls'.
Proof.
  intros wf. split; [reflexivity|]. split; [reflexivity|].
  destruct (C5_link_validation wf _ _ eq_refl eq_refl)
    as (ns' & ls' & warnings & cands & Hr & _ & _ & _ & _ & Hall).
  { repeat constructor. }
  by exists ns', ls', warnings.
Defined.

(** The example of the specification: the only link names node 99, which
    does not exist; the fixed workflow has no link (and one warning). *)
Example link_to_missing_node_99 :
  fix_workflow_file
    (Workflow (Some [[("id", JInt 1)]; [("id", JInt 2)]])
              (Some [[JInt 1; JInt 99; JInt 0; JInt 2; JInt 0;
                      JStr "IMAGE"]]))
  = Some (Workflow (Some [[("id", JInt 1); ("order", JInt 0)];
                          [("id", JInt 2); ("order", JInt 1)];
                          preview_node])
                   (Some []),
          [Warning (JInt 1) (JInt 99) (JInt 2)]).
Proof. reflexivity. Qed.

End FixWorkflowFacts.

(** ** Waiting for a prompt *)
Module BackendFacts.
Import Backend.

Definition is_download (ev : event) : bool :=
  match ev with EvGetImage _ _ => true | _ => false end.

Definition is_extended_wait (check_interval : Q) (ev : event) : bool :=
  match ev with
  | EvSleep d => Qeq_bool d (check_interval * 2)
  | _ => false
  end.

(** The loop only ever appends status and history requests, sleeps and
    warnings to the log. *)
Lemma wait_loop_log (b : backend) (prompt_id : string)
  (timeout check_interval : Q) (fuel : nat) (start : Q) (w : world) :
  exists evs,
    log (wait_loop b prompt_id timeout check_interval fuel start w).1
      = log w ++ evs /\
    forallb (fun ev => negb (is_download ev)) evs = true.
Proof.
  revert w. induction fuel as [|fuel IH]; intros w; simpl.
  - destruct (Qlt_le_dec _ _); exists []; by rewrite app_nil_r.
  - destruct (Qlt_le_dec _ _); [|exists []; by rewrite app_nil_r].
    assert (Hagain : forall w' evs,
      log w' = log w ++ evs ->
      forallb (fun ev => negb (is_download ev)) evs = true ->
      exists evs',
        log (match sleep check_interval w' with
             | Some w'' =>
                 wait_loop b prompt_id timeout check_interval fuel start w''
             | None => (w', Raised)
             end).1 = log w ++ evs' /\
        forallb (fun ev => negb (is_download ev)) evs' = true).
    { intros w' evs Hlog Hevs. unfold sleep.
      destruct (Qle_bool 0 check_interval); [|by exists evs].
      destruct (IH (World (now w' + check_interval)%Q
                          (log w' ++ [EvSleep check_interval])))
        as (evs' & -> & Hevs').
      exists (evs ++ [EvSleep check_interval] ++ evs'). simpl.
      rewrite Hlog, <- !app_assoc. split; [done|].
      rewrite forallb_app, Hevs. simpl. exact Hevs'. }
    destruct (status_at b (length (log w))) as [code| |[err|] exe pend].
    + by apply Hagain with (evs := [EvStatus]).
    + by apply Hagain with (evs := [EvStatus]).
    + by exists [EvStatus].
    + destruct (is_prompt prompt_id exe);
        [by apply Hagain with (evs := [EvStatus])|].
      unfold fetch_history.
      destruct (history_at b _) as [|[|o outs]|].
      * destruct (is_prompt prompt_id pend).
        { apply Hagain with (evs := [EvStatus; EvHistory]); [|done].
          simpl. by rewrite <- app_assoc. }
        unfold sleep at 1. destruct (Qle_bool 0 (check_interval * 2)).
        2: { exists [EvStatus; EvHistory]. simpl.
             by rewrite <- app_assoc. }
        cbn [request log now].
        destruct (history_at b _) as [|[|o outs]|].
        -- apply Hagain with
             (evs := [EvStatus; EvHistory; EvSleep (check_interval * 2);
                      EvHistory; EvWarnSilentFailure]); [|done].
           simpl. by rewrite <- !app_assoc.
        -- apply Hagain with
             (evs := [EvStatus; EvHistory; EvSleep (check_interval * 2);
                      EvHistory; EvWarnSilentFailure]); [|done].
           simpl. by rewrite <- !app_assoc.
        -- exists [EvStatus; EvHistory; EvSleep (check_interval * 2);
                   EvHistory]. simpl. by rewrite <- !app_assoc.
        -- apply Hagain with
             (evs := [EvStatus; EvHistory; EvSleep (check_interval * 2);
                      EvHistory]); [|done].
           simpl. by rewrite <- !app_assoc.
      * apply Hagain with (evs := [EvStatus; EvHistory]); [|done].
        simpl. by rewrite <- app_assoc.
      * exists [EvStatus; EvHistory]. simpl. by rewrite <- app_assoc.
      * apply Hagain with (evs := [EvStatus; EvHistory]); [|done].
        simpl. by rewrite <- app_assoc.
Qed.

(** C6: with a timeout of 0 the wait returns the timeout error at once,
    whatever the server would answer: no request is sent, nothing is
    slept, and the caller downloads no image. *)
Theorem C6_zero_timeout_returns_at_once (b : backend) (prompt_id : string)
  (check_interval : Q) (fuel : nat) (w : world) :
  wait_for_prompt b prompt_id 0 check_interval fuel w
    = (w, Returned false (Error timeout_message)) /\
  await_and_download b prompt_id 0 check_interval fuel w
    = (w, Some (inr timeout_message)).
Proof.
  assert (H : wait_for_prompt b prompt_id 0 check_interval fuel w
              = (w, Returned false (Error timeout_message))).
  { unfold wait_for_prompt.
    destruct fuel; simpl; destruct (Qlt_le_dec _ _) as [Hlt|_]; try done;
      exfalso; revert Hlt; generalize (now w); intros q Hq; lra. }
  split; [exact H|]. unfold await_and_download. by rewrite H.
Qed.

(** Whatever the timeout, a wait that fails leads to no download. *)
Lemma failed_wait_downloads_nothing (b : backend) (prompt_id : string)
  (timeout check_interval : Q) (fuel : nat) (w w' : world) (r : payload) :
  wait_for_prompt b prompt_id timeout check_interval fuel w
    = (w', Returned false r) ->
  exists evs,
    log (await_and_download b prompt_id timeout check_interval fuel w).1
      = log w ++ evs /\
    forallb (fun ev => negb (is_download ev)) evs = true.
Proof.
  intros H. unfold await_and_download. rewrite H.
  pose proof (wait_loop_log b prompt_id timeout check_interval fuel
                (now w) w) as (evs & Hl & He).
  unfold wait_for_prompt in H. rewrite H in Hl. simpl in Hl.
  exists evs. by destruct r.
Qed.

(** *** The ambiguous state *)

(** A server on which the prompt is never executing, never pending and
    never in the history, and whose requests take no negative time. *)
Definition ambiguous (b : backend) (prompt_id : string) : Prop :=
  forall i,
    (exists executing pending,
       status_at b i = StatusData None executing pending /\
       is_prompt prompt_id executing = false /\
       is_prompt prompt_id pending = false) /\
    history_at b i = HistoryAbsent /\
    (0 <= latency b i)%Q.

(** What one iteration does in the ambiguous state. *)
Definition ambiguous_round (check_interval : Q) : list event :=
  [EvStatus; EvHistory; EvSleep (check_interval * 2); EvHistory;
   EvWarnSilentFailure; EvSleep check_interval].

Definition vanished : backend :=
  {| status_at := fun _ => StatusData None None None;
     history_at := fun _ => HistoryAbsent;
     image_at := fun _ => false;
     latency := fun _ => 0%Q |}.

(** C7, as stated, fails: polled for 7 seconds at an interval of 1 on a
    prompt that has vanished, the wait makes three extended waits, not one,
    and what it returns is the timeout error. *)
Lemma C7_no_silent_failure_error :
  let r := wait_for_prompt vanished "p" 7 1 10 (World 0 []) in
  length (List.filter (is_extended_wait 1) (log r.1)) = 3%nat /\
  r.2 = Returned false (Error timeout_message).
Proof. vm_compute. done. Qed.

Lemma ambiguous_iteration (b : backend) (prompt_id : string)
  (timeout check_interval : Q) (fuel : nat) (start : Q) (w : world) :
  ambiguous b prompt_id -> (0 <= check_interval)%Q ->
  (now w - start < timeout)%Q ->
  exists w',
    wait_loop b prompt_id timeout check_interval (S fuel) start w
      = wait_loop b prompt_id timeout check_interval fuel start w' /\
    log w' = log w ++ ambiguous_round check_interval /\
    (now w + 3 * check_interval <= now w')%Q.
Proof.
  intros Hamb Hci Hlt. cbn [wait_loop].
  destruct (Qlt_le_dec _ _) as [_|Hge]; [|lra].
  destruct (Hamb (length (log w))) as ((exe & pend & -> & -> & Hp) & _ & Hl1).
  unfold fetch_history. cbn [request log now].
  destruct (Hamb (length (log w ++ [EvStatus]))) as (_ & -> & Hl2).
  rewrite Hp. unfold sleep at 1.
  assert (H2 : Qle_bool 0 (check_interval * 2) = true)
    by (apply Qle_bool_iff; lra).
  rewrite H2. cbn [request log now].
  match goal with
  | |- context [history_at b (length ?l)] =>
      destruct (Hamb (length l)) as (_ & -> & Hl3)
  end.
  unfold sleep.
  assert (H1 : Qle_bool 0 check_interval = true) by by apply Qle_bool_iff.
  rewrite H1. cbn [log now]. eexists. split; [reflexivity|].
  cbn [log now]. split.
  - unfold ambiguous_round. by rewrite <- !app_assoc.
  - lra.
Qed.

Lemma ambiguous_wait_loop (b : backend) (prompt_id : string)
  (timeout check_interval : Q) (start : Q) (fuel : nat) (w : world) :
  ambiguous b prompt_id -> (0 < check_interval)%Q ->
  (timeout - (now w - start) <= inject_Z (Z.of_nat fuel) * (3 * check_interval))%Q ->
  exists n w',
    wait_loop b prompt_id timeout check_interval fuel start w
      = (w', Returned false (Error timeout_message)) /\
    log w' = log w ++ concat (replicate n (ambiguous_round check_interval)) /\
    ((now w - start < timeout)%Q -> (1 <= n)%nat).
Proof.
  intros Hamb Hci. revert w.
  induction fuel as [|fuel IH]; intros w Hfuel.
  - exists 0%nat, w. cbn [wait_loop replicate concat].
    change (inject_Z (Z.of_nat 0)) with 0%Q in Hfuel.
    destruct (Qlt_le_dec _ _) as [Hlt|Hge]; [lra|].
    split; [done|]. split; [by rewrite app_nil_r | lra].
  - destruct (Qlt_le_dec (now w - start) timeout) as [Hlt|Hge].
    + destruct (ambiguous_iteration b prompt_id timeout check_interval fuel
                  start w Hamb ltac:(lra) Hlt) as (w1 & -> & Hlog & Hnow).
      destruct (IH w1) as (n & w' & -> & Hlog' & _).
      { rewrite Nat2Z.inj_succ in Hfuel. unfold Z.succ in Hfuel.
        rewrite inject_Z_plus in Hfuel. simpl inject_Z in Hfuel.
        change (inject_Z 1) with 1%Q in Hfuel. lra. }
      exists (S n), w'. split; [done|].
      split; [|lia]. rewrite Hlog', Hlog. simpl. by rewrite <- app_assoc.
    + exists 0%nat, w. simpl.
      destruct (Qlt_le_dec _ _) as [Hlt|_]; [lra|].
      split; [done|]. split; [by rewrite app_nil_r | lra].
Qed.

(** C7, amended: in the ambiguous state every iteration makes one extended
    wait of twice the interval, fetches the history again and, the prompt
    still absent, logs a warning and goes on polling; the wait ends with
    the timeout error once the timeout has elapsed, after as many extended
    waits as iterations (at least one when the timeout is positive). *)
Theorem C7_ambiguous_state_polls_until_timeout (b : backend)
  (prompt_id : string) (timeout check_interval : Q) (fuel : nat)
  (w : world) :
  ambiguous b prompt_id -> (0 < check_interval)%Q ->
  (timeout <= inject_Z (Z.of_nat fuel) * (3 * check_interval))%Q ->
  exists n w',
    wait_for_prompt b prompt_id timeout check_interval fuel w
      = (w', Returned false (Error timeout_message)) /\
    log w' = log w ++ concat (replicate n (ambiguous_round check_interval)) /\
    ((0 < timeout)%Q -> (1 <= n)%nat).
Proof.
  intros Hamb Hci Hfuel. unfold wait_for_prompt.
  destruct (ambiguous_wait_loop b prompt_id timeout check_interval (now w)
              fuel w Hamb Hci) as (n & w' & Hr & Hlog & Hn).
  { generalize (now w). intros q. lra. }
  exists n, w'. split; [exact Hr|]. split; [exact Hlog|].
  intros Ht. apply Hn. generalize (now w). intros q. lra.
Qed.

Lemma vanished_ambiguous : ambiguous vanished "p".
Proof.
  intros i. split; [|split; [reflexivity | discriminate]].
  by exists None, None.
Qed.

Lemma C7_ambiguous_state_polls_until_timeout_witness :
  ambiguous vanished "p" /\ (0 < 1)%Q /\
  (7 <= inject_Z (Z.of_nat 10) * (3 * 1))%Q /\
  exists n w',
    wait_for_prompt vanished "p" 7 1 10 (World 0 [])
      = (w', Returned false (Error timeout_message)) /\
    log w' = concat (replicate n (ambiguous_round 1)) /\
    ((0 < 7)%Q -> (1 <= n)%nat).
Proof.
  split; [exact vanished_ambiguous|].
  split; [reflexivity|]. split; [discriminate|].
  apply (C7_ambiguous_state_polls_until_timeout vanished "p" 7 1 10
           (World 0 [])).
  - exact vanished_ambiguous.
  - reflexivity.
  - discriminate.
Defined.

End BackendFacts.

(** ** Patching a workflow *)
Module PatcherFacts.
Import Patcher.

(** *** What a deep copy allocates *)

Definition val_refs (v : val) : list loc :=
  match v with VRef l => [l] | _ => [] end.

Definition refs_of (o : obj) : list loc :=
  match o with
  | OList vs => flat_map val_refs vs
  | ODict kvs => flat_map val_refs (map snd kvs)
  end.

(** The objects [new], allocated from address [n] on, form trees hanging
    from [roots]: an object refers only to objects allocated before it and
    after [n], and no object is referred to twice. *)
Record copied (n : nat) (new : list obj) (roots : list loc) : Prop := {
  copied_below : forall i o r,
    new !! i = Some o -> r ∈ refs_of o -> (n <= r < n + i)%nat;
  copied_roots : forall r, r ∈ roots -> (n <= r < n + length new)%nat;
  copied_once : NoDup (flat_map refs_of new ++ roots)
}.

Lemma copied_nil (n : nat) : copied n [] [].
Proof. split; [done | by intros r ?%elem_of_nil | constructor]. Qed.

Lemma map_snd_zip {A B} (ks : list A) (vs : list B) :
  length ks = length vs -> map snd (zip ks vs) = vs.
Proof.
  revert vs. induction ks as [|k ks IH]; intros [|v vs] H; simpl in *;
    try done. f_equal. apply IH. lia.
Qed.

Lemma copied_inner (n : nat) (new : list obj) (roots : list loc) (r : loc) :
  copied n new roots -> r ∈ flat_map refs_of new ->
  (n <= r < n + length new)%nat.
Proof.
  intros H Hr. apply list_elem_of_In, in_flat_map in Hr as (o & Ho & Hr).
  apply list_elem_of_In, list_elem_of_lookup in Ho as (i & Hi).
  apply list_elem_of_In in Hr.
  pose proof (copied_below _ _ _ H i o r Hi Hr).
  apply lookup_lt_Some in Hi. lia.
Qed.

Lemma copied_app (n : nat) (new1 new2 : list obj) (roots1 roots2 : list loc) :
  copied n new1 roots1 -> copied (n + length new1) new2 roots2 ->
  copied n (new1 ++ new2) (roots1 ++ roots2).
Proof.
  intros H1 H2. split.
  - intros i o r Hi Hr. apply lookup_app_Some in Hi as [Hi|[Hlen Hi]].
    + exact (copied_below _ _ _ H1 i o r Hi Hr).
    + pose proof (copied_below _ _ _ H2 _ o r Hi Hr). lia.
  - intros r Hr. rewrite length_app.
    apply elem_of_app in Hr as [Hr|Hr].
    + pose proof (copied_roots _ _ _ H1 r Hr). lia.
    + pose proof (copied_roots _ _ _ H2 r Hr). lia.
  - rewrite flat_map_app.
    assert (Hp : Permutation
              ((flat_map refs_of new1 ++ flat_map refs_of new2) ++
               roots1 ++ roots2)
              ((flat_map refs_of new1 ++ roots1) ++
               flat_map refs_of new2 ++ roots2)).
    { rewrite <- !app_assoc. f_equiv. rewrite !app_assoc. f_equiv.
      apply Permutation_app_comm. }
    rewrite Hp. apply NoDup_app.
    split; [exact (copied_once _ _ _ H1)|].
    split; [|exact (copied_once _ _ _ H2)].
    intros r Hr1 Hr2.
    assert (r < n + length new1)%nat.
    { apply elem_of_app in Hr1 as [Hr1|Hr1].
      - pose proof (copied_inner _ _ _ _ H1 Hr1). lia.
      - pose proof (copied_roots _ _ _ H1 r Hr1). lia. }
    assert (n + length new1 <= r)%nat.
    { apply elem_of_app in Hr2 as [Hr2|Hr2].
      - pose proof (copied_inner _ _ _ _ H2 Hr2). lia.
      - pose proof (copied_roots _ _ _ H2 r Hr2). lia. }
    lia.
Qed.

Lemma copied_parent (n : nat) (new : list obj) (roots : list loc) (o : obj) :
  copied n new roots -> refs_of o = roots ->
  copied n (new ++ [o]) [(n + length new)%nat].
Proof.
  intros H Ho. split.
  - intros i o' r Hi Hr. apply lookup_app_Some in Hi as [Hi|[Hlen Hi]].
    + exact (copied_below _ _ _ H i o' r Hi Hr).
    + apply list_lookup_singleton_Some in Hi as [Hi <-].
      rewrite Ho in Hr. pose proof (copied_roots _ _ _ H r Hr). lia.
  - intros r ->%list_elem_of_singleton. rewrite length_app. simpl. lia.
  - rewrite flat_map_app. simpl. rewrite app_nil_r, Ho.
    apply NoDup_app. split; [exact (copied_once _ _ _ H)|].
    split; [|apply NoDup_singleton].
    intros r Hr ->%list_elem_of_singleton.
    apply elem_of_app in Hr as [Hr|Hr].
    + pose proof (copied_inner _ _ _ _ H Hr). lia.
    + pose proof (copied_roots _ _ _ H _ Hr). lia.
Qed.

Lemma copy_all_copied (copy : val -> heap -> option (heap * val)) :
  (forall v h h' v', copy v h = Some (h', v') ->
     exists new, h' = h ++ new /\ copied (length h) new (val_refs v')) ->
  forall vs h h' vs', copy_all copy vs h = Some (h', vs') ->
    exists new, h' = h ++ new /\ length vs' = length vs /\
                copied (length h) new (flat_map val_refs vs').
Proof.
  intros Hcopy. induction vs as [|v vs IH]; intros h h' vs' H; simpl in H.
  - injection H as <- <-. exists []. rewrite app_nil_r.
    split; [done|]. split; [done | apply copied_nil].
  - destruct (copy v h) as [[h1 v']|] eqn:Hv; [|discriminate].
    destruct (copy_all copy vs h1) as [[h2 vs'']|] eqn:Hvs; [|discriminate].
    injection H as <- <-.
    destruct (Hcopy _ _ _ _ Hv) as (new1 & -> & Hc1).
    destruct (IH _ _ _ Hvs) as (new2 & -> & Hlen & Hc2).
    exists (new1 ++ new2). rewrite app_assoc. split; [done|].
    split; [simpl; by rewrite Hlen|].
    simpl. apply copied_app; [done|]. by rewrite length_app in Hc2.
Qed.

Lemma deepcopy_copied (fuel : nat) (v : val) (h h' : heap) (v' : val) :
  deepcopy fuel v h = Some (h', v') ->
  exists new, h' = h ++ new /\ copied (length h) new (val_refs v').
Proof.
  revert v h h' v'. induction fuel as [|fuel IH]; intros v h h' v' H.
  - destruct v; simpl in H; try discriminate; injection H as <- <-;
      exists []; rewrite app_nil_r; (split; [done | apply copied_nil]).
  - destruct v as [| | | |l]; simpl in H;
      try (injection H as <- <-; exists []; rewrite app_nil_r;
           (split; [done | apply copied_nil])).
    destruct (h !! l) as [[kvs|vs]|]; [| |discriminate].
    + destruct (copy_all (deepcopy fuel) (map snd kvs) h)
        as [[h1 vs']|] eqn:Hc; [|discriminate].
      injection H as <- <-.
      destruct (copy_all_copied _ IH _ _ _ _ Hc) as (new & -> & Hlen & Hcp).
      exists (new ++ [ODict (zip (map fst kvs) vs')]).
      rewrite app_assoc. split; [done|]. simpl. rewrite length_app.
      apply copied_parent with (roots := flat_map val_refs vs'); [done|].
      simpl. rewrite map_snd_zip; [done|]. rewrite !length_map in *. lia.
    + destruct (copy_all (deepcopy fuel) vs h)
        as [[h1 vs']|] eqn:Hc; [|discriminate].
      injection H as <- <-.
      destruct (copy_all_copied _ IH _ _ _ _ Hc) as (new & -> & Hlen & Hcp).
      exists (new ++ [OList vs']).
      rewrite app_assoc. split; [done|]. simpl. rewrite length_app.
      by apply copied_parent with (roots := flat_map val_refs vs').
Qed.

Lemma NoDup_flat_map_unique {A B} (f : A -> list B) (l : list A)
  (i j : nat) (a b : A) (r : B) :
  NoDup (flat_map f l) -> l !! i = Some a -> l !! j = Some b ->
  r ∈ f a -> r ∈ f b -> i = j.
Proof.
  revert i j. induction l as [|x l IH]; intros i j Hnd Hi Hj Ha Hb;
    [done|].
  simpl in Hnd. apply NoDup_app in Hnd as (_ & Hdis & Hnd).
  assert (Hin : forall k c, l !! k = Some c -> r ∈ f c ->
                            r ∈ flat_map f l).
  { intros k c Hk Hc. apply list_elem_of_In, in_flat_map. exists c.
    split; apply list_elem_of_In; [|done].
    apply list_elem_of_lookup. by exists k. }
  destruct i as [|i], j as [|j]; simpl in *.
  - done.
  - injection Hi as ->. exfalso. exact (Hdis r Ha (Hin _ _ Hj Hb)).
  - injection Hj as ->. exfalso. exact (Hdis r Hb (Hin _ _ Hi Ha)).
  - f_equal. by apply IH.
Qed.

Lemma dict_get_ref (k : key) (kvs : list (key * val)) (t : loc) :
  dict_get k kvs = VRef t -> t ∈ refs_of (ODict kvs).
Proof.
  induction kvs as [|[k' v] kvs IH]; simpl; [done|].
  destruct (key_eqb k k').
  - intros ->. simpl. apply list_elem_of_here.
  - intros H. apply elem_of_app. right. by apply IH.
Qed.

Lemma list_ref (vs : list val) (n : loc) :
  VRef n ∈ vs -> n ∈ refs_of (OList vs).
Proof.
  intros H. simpl. apply list_elem_of_In, in_flat_map. exists (VRef n).
  split; [by apply list_elem_of_In | by left].
Qed.

Lemma chars_no_ref (s : string) (n : loc) : VRef n ∉ chars s.
Proof.
  induction s as [|a s IH]; simpl; [apply not_elem_of_nil|].
  intros [H|H]%elem_of_cons; [discriminate | done].
Qed.

Lemma keys_no_ref (kvs : list (key * val)) (n : loc) :
  VRef n ∉ map (fun kv => key_val kv.1) kvs.
Proof.
  induction kvs as [|[[s|z] v] kvs IH]; simpl; [apply not_elem_of_nil| |];
    intros [H|H]%elem_of_cons; done.
Qed.

(** *** The copy and the writes made into it *)

Section Frame.

(** The store [h0] at the call, and the copy of the workflow made in
    [new], reached through [uw]. *)
Context (h0 : heap) (new : list obj) (uw : val).
Context (Hcopied : copied (length h0) new (val_refs uw)).

Local Abbreviation h1 := (h0 ++ new).

Lemma fresh_refs (x : loc) (o : obj) (r : loc) :
  (length h0 <= x)%nat -> h1 !! x = Some o -> r ∈ refs_of o ->
  (length h0 <= r < x)%nat.
Proof.
  intros Hx Ho Hr. rewrite lookup_app_r in Ho by done.
  pose proof (copied_below _ _ _ Hcopied _ _ _ Ho Hr). lia.
Qed.

Lemma unique_parent (x y : loc) (o1 o2 : obj) (r : loc) :
  (length h0 <= x)%nat -> (length h0 <= y)%nat ->
  h1 !! x = Some o1 -> h1 !! y = Some o2 ->
  r ∈ refs_of o1 -> r ∈ refs_of o2 -> x = y.
Proof.
  intros Hx Hy H1 H2 Hr1 Hr2.
  rewrite lookup_app_r in H1, H2 by done.
  pose proof (copied_once _ _ _ Hcopied) as Hnd.
  apply NoDup_app in Hnd as (Hnd & _ & _).
  pose proof (NoDup_flat_map_unique refs_of new _ _ _ _ r Hnd H1 H2 Hr1 Hr2).
  lia.
Qed.

(** The path from the copy down to the list of its nodes. *)
Lemma workflow_nodes_path (nodes : list val) (n : loc) :
  workflow_nodes h1 uw = Some nodes -> VRef n ∈ nodes ->
  exists l kvs ln,
    uw = VRef l /\ h1 !! l = Some (ODict kvs) /\
    dict_get (KStr "nodes") kvs = VRef ln /\ h1 !! ln = Some (OList nodes).
Proof.
  unfold workflow_nodes. intros H Hn.
  destruct uw as [| | | |l]; try discriminate.
  destruct (h1 !! l) as [[kvs|]|] eqn:Hl; try discriminate.
  destruct (dict_has (KStr "nodes") kvs).
  2: { injection H as <-. by apply elem_of_nil in Hn. }
  unfold py_iter in H.
  destruct (dict_get (KStr "nodes") kvs) as [| | |s|ln] eqn:Hg;
    try discriminate.
  - injection H as <-. by apply chars_no_ref in Hn.
  - destruct (h1 !! ln) as [[kvs'|vs]|] eqn:Hln; try discriminate.
    + injection H as <-. by apply keys_no_ref in Hn.
    + injection H as <-. by exists l, kvs, ln.
Qed.

(** The objects [update_workflow] may write into: what a node of the copy
    holds under ["inputs"] or ["widgets_values"]. *)
Definition target (t : loc) : Prop :=
  exists nodes n node k,
    workflow_nodes h1 uw = Some nodes /\ VRef n ∈ nodes /\
    h1 !! n = Some (ODict node) /\ (k = "inputs" \/ k = "widgets_values") /\
    dict_get (KStr k) node = VRef t.

(** A target is new, and it is neither the copy's root, nor its list of
    nodes, nor one of its nodes. *)
Lemma target_apart (t : loc) :
  target t ->
  (length h0 <= t)%nat /\
  exists l kvs ln nodes,
    uw = VRef l /\ h1 !! l = Some (ODict kvs) /\
    dict_get (KStr "nodes") kvs = VRef ln /\ h1 !! ln = Some (OList nodes) /\
    workflow_nodes h1 uw = Some nodes /\
    t <> l /\ t <> ln /\ forall n, VRef n ∈ nodes -> t <> n.
Proof.
  intros (nodes & n & node & k & Hw & Hn & Hnode & _ & Hk).
  destruct (workflow_nodes_path _ _ Hw Hn)
    as (l & kvs & ln & Huw & Hl & Hnodes & Hln).
  assert (Hl0 : (length h0 <= l)%nat).
  { pose proof (copied_roots _ _ _ Hcopied l) as H. rewrite Huw in H.
    destruct H; [apply list_elem_of_here | done]. }
  pose proof (fresh_refs _ _ _ Hl0 Hl (dict_get_ref _ _ _ Hnodes)) as Hln0.
  pose proof (fresh_refs ln _ _ ltac:(lia) Hln (list_ref _ _ Hn)) as Hn0.
  pose proof (fresh_refs n _ _ ltac:(lia) Hnode (dict_get_ref _ _ _ Hk))
    as Ht0.
  split; [lia|]. exists l, kvs, ln, nodes.
  do 5 (split; [done|]). split; [lia|]. split; [lia|].
  intros n' Hn' ->.
  assert (n = ln); [|lia].
  apply (unique_parent n ln _ _ n' ltac:(lia) ltac:(lia) Hnode Hln).
  - by apply (dict_get_ref _ _ _ Hk).
  - by apply list_ref.
Qed.

(** What the loop over the updates keeps true of the store. *)
Definition inv (h : heap) : Prop :=
  length h = length h1 /\ forall x, ~ target x -> h !! x = h1 !! x.

Lemma inv_start : inv h1.
Proof. by split. Qed.

Lemma inv_write (h : heap) (t : loc) (o : obj) :
  inv h -> target t -> inv (<[t := o]> h).
Proof.
  intros [Hlen Hsame] Ht. split; [by rewrite length_insert|].
  intros x Hx. rewrite list_lookup_insert_ne; [by apply Hsame|].
  by intros ->.
Qed.

Lemma set_item_str_inv (h h' : heap) (x : val) (s : string) (v : val) :
  inv h -> (forall t, x = VRef t -> target t) ->
  set_item_str h x s v = Some h' -> inv h'.
Proof.
  intros Hinv Hx. unfold set_item_str.
  destruct x as [| | | |t]; try discriminate.
  destruct (h !! t) as [[kvs|]|]; try discriminate.
  intros [= <-]. apply inv_write; auto.
Qed.

Lemma set_item_int_inv (h h' : heap) (x : val) (i : nat) (v : val) :
  inv h -> (forall t, x = VRef t -> target t) ->
  set_item_int h x i v = Some h' -> inv h'.
Proof.
  intros Hinv Hx. unfold set_item_int.
  destruct x as [| | | |t]; try discriminate.
  destruct (h !! t) as [[kvs|vs]|]; try discriminate.
  - intros [= <-]. apply inv_write; auto.
  - destruct (i <? length vs)%nat; [|discriminate].
    intros [= <-]. apply inv_write; auto.
Qed.

Lemma update_special_inv (h h' : heap) (node : list (key * val))
  (param : string) (v : val) :
  inv h ->
  (forall t, dict_get (KStr "widgets_values") node = VRef t -> target t) ->
  update_special h node param v = Some h' -> inv h'.
Proof.
  intros Hinv Hw. unfold update_special.
  destruct (longer_than h _ (_ && _) 0) as [[|]|]; try discriminate.
  { by apply set_item_int_inv. }
  destruct (is_str "SaveImage" _); [|by intros [= <-]].
  destruct (longer_than h _ (String.eqb param "filename_prefix") 1)
    as [[|]|]; try discriminate.
  { by apply set_item_int_inv. }
  destruct (longer_than h _ (String.eqb param "output_dir") 0)
    as [[|]|]; try discriminate.
  { by apply set_item_int_inv. }
  by intros [= <-].
Qed.

Lemma update_node_inv (h h' : heap) (node : list (key * val))
  (param : string) (v : val) :
  inv h ->
  (forall k t, k = "inputs" \/ k = "widgets_values" ->
               dict_get (KStr k) node = VRef t -> target t) ->
  update_node h node param v = Some h' -> inv h'.
Proof.
  intros Hinv Ht. unfold update_node.
  destruct (if dict_has (KStr "inputs") node then _ else _) as [[|]|];
    try discriminate.
  { apply set_item_str_inv; [done|]. intros t. apply Ht. by left. }
  destruct (dict_has (KStr "widgets_values") node); [|by intros [= <-]].
  assert (Hw : forall t,
    dict_get (KStr "widgets_values") node = VRef t -> target t).
  { intros t. apply Ht. by right. }
  destruct (param_index h node param) as [[i|]|]; try discriminate.
  - destruct (py_len h _) as [n|]; [|discriminate].
    destruct (i <? n)%nat.
    + by apply set_item_int_inv.
    + by apply update_special_inv.
  - by apply update_special_inv.
Qed.

Section Loop.

Context (py_repr : heap -> loc -> string).

Lemma update_nodes_inv (h h' : heap) (all nodes : list val)
  (node_id param : string) (v : val) :
  inv h -> workflow_nodes h1 uw = Some all ->
  (forall x, x ∈ nodes -> x ∈ all) ->
  update_nodes py_repr h nodes node_id param v = Some h' -> inv h'.
Proof.
  intros Hinv Hall. induction nodes as [|x nodes IH]; intros Hsub; simpl.
  - by intros [= <-].
  - destruct x as [| | | |n]; try discriminate.
    assert (Hn : VRef n ∈ all) by (apply Hsub, list_elem_of_here).
    assert (Hsame : h !! n = h1 !! n).
    { apply Hinv. intros Ht.
      destruct (target_apart _ Ht)
        as (_ & l & kvs & ln & nodes' & _ & _ & _ & _ & Hw & _ & _ & Hne).
      rewrite Hall in Hw. injection Hw as <-. by apply (Hne n). }
    destruct (h !! n) as [[node|]|] eqn:Hnode; try discriminate.
    destruct (String.eqb _ node_id).
    + apply update_node_inv; [done|]. intros k t Hk Hg.
      exists all, n, node, k. by rewrite <- Hsame.
    + apply IH. intros y Hy. by apply Hsub, list_elem_of_further.
Qed.

Lemma workflow_nodes_inv (h : heap) :
  inv h -> workflow_nodes h uw = workflow_nodes h1 uw.
Proof.
  intros [Hlen Hsame].
  assert (Hroot : forall l, uw = VRef l -> h !! l = h1 !! l).
  { intros l Huw. apply Hsame. intros Ht.
    destruct (target_apart _ Ht)
      as (_ & l' & _ & _ & _ & Hl' & _ & _ & _ & _ & Hne & _).
    rewrite Huw in Hl'. injection Hl' as <-. done. }
  assert (Hlist : forall l kvs ln,
    uw = VRef l -> h1 !! l = Some (ODict kvs) ->
    dict_get (KStr "nodes") kvs = VRef ln -> h !! ln = h1 !! ln).
  { intros l kvs ln Huw Hkvs Hg. apply Hsame. intros Ht.
    destruct (target_apart _ Ht)
      as (_ & l' & kvs' & ln' & _ & Hl' & Hkvs' & Hg' & _ & _ & _ & Hne & _).
    rewrite Huw in Hl'. injection Hl' as <-.
    rewrite Hkvs in Hkvs'. injection Hkvs' as <-.
    rewrite Hg in Hg'. injection Hg' as <-. done. }
  clear Hsame. unfold workflow_nodes.
  destruct uw as [| | | |l]; try done.
  rewrite (Hroot l eq_refl).
  destruct (h1 !! l) as [[kvs|]|] eqn:Hkvs; try done.
  destruct (dict_has (KStr "nodes") kvs); [|done].
  unfold py_iter.
  destruct (dict_get (KStr "nodes") kvs) as [| | | |ln] eqn:Hg; try done.
  by rewrite (Hlist l kvs ln eq_refl Hkvs Hg).
Qed.

Lemma update_one_inv (h : heap) (k : string) (v : val) :
  inv h -> inv (update_one py_repr h uw k v).
Proof.
  intros Hinv. unfold update_one.
  destruct (Orchestrator.split_char _ k) as [|node_id [|param [|]]];
    try done.
  rewrite (workflow_nodes_inv _ Hinv).
  destruct (workflow_nodes h1 uw) as [nodes|] eqn:Hw; [|done].
  destruct (update_nodes py_repr h nodes node_id param v) as [h'|] eqn:Hu;
    [|done].
  simpl. by apply (update_nodes_inv h h' nodes nodes node_id param v).
Qed.

Lemma apply_updates_inv (h : heap) (updates : list (string * val)) :
  inv h -> inv (apply_updates py_repr h uw updates).
Proof.
  revert h. induction updates as [|[k v] updates IH]; intros h Hinv;
    [done|].
  simpl. apply IH. by apply update_one_inv.
Qed.

(** The objects that were there before the call are as they were. *)
Lemma apply_updates_frame (updates : list (string * val)) :
  take (length h0) (apply_updates py_repr h1 uw updates) = h0.
Proof.
  pose proof (apply_updates_inv h1 updates inv_start) as [Hlen Hsame].
  assert (Hold : forall i, (i < length h0)%nat ->
            apply_updates py_repr h1 uw updates !! i = h0 !! i).
  { intros i Hi. rewrite Hsame.
    - by rewrite lookup_app_l.
    - intros Ht. apply target_apart in Ht as [Ht _]. lia. }
  rewrite length_app in Hlen.
  apply list_eq. intros i.
  destruct (Nat.lt_ge_cases i (length h0)) as [Hi|Hi].
  - rewrite lookup_take_lt by done. by apply Hold.
  - rewrite lookup_take_ge by lia. symmetry. apply lookup_ge_None. lia.
Qed.

End Loop.

End Frame.

(** *** The workflows covered *)

(** [v] is a scalar, or a list or dict (with distinct keys), nested at
    most [d] deep, of such values: what [json.load] builds. *)
Fixpoint finite (d : nat) (h : heap) (v : val) : Prop :=
  match v with
  | VRef l =>
      match d with
      | O => False
      | S d' =>
          match h !! l with
          | None => False
          | Some (OList vs) => Forall (finite d' h) vs
          | Some (ODict kvs) =>
              NoDup (map fst kvs) /\ Forall (finite d' h) (map snd kvs)
          end
      end
  | _ => True
  end.

Lemma finite_mono (d : nat) (h : heap) (v : val) :
  finite d h v -> finite (S d) h v.
Proof.
  revert v. induction d as [|d IH]; intros v; [by destruct v|].
  destruct v as [| | | |l]; try done.
  intros H. cbn [finite] in H |- *.
  destruct (h !! l) as [[kvs|vs]|]; [| |done].
  - destruct H as [Hnd H]. split; [done|].
    eapply Forall_impl; [exact H | exact IH].
  - eapply Forall_impl; [exact H | exact IH].
Qed.

Lemma copy_all_total (d : nat) (h : heap) :
  (forall v ext, finite d h v -> is_Some (deepcopy d v (h ++ ext))) ->
  forall vs ext, Forall (finite d h) vs ->
    is_Some (copy_all (deepcopy d) vs (h ++ ext)).
Proof.
  intros Hd. induction vs as [|v vs IH]; intros ext Hvs; [by eexists|].
  apply Forall_cons in Hvs as [Hv Hvs]. simpl.
  destruct (Hd v ext Hv) as [[h1 v'] H1]. rewrite H1.
  destruct (deepcopy_copied _ _ _ _ _ H1) as (new & -> & _).
  rewrite <- app_assoc.
  destruct (IH (ext ++ new) Hvs) as [[h2 vs'] H2]. rewrite H2. by eexists.
Qed.

(** The copy of such a value succeeds, also when the store has grown. *)
Lemma deepcopy_total (d : nat) (v : val) (h ext : heap) :
  finite d h v -> is_Some (deepcopy d v (h ++ ext)).
Proof.
  revert v ext. induction d as [|d IH]; intros v ext Hv.
  - destruct v; simpl in *; [by exists (h ++ ext, VNone)
      | by eexists (h ++ ext, VBool _) | by eexists (h ++ ext, VInt _)
      | by eexists (h ++ ext, VStr _) | done].
  - destruct v as [| | | |l];
      [by exists (h ++ ext, VNone) | by eexists (h ++ ext, VBool _)
      | by eexists (h ++ ext, VInt _) | by eexists (h ++ ext, VStr _) |].
    cbn [finite] in Hv. cbn [deepcopy].
    destruct (h !! l) as [[kvs|vs]|] eqn:Hl; [| |done];
      rewrite (lookup_app_l_Some h ext l _ Hl).
    + destruct (copy_all_total d h IH (map snd kvs) ext (proj2 Hv))
        as [[h' vs'] H].
      rewrite H. by eexists (_, _).
    + destruct (copy_all_total d h IH vs ext Hv) as [[h' vs'] H].
      rewrite H. by eexists (_, _).
Qed.

(** *** The copy equals the original *)

Lemma key_eqb_eq (a b : key) : key_eqb a b = true <-> a = b.
Proof.
  destruct a as [x|x], b as [y|y]; simpl; split; try done.
  - by intros ->%String.eqb_eq.
  - intros [= ->]. apply String.eqb_refl.
  - by intros ->%Z.eqb_eq.
  - intros [= ->]. apply Z.eqb_refl.
Qed.

Lemma dict_zip_lookup (ks : list key) (vs : list val) (i : nat) (k : key)
  (v : val) :
  NoDup ks -> ks !! i = Some k -> vs !! i = Some v ->
  dict_has k (zip ks vs) = true /\ dict_get k (zip ks vs) = v.
Proof.
  revert vs i. induction ks as [|k0 ks IH]; intros [|v0 vs] i Hnd Hk Hv;
    try done.
  apply NoDup_cons in Hnd as [Hk0 Hnd]. destruct i as [|i]; simpl in *.
  - injection Hk as ->. injection Hv as ->.
    by rewrite (proj2 (key_eqb_eq k k) eq_refl).
  - destruct (key_eqb k k0) eqn:E.
    + apply key_eqb_eq in E as ->. exfalso. apply Hk0.
      apply list_elem_of_lookup. by exists i.
    + by apply IH with (i := i).
Qed.

Lemma deep_eq_scalar_refl (d : nat) (h : heap) (v : val) :
  val_refs v = [] -> deep_eq d h v v = true.
Proof.
  destruct v as [|b|z|s|l]; destruct d; simpl; try done; intros _.
  all: try apply Z.eqb_refl; try apply String.eqb_refl; by destruct b.
Qed.

Lemma Forall2_forallb_zip {A B} (f : A -> B -> bool) (xs : list A)
  (ys : list B) :
  Forall2 (fun x y => f x y = true) xs ys ->
  forallb (fun xy => f xy.1 xy.2) (zip xs ys) = true.
Proof. induction 1 as [|x y xs ys H _ IH]; simpl; [done|]. by rewrite H. Qed.

Lemma copy_all_equal (d : nat) (h : heap) :
  (forall v ext h1 v1 ext',
     finite d h v -> deepcopy d v (h ++ ext) = Some (h1, v1) ->
     deep_eq d (h1 ++ ext') v v1 = true) ->
  forall vs ext h1 vs' ext',
    Forall (finite d h) vs ->
    copy_all (deepcopy d) vs (h ++ ext) = Some (h1, vs') ->
    Forall2 (fun x y => deep_eq d (h1 ++ ext') x y = true) vs vs'.
Proof.
  intros Hd. induction vs as [|v vs IH]; intros ext h1 vs' ext' Hvs H;
    simpl in H.
  - injection H as <- <-. constructor.
  - apply Forall_cons in Hvs as [Hv Hvs].
    destruct (deepcopy d v (h ++ ext)) as [[h2 v']|] eqn:H1; [|discriminate].
    destruct (copy_all (deepcopy d) vs h2) as [[h3 vs'']|] eqn:H2;
      [|discriminate].
    injection H as <- <-.
    destruct (deepcopy_copied _ _ _ _ _ H1) as (new1 & -> & _).
    destruct (copy_all_copied _ (deepcopy_copied d) _ _ _ _ H2)
      as (new2 & -> & _ & _).
    constructor.
    + rewrite <- app_assoc. by apply (Hd v ext).
    + rewrite <- (app_assoc h ext new1) in H2 |- *.
      by apply (IH (ext ++ new1)).
Qed.

(** The copy compares equal to what was copied, in the store as it is after
    the copy and however the store grows later. *)
Lemma deepcopy_equal (d : nat) (v : val) (h ext h1 : heap) (v1 : val)
  (ext' : heap) :
  finite d h v -> deepcopy d v (h ++ ext) = Some (h1, v1) ->
  deep_eq d (h1 ++ ext') v v1 = true.
Proof.
  revert v ext h1 v1 ext'.
  induction d as [|d IH]; intros v ext h1 v1 ext' Hv H.
  - destruct v; simpl in H; try done; injection H as <- <-;
      by apply deep_eq_scalar_refl.
  - destruct v as [| | | |l];
      try (simpl in H; injection H as <- <-; by apply deep_eq_scalar_refl).
    cbn [finite] in Hv. cbn [deepcopy] in H.
    destruct (h !! l) as [[kvs|vs]|] eqn:Hl; [| |done];
      rewrite (lookup_app_l_Some h ext l _ Hl) in H.
    + destruct Hv as [Hnd Hv].
      destruct (copy_all (deepcopy d) (map snd kvs) (h ++ ext))
        as [[h2 vs']|] eqn:Hc; [|discriminate].
      injection H as <- <-.
      pose proof (copy_all_equal d h IH _ _ _ _
                    ([ODict (zip (map fst kvs) vs')] ++ ext') Hv Hc) as Hall.
      destruct (copy_all_copied _ (deepcopy_copied d) _ _ _ _ Hc)
        as (new & -> & Hlen & _).
      rewrite length_map in Hlen.
      cbn [deep_eq].
      rewrite (lookup_app_l_Some _ ext' l _
                 (lookup_app_l_Some _ [ODict (zip (map fst kvs) vs')] l _
                    (lookup_app_l_Some _ new l _
                       (lookup_app_l_Some h ext l _ Hl)))).
      rewrite (lookup_app_l _ ext') by (rewrite !length_app; simpl; lia).
      rewrite list_lookup_middle by done.
      rewrite length_zip, length_map, Hlen, Nat.min_id, Nat.eqb_refl.
      simpl. apply forallb_forall. intros [k x] Hin.
      apply list_elem_of_In, list_elem_of_lookup in Hin as [i Hi].
      assert (Hk : map fst kvs !! i = Some k)
        by (by rewrite list_lookup_fmap, Hi).
      assert (Hx : map snd kvs !! i = Some x)
        by (by rewrite list_lookup_fmap, Hi).
      destruct (Forall2_lookup_l _ _ _ _ _ Hall Hx) as (y & Hy & Heq).
      cbn [fst snd].
      destruct (dict_zip_lookup _ _ _ _ _ Hnd Hk Hy) as [-> ->].
      simpl. rewrite <- app_assoc. exact Heq.
    + destruct (copy_all (deepcopy d) vs (h ++ ext))
        as [[h2 vs']|] eqn:Hc; [|discriminate].
      injection H as <- <-.
      pose proof (copy_all_equal d h IH _ _ _ _
                    ([OList vs'] ++ ext') Hv Hc) as Hall.
      destruct (copy_all_copied _ (deepcopy_copied d) _ _ _ _ Hc)
        as (new & -> & Hlen & _).
      cbn [deep_eq].
      rewrite (lookup_app_l_Some _ ext' l _
                 (lookup_app_l_Some _ [OList vs'] l _
                    (lookup_app_l_Some _ new l _
                       (lookup_app_l_Some h ext l _ Hl)))).
      rewrite (lookup_app_l _ ext') by (rewrite !length_app; simpl; lia).
      rewrite list_lookup_middle by done.
      rewrite Hlen, Nat.eqb_refl. simpl. rewrite <- app_assoc.
      by apply Forall2_forallb_zip.
Qed.


(** C9: on every workflow built of dicts, lists and scalars, and for every
    list of updates, whatever their keys and values, [update_workflow]
    returns, and every object that existed before the call, the input
    workflow included, is then exactly as it was. The workflow returned is
    a deep copy into which the updates were written: a new object, equal
    to the input before the updates, made of new objects only. *)
Theorem C9_update_workflow_leaves_input_unchanged
  (py_repr : heap -> loc -> string) (fuel : nat) (h : heap) (workflow : val)
  (updates : list (string * val)) :
  finite fuel h workflow ->
  exists h1 h' updated_workflow,
    update_workflow py_repr fuel h workflow updates
      = Some (h', updated_workflow) /\
    take (length h) h' = h /\
    deepcopy fuel workflow h = Some (h1, updated_workflow) /\
    h' = apply_updates py_repr h1 updated_workflow updates /\
    take (length h) h1 = h /\
    deep_eq fuel h1 workflow updated_workflow = true /\
    (forall l, updated_workflow = VRef l -> (length h <= l)%nat) /\
    (forall x o r, (length h <= x)%nat -> h1 !! x = Some o ->
                   r ∈ refs_of o -> (length h <= r)%nat).
Proof.
  intros Hfin.
  destruct (deepcopy_total fuel workflow h [] Hfin) as [[h1 uw] Hcopy].
  pose proof (deepcopy_equal fuel workflow h [] h1 uw [] Hfin Hcopy) as Heq.
  rewrite app_nil_r in Hcopy, Heq.
  destruct (deepcopy_copied _ _ _ _ _ Hcopy) as (new & -> & Hcopied).
  exists (h ++ new), (apply_updates py_repr (h ++ new) uw updates), uw.
  unfold update_workflow. rewrite Hcopy.
  split; [done|]. split; [by apply apply_updates_frame|].
  split; [done|]. split; [done|].
  split; [by rewrite take_app_length|]. split; [done|]. split.
  - intros l ->. pose proof (copied_roots _ _ _ Hcopied l) as H.
    destruct H; [apply list_elem_of_here | done].
  - intros x o r Hx Ho Hr.
    pose proof (fresh_refs h new uw Hcopied x o r Hx Ho Hr). lia.
Qed.

(** A workflow used in the examples: a text node and a sampler whose first
    widget value is the seed 42. *)
Definition demo_heap : heap :=
  [OList [VStr "a photo"];
   ODict [(KStr "id", VInt 6); (KStr "type", VStr "CLIPTextEncode");
          (KStr "widgets_values", VRef 0)];
   OList [VInt 42; VInt 20];
   ODict [(KStr "id", VInt 3); (KStr "type", VStr "KSampler");
          (KStr "widgets_values", VRef 2)];
   OList [VRef 1; VRef 3];
   ODict [(KStr "nodes", VRef 4)]].

Definition demo_repr (h : heap) (l : loc) : string := "<object>".

Ltac finite_tac :=
  simpl;
  repeat first
    [ exact I | split | apply NoDup_nil_2 | apply NoDup_cons_2
    | apply Forall_nil_2 | apply Forall_cons_2 | apply not_elem_of_nil
    | apply not_elem_of_cons; split; [discriminate|] ].

Lemma C9_update_workflow_leaves_input_unchanged_witness :
  let updates := [("6.text", VStr "a cat"); ("9.text", VStr "no such node");
                  ("3.steps", VInt 30); ("malformed", VInt 1);
                  ("6.a.b", VRef 0)] in
  finite 4 demo_heap (VRef 5) /\
  exists h' updated_workflow,
    update_workflow demo_repr 4 demo_heap (VRef 5) updates
      = Some (h', updated_workflow) /\
    take (length demo_heap) h' = demo_heap.
Proof.
  intros updates.
  assert (H : finite 4 demo_heap (VRef 5)) by finite_tac.
  split; [exact H|].
  destruct (C9_update_workflow_leaves_input_unchanged demo_repr 4 demo_heap
              (VRef 5) updates H) as (h1 & h' & uw & Hr & Hframe & _).
  by exists h', uw.
Defined.

(** The same call, evaluated: the text of node 6 is patched in the copy
    (objects 6 to 11), the five objects of the input are as before. *)
Example update_workflow_patches_the_copy :
  update_workflow demo_repr 4 demo_heap (VRef 5)
    [("6.text", VStr "a cat"); ("9.text", VStr "no such node");
     ("3.steps", VInt 30); ("malformed", VInt 1); ("6.a.b", VRef 0)]
  = Some (demo_heap ++
          [OList [VStr "a cat"];
           ODict [(KStr "id", VInt 6); (KStr "type", VStr "CLIPTextEncode");
                  (KStr "widgets_values", VRef 6)];
           OList [VInt 42; VInt 20];
           ODict [(KStr "id", VInt 3); (KStr "type", VStr "KSampler");
                  (KStr "widgets_values", VRef 8)];
           OList [VRef 7; VRef 9];
           ODict [(KStr "nodes", VRef 10)]],
          VRef 11).
Proof. vm_compute. reflexivity. Qed.

(** *** The seed *)

(** C8, as stated, fails: two calls of [update_workflow] on the same
    template with the same updates return equal workflows, and the seed in
    both is still the 42 of the template. *)
Lemma C8_patch_alone_repeats_the_seed :
  let updates := [("6.text", VStr "a cat")] in
  exists h1 first h2 second,
    update_workflow demo_repr 4 demo_heap (VRef 5) updates
      = Some (h1, first) /\
    update_workflow demo_repr 4 h1 (VRef 5) updates = Some (h2, second) /\
    first <> second /\
    deep_eq 4 h2 first second = true /\
    h2 !! 8%nat = Some (OList [VInt 42; VInt 20]) /\
    h2 !! 14%nat = Some (OList [VInt 42; VInt 20]).
Proof.
  eexists _, _, _, _. split; [vm_compute; reflexivity|].
  split; [vm_compute; reflexivity|]. split; [discriminate|].
  split; vm_compute; done.
Qed.

Lemma dict_get_has (k : key) (d : list (key * val)) :
  dict_get k d <> VNone -> dict_has k d = true.
Proof.
  induction d as [|[k' v] d IH]; simpl; [done|].
  destruct (key_eqb k k'); [done|]. exact IH.
Qed.

(** C8, amended: [update_workflow] leaves the seed alone; it is
    [generate_scene] that, after patching, stores the next value of
    [random.randint(0, 9999999999)] as the first widget value of a
    KSampler node whose widget list is not empty. Two runs then differ in
    that node exactly when their draws differ. *)
Theorem C8_seed_is_drawn_after_patching (randint : nat -> Z) (h : heap)
  (l t : loc) (node : list (key * val)) (seed : val) (rest : list val)
  (drawn : nat) :
  h !! l = Some (ODict node) ->
  dict_get (KStr "type") node = VStr "KSampler" ->
  dict_get (KStr "widgets_values") node = VRef t ->
  h !! t = Some (OList (seed :: rest)) ->
  seed_node randint h (VRef l) drawn
    = Some (<[t := OList (VInt (randint drawn) :: rest)]> h, S drawn) /\
  forall randint',
    seed_node randint' h (VRef l) drawn = seed_node randint h (VRef l) drawn
    <-> randint' drawn = randint drawn.
Proof.
  intros Hl Hty Hw Ht.
  assert (Hstep : forall r,
    seed_node r h (VRef l) drawn
      = Some (<[t := OList (VInt (r drawn) :: rest)]> h, S drawn)).
  { intros r. unfold seed_node. rewrite Hl.
    rewrite (dict_get_has (KStr "type") node) by (by rewrite Hty).
    rewrite (dict_get_has (KStr "widgets_values") node) by (by rewrite Hw).
    rewrite Hty, Hw. unfold py_len, set_item_int. rewrite Ht. done. }
  split; [apply Hstep|]. intros r. rewrite !Hstep. split.
  - intros H. injection H as H.
    assert (Hlt : (t < length h)%nat) by (by eapply lookup_lt_Some).
    apply (f_equal (fun x => x !! t)) in H.
    rewrite !list_lookup_insert_eq in H by done. by injection H.
  - by intros ->.
Qed.

Lemma C8_seed_is_drawn_after_patching_witness :
  demo_heap !! 3%nat
    = Some (ODict [(KStr "id", VInt 3); (KStr "type", VStr "KSampler");
                   (KStr "widgets_values", VRef 2)]) /\
  demo_heap !! 2%nat = Some (OList [VInt 42; VInt 20]) /\
  seed_node (fun i => 7000 + Z.of_nat i) demo_heap (VRef 3) 0
    = Some (<[2%nat := OList [VInt 7000; VInt 20]]> demo_heap, 1%nat).
Proof.
  split; [reflexivity|]. split; [reflexivity|].
  apply (C8_seed_is_drawn_after_patching (fun i => 7000 + Z.of_nat i)
           demo_heap 3%nat 2%nat
           [(KStr "id", VInt 3); (KStr "type", VStr "KSampler");
            (KStr "widgets_values", VRef 2)]
           (VInt 42) [VInt 20] 0%nat);
    reflexivity.
Defined.

(** The two steps together, as [generate_scene] runs them: the same draws
    give equal workflows, different draws different ones. *)
Example patch_and_seed_follows_the_draws :
  let updates := [("6.text", VStr "a cat")] in
  let run randint h :=
    patch_and_seed randint demo_repr 4 h (VRef 5) updates 0 in
  match run (fun _ => 11) demo_heap with
  | Some (h1, first, _) =>
      match run (fun _ => 11) h1, run (fun _ => 12) h1 with
      | Some (h2, same, _), Some (h3, other, _) =>
          deep_eq 4 h2 first same = true /\
          deep_eq 4 h3 first other = false
      | _, _ => False
      end
  | None => False
  end.
Proof. vm_compute. done. Qed.

End PatcherFacts.

(** ** The progress tracker: invariants over any sequence of calls *)
Module TrackerInvariants.
Import Tracker Orchestrator TrackerFacts OrchestratorFacts.

(** The tracker calls [ops], made in turn for the job [id]. *)
Definition calls (id : string) (ops : list op) (st : store) : store :=
  fold_left (fun st o => apply_op id o st) ops st.


Lemma with_job_other (st : store) (id other : string) (f : job -> job) :
  id <> other -> with_job id f st !! other = st !! other.
Proof.
  intros H. unfold with_job. destruct (st !! id); [|done].
  by apply lookup_insert_ne.
Qed.

Lemma apply_op_other (st : store) (id other : string) (o : op) :
  id <> other -> apply_op id o st !! other = st !! other.
Proof.
  intros H. destruct o; simpl; try by apply with_job_other.
  by apply lookup_insert_ne.
Qed.

(** X1. Whatever is called for one job, in whatever order, the entry of
    every other job stays as it was. *)
Theorem jobs_are_isolated (id other : string) (ops : list op) (st : store) :
  id <> other -> calls id ops st !! other = st !! other.
Proof.
  intros H. revert st. induction ops as [|o ops IH]; intros st; [done|].
  unfold calls in *. simpl. rewrite IH. by apply apply_op_other.
Qed.

Lemma jobs_are_isolated_witness :
  "a" <> "b" /\
  calls "a" [OpCreate 3 "t"; OpScene 0; OpFail "x"]
        (create_job "b" 1 "u" ∅) !! "b" =
  create_job "b" 1 "u" ∅ !! "b".
Proof.
  split; [discriminate|].
  apply (jobs_are_isolated "a" "b"). discriminate.
Defined.











End TrackerInvariants.

(** ** The progress files *)
Module TrackerFilesFacts.
Import Tracker Orchestrator TrackerFiles TrackerFacts OrchestratorFacts.

Lemma length_string_app (a b : string) :
  String.length (a ++ b) = (String.length a + String.length b)%nat.
Proof.
  induction a as [|x a IH]; [done|].
  change (S (String.length (a ++ b)) = S (String.length a + String.length b)).
  by rewrite IH.
Qed.

Lemma string_app_same_length (a b c d : string) :
  String.length a = String.length b -> (a ++ c = b ++ d)%string -> a = b.
Proof.
  revert b. induction a as [|x a IH]; intros [|y b]; simpl; try done.
  cbn [String.append]. intros [= Hl] [= -> H]. f_equal. by apply IH.
Qed.

Lemma progress_file_inj (a b : string) :
  progress_file a = progress_file b -> a = b.
Proof.
  unfold progress_file. intros H.
  apply (string_app_same_length a b ".json" ".json"); [|done].
  apply (f_equal String.length) in H. rewrite !length_string_app in H. lia.
Qed.

Lemma substring_all (s : string) : substring 0 (String.length s) s = s.
Proof. induction s; simpl; congruence. Qed.

Lemma substring_app_r (a b : string) :
  substring (String.length a) (String.length b) (a ++ b) = b.
Proof.
  induction a as [|x a IH]; [apply substring_all | exact IH].
Qed.

Lemma substring_app_l (a b : string) :
  substring 0 (String.length a) (a ++ b) = a.
Proof.
  induction a as [|x a IH]; [by destruct b|].
  change (String x (substring 0 (String.length a) (a ++ b)) = String x a).
  by rewrite IH.
Qed.

Lemma endswith_progress_file (id : string) :
  endswith (progress_file id) ".json" = true.
Proof.
  unfold endswith, progress_file. rewrite length_string_app.
  apply andb_true_intro. split; [apply Nat.leb_le; lia|].
  replace (String.length id + String.length ".json" - String.length ".json")%nat
    with (String.length id) by lia.
  rewrite substring_app_r. apply String.eqb_refl.
Qed.

Lemma drop_last_progress_file (id : string) :
  drop_last 5 (progress_file id) = id.
Proof.
  unfold drop_last, progress_file. rewrite length_string_app.
  replace (String.length id + String.length ".json" - 5)%nat
    with (String.length id) by (simpl; lia).
  apply substring_app_l.
Qed.

Lemma substring_split (n : nat) (s : string) :
  (n <= String.length s)%nat ->
  s = (substring 0 n s ++ substring n (String.length s - n) s)%string.
Proof.
  revert s. induction n as [|n IH]; intros s H.
  - rewrite Nat.sub_0_r, substring_all. by destruct s.
  - destruct s as [|x s]; simpl in H; [lia|].
    change (String x s = String x (substring 0 n s ++
              substring n (String.length s - n) s)).
    f_equal. apply IH. lia.
Qed.

Lemma endswith_json (f : string) :
  endswith f ".json" = true -> f = progress_file (drop_last 5 f).
Proof.
  unfold endswith, progress_file, drop_last. simpl String.length.
  intros H. apply andb_prop in H as [H1 H2].
  apply Nat.leb_le in H1. apply String.eqb_eq in H2.
  rewrite (substring_split (String.length f - 5) f) at 1 by lia.
  f_equal. etrans; [|exact H2]. f_equal. lia.
Qed.

Section Mirror.

Context (writable : string -> bool).
Hypothesis Hwritable : forall f, writable f = true.

(** Every entry in memory is the content of the file of its job. *)
Definition mirrored (t : tracker) : Prop :=
  forall id j, progress_data t !! id = Some j ->
               directory t !! progress_file id = Some (Entry j).

Lemma mirrored_start (dir : gmap string content) : mirrored (start dir).
Proof. intros id j. unfold start. simpl. by rewrite lookup_empty. Qed.

Lemma mirrored_call (id : string) (o : op) (t : tracker) :
  mirrored t -> mirrored (call writable id o t).
Proof.
  intros M id' j'. unfold call, _save_progress. simpl.
  destruct (apply_op id o (progress_data t) !! id) as [j|] eqn:E.
  - rewrite Hwritable. simpl.
    destruct (decide (id = id')) as [<-|Hne].
    + rewrite E. intros [= <-]. apply lookup_insert_eq.
    + rewrite TrackerInvariants.apply_op_other by done. intros H.
      rewrite lookup_insert_ne; [by apply M|].
      intros Heq. by apply progress_file_inj in Heq.
  - simpl. destruct (decide (id = id')) as [<-|Hne].
    + by rewrite E.
    + rewrite TrackerInvariants.apply_op_other by done. apply M.
Qed.

Lemma mirrored_get_job (id : string) (t : tracker) :
  mirrored t -> mirrored (get_job id t).1.
Proof.
  intros M. unfold get_job.
  destruct (progress_data t !! id) eqn:E; [done|].
  destruct (directory t !! progress_file id) as [[j|]|] eqn:F; try done.
  intros id' j'. simpl.
  destruct (decide (id = id')) as [<-|Hne].
  - rewrite lookup_insert_eq. by intros [= <-].
  - rewrite lookup_insert_ne by done. apply M.
Qed.

(** What [_load_all_progress_files] leaves in memory for each job: the
    entry it had or, failing that, the one of its file. *)
Lemma load_all_lookup (t : tracker) (id : string) :
  progress_data (_load_all_progress_files t) !! id =
  match progress_data t !! id with
  | Some j => Some j
  | None =>
      match directory t !! progress_file id with
      | Some (Entry j) => Some j
      | _ => None
      end
  end.
Proof.
  unfold _load_all_progress_files. simpl.
  generalize (directory t). intros dir.
  induction dir as [|f c dir Hf Hfold IH] using map_first_key_ind.
  - rewrite map_fold_empty, lookup_empty. by destruct (_ !! id).
  - rewrite map_fold_insert_first_key by done.
    unfold load_file at 1.
    destruct (endswith f ".json") eqn:Ef.
    + pose proof (endswith_json f Ef) as Hfile.
      set (st := map_fold load_file (progress_data t) dir) in *.
      destruct (decide (drop_last 5 f = id)) as [<-|Hne].
      * rewrite <- Hfile, lookup_insert_eq.
        rewrite <- Hfile, Hf in IH.
        destruct (st !! drop_last 5 f) as [j0|] eqn:Est.
        -- rewrite Est, IH. by destruct (progress_data t !! _).
        -- destruct (progress_data t !! drop_last 5 f); [done|].
           destruct c; [by rewrite lookup_insert_eq | done].
      * assert (Hf' : f <> progress_file id).
        { intros ->. by rewrite drop_last_progress_file in Hne. }
        rewrite (lookup_insert_ne _ f) by done.
        destruct (st !! drop_last 5 f); [done|].
        destruct c; [by rewrite lookup_insert_ne | done].
    + assert (Hf' : f <> progress_file id).
      { intros ->. by rewrite endswith_progress_file in Ef. }
      by rewrite (lookup_insert_ne _ f).
Qed.

Lemma mirrored_load_all (t : tracker) :
  mirrored t -> mirrored (_load_all_progress_files t).
Proof.
  intros M id j. rewrite load_all_lookup.
  change (directory (_load_all_progress_files t)) with (directory t).
  destruct (progress_data t !! id) eqn:E.
  - intros [= <-]. by apply M.
  - destruct (directory t !! progress_file id) as [[j'|]|]; try done.
    by intros [= <-].
Qed.

Lemma mirrored_run (actions : list action) (t : tracker) :
  mirrored t -> mirrored (run_actions writable actions t).
Proof.
  revert t. induction actions as [|a actions IH]; intros t M; [done|].
  unfold run_actions in *. simpl. apply IH.
  destruct a; simpl.
  - by apply mirrored_call.
  - by apply mirrored_get_job.
  - by apply mirrored_get_job.
  - by apply mirrored_load_all.
Qed.

End Mirror.

(** X4. As long as the progress files can be written, whatever the clients
    of a tracker do, every job it holds in memory is on disk as it is in
    memory: a tracker started afresh on the directory answers
    [get_progress] with the very entry the first one held. *)
Theorem restart_reads_what_was_written (writable : string -> bool)
  (dir : gmap string content) (actions : list action) (id : string)
  (j : job) :
  (forall f, writable f = true) ->
  let t := run_actions writable actions (start dir) in
  progress_data t !! id = Some j ->
  (get_progress id (start (directory t))).2 = Some j.
Proof.
  intros Hw t H.
  pose proof (mirrored_run writable Hw actions (start dir)
                (mirrored_start dir) id j H) as M.
  fold t in M. unfold get_progress, get_job, start. simpl.
  rewrite lookup_empty, M. done.
Qed.

Lemma restart_reads_what_was_written_witness :
  (forall f, (fun _ : string => true) f = true) /\
  (get_progress "a"
     (start (directory
        (run_actions (fun _ => true)
           [Call "a" (OpCreate 2 "t"); GetAllJobs;
            Call "a" (OpStage "download" "d")] (start ∅))))).2 =
  Some (job_update_stage "download" "d" (new_job 2 "t")).
Proof.
  split; [done|].
  apply (restart_reads_what_was_written (fun _ => true) ∅
           [Call "a" (OpCreate 2 "t"); GetAllJobs;
            Call "a" (OpStage "download" "d")] "a"); [done|].
  vm_compute. reflexivity.
Defined.

(** X5. [get_all_jobs] lists, for each job id, exactly what [get_progress]
    answers for it: the entry in memory, which a file never replaces, or
    else the readable file of the job. *)
Theorem get_all_jobs_agrees_with_get_progress (t : tracker) (id : string) :
  (get_all_jobs t).2 !! id = (get_progress id t).2.
Proof.
  unfold get_all_jobs. cbn [snd]. rewrite load_all_lookup.
  unfold get_progress, get_job.
  destruct (progress_data t !! id); [done|].
  by destruct (directory t !! progress_file id) as [[?|]|].
Qed.

End TrackerFilesFacts.

(** ** The runs of the generator *)
Module OrchestratorRuns.
Import Tracker Orchestrator TrackerFacts OrchestratorFacts.

Definition is_complete (o : op) : bool :=
  match o with OpComplete _ => true | _ => false end.

Lemma last_history (ops : list op) (j : job) :
  last (j :: history ops j) = Some (run ops j).
Proof.
  revert j. induction ops as [|o ops IH]; intros j; [done|].
  cbn [history]. rewrite last_cons_cons. apply IH.
Qed.

(** The last snapshot of a run is the job after all its calls. *)
Lemma last_snapshot (py_int : string -> option Z) (id url : string)
  (scene_count : option Z) (e : env) (crash : option (nat * string))
  (st : store) :
  exists title ops,
    generate_from_url py_int url scene_count e crash
      = OpCreate 0 title :: ops /\
    last (snapshots id (generate_from_url py_int url scene_count e crash) st)
      = Some (Some (run ops (new_job 0 title))).
Proof.
  unfold generate_from_url. eexists _, _. split; [reflexivity|].
  rewrite snapshots_create, fmap_last, last_history. reflexivity.
Qed.

Lemma run_snoc (ops : list op) (o : op) (j : job) :
  run (ops ++ [o]) j = job_op o (run ops j).
Proof. unfold run. by rewrite fold_left_app. Qed.

Lemma run_last (ops : list op) (o : op) (j : job) :
  last ops = Some o -> exists j', run ops j = job_op o j'.
Proof.
  intros H. apply last_Some in H as [pre ->]. rewrite run_snoc. eauto.
Qed.

Lemma last_clip_ops_tail (e : env) (n : nat) (o : op) (tail : list op) :
  last (clip_ops e n ++ o :: tail) = last (o :: tail).
Proof. apply last_app_cons. Qed.

(** Every step of the generator succeeded: the download, the plan, the
    render of at least two scenes, at least one clip, the combination of
    the clips and the audio track. *)
Definition all_succeeded (py_int : string -> option Z)
  (scene_count : option Z) (e : env) : Prop :=
  exists file d scenes results,
    download_from_url e = DownloadOk file d /\
    plan_scenes (lyrics_lines e)
      (resolve_scene_count py_int scene_count d (lyrics_lines e))
      = Some scenes /\
    batch_generate_scenes (generate_scene e) scenes = Some results /\
    (2 <= length (List.filter success results))%nat /\
    scene_videos e
      (length (processed e (List.filter success results))) <> [] /\
    combine_videos e
      (scene_videos e (length (processed e (List.filter success results))))
      = None /\
    add_audio e = None.

Lemma video_creation_last (e : env) (ok : list scene_result) :
  (scene_videos e (length (processed e ok)) <> [] /\
   combine_videos e (scene_videos e (length (processed e ok))) = None /\
   add_audio e = None /\
   last (video_creation e ok) = Some (OpComplete (output_path e))) \/
  (~ (scene_videos e (length (processed e ok)) <> [] /\
      combine_videos e (scene_videos e (length (processed e ok))) = None /\
      add_audio e = None) /\
   exists m, last (video_creation e ok) = Some (OpFail m)).
Proof.
  unfold video_creation.
  destruct (scene_videos e (length (processed e ok))) as [|v vs] eqn:Hv.
  { right. split; [tauto|]. rewrite last_snoc. eauto. }
  destruct (combine_videos e (v :: vs)) as [err|] eqn:Hc.
  { right. split; [intros (_ & ? & _); done|]. rewrite last_snoc. eauto. }
  destruct (add_audio e) as [err|] eqn:Ha.
  { right. split; [intros (_ & _ & ?); done|].
    rewrite last_app_cons. simpl. eauto. }
  left. repeat split; try done. by rewrite last_app_cons.
Qed.

Lemma worker_last (py_int : string -> option Z) (scene_count : option Z)
  (e : env) :
  (all_succeeded py_int scene_count e /\
   last (_generate_from_url_worker py_int scene_count e)
     = Some (OpComplete (output_path e))) \/
  (~ all_succeeded py_int scene_count e /\
   exists m, last (_generate_from_url_worker py_int scene_count e)
             = Some (OpFail m)).
Proof.
  unfold _generate_from_url_worker, all_succeeded.
  destruct (download_from_url e) as [err|file d] eqn:Hd.
  { right. split; [intros (? & ? & ? & ? & ? & _); done|]. simpl. eauto. }
  destruct (plan_scenes _ _) as [scenes|] eqn:Hp.
  2:{ right. split; [intros (? & ? & ? & ? & [= <- <-] & ? & _); congruence|].
      simpl. eauto. }
  unfold scene_generation.
  destruct (batch_generate_scenes _ scenes) as [results|] eqn:Hb.
  2:{ right. split.
      - intros (? & ? & ? & ? & [= <- <-] & ? & ? & _). congruence.
      - simpl. eauto. }
  destruct (length (List.filter success results) <? 2)%nat eqn:Hn.
  { right. apply Nat.ltb_lt in Hn. split.
    - intros (? & ? & ? & ? & [= <- <-] & ? & ? & ? & _).
      assert (x1 = scenes) as -> by congruence.
      assert (x2 = results) as -> by congruence. lia.
    - simpl. eauto. }
  apply Nat.ltb_ge in Hn.
  rewrite !last_cons_cons, last_cons.
  destruct (video_creation_last e (List.filter success results))
    as [(H1 & H2 & H3 & ->)|(Hnot & m & ->)].
  - left. split; [|done]. by exists file, d, scenes, results.
  - right. split; [|eauto].
    intros (? & ? & ? & ? & [= <- <-] & ? & ? & ? & ? & ? & ?).
    assert (x1 = scenes) as -> by congruence.
    assert (x2 = results) as -> by congruence. tauto.
Qed.

Lemma worker_nonempty (py_int : string -> option Z) (scene_count : option Z)
  (e : env) : exists o ops,
    _generate_from_url_worker py_int scene_count e = o :: ops.
Proof. unfold _generate_from_url_worker. eauto. Qed.

(** X6. Whatever fails and wherever the worker is interrupted, a job does
    not stay running: the last snapshot of every run reads ['completed'] or
    ['failed']. *)
Theorem every_job_ends (py_int : string -> option Z) (id url : string)
  (scene_count : option Z) (e : env) (crash : option (nat * string))
  (st : store) :
  exists j,
    last (snapshots id (generate_from_url py_int url scene_count e crash) st)
      = Some (Some j) /\
    (status j = "completed" \/ status j = "failed").
Proof.
  destruct (last_snapshot py_int id url scene_count e crash st)
    as (title & ops & Hops & ->).
  eexists. split; [reflexivity|].
  unfold generate_from_url in Hops. injection Hops as _ <-.
  set (w := _generate_from_url_worker py_int scene_count e).
  assert (Hw : exists o, last w = Some o /\
                         (is_complete o = true \/ is_fail o = true)).
  { destruct (worker_last py_int scene_count e) as [[_ H]|[_ [m H]]];
      fold w in H; rewrite H; eauto. }
  assert (Hl : exists o, last (OpStage "download" "Downloading audio from URL"
                               :: match crash with
                                  | None => w
                                  | Some (k, message) => interrupt k message w
                                  end) = Some o /\
                         (is_complete o = true \/ is_fail o = true)).
  { destruct Hw as (o & Ho & Hk). rewrite last_cons.
    destruct crash as [[k m]|]; [|rewrite Ho; eauto].
    unfold interrupt. destruct (existsb is_fail (take k w));
      [rewrite Ho; eauto|].
    rewrite last_snoc. eauto. }
  destruct Hl as (o & Ho & Hk).
  destruct (run_last _ o (new_job 0 title) Ho) as [j' ->].
  destruct o; simpl in Hk; destruct Hk as [Hk|Hk]; try discriminate;
    simpl; auto.
Qed.

(** X7. A run that nothing interrupts ends ['completed'] exactly when every
    step succeeded; the video path recorded is then the output path. In
    every other case it ends ['failed']. *)
Theorem completed_exactly_when_every_step_succeeded
  (py_int : string -> option Z) (id url : string) (scene_count : option Z)
  (e : env) (st : store) :
  exists j,
    last (snapshots id (generate_from_url py_int url scene_count e None) st)
      = Some (Some j) /\
    (status j = "completed" <-> all_succeeded py_int scene_count e) /\
    (status j = "completed" -> video_path j = Some (output_path e)) /\
    (status j <> "completed" -> status j = "failed").
Proof.
  destruct (last_snapshot py_int id url scene_count e None st)
    as (title & ops & Hops & ->).
  eexists. split; [reflexivity|].
  unfold generate_from_url in Hops. injection Hops as _ <-.
  destruct (worker_nonempty py_int scene_count e) as (o0 & w & Ew).
  destruct (worker_last py_int scene_count e) as [[Hall H]|[Hnot [m H]]];
    rewrite Ew in *; rewrite <- last_cons_cons
      with (x1 := OpStage "download" "Downloading audio from URL") in H;
    destruct (run_last _ _ (new_job 0 title) H) as [j' ->]; simpl.
  - repeat split; try done.
  - repeat split; try done.
Qed.

Lemma clip_ops_no_fail (e : env) (n : nat) :
  existsb is_fail (clip_ops e n) = false.
Proof.
  unfold clip_ops. induction (seq 0 n) as [|i l IH]; [done|].
  simpl. rewrite existsb_app, IH. by destruct (create_scene_video e i).
Qed.

Lemma worker_no_fail (py_int : string -> option Z) (scene_count : option Z)
  (e : env) :
  all_succeeded py_int scene_count e ->
  existsb is_fail (_generate_from_url_worker py_int scene_count e) = false.
Proof.
  intros (file & d & scenes & results & Hd & Hp & Hb & Hn & Hv & Hc & Ha).
  unfold _generate_from_url_worker. rewrite Hd, Hp.
  unfold scene_generation. rewrite Hb.
  apply Nat.ltb_ge in Hn. rewrite Hn.
  unfold video_creation. rewrite Hc, Ha.
  destruct (scene_videos e _); [done|].
  cbn [existsb is_fail orb]. rewrite existsb_app, clip_ops_no_fail. done.
Qed.

(** X8. ['completed'] is not final: when the worker raises after
    [complete_job] (while it writes the result file, say), the handler
    calls [fail_job] and the job, complete with its video path and a
    progress of 100, reads ['failed']. *)
Theorem failure_after_completion_overrides_it (py_int : string -> option Z)
  (id url : string) (scene_count : option Z) (e : env) (st : store)
  (k : nat) (m : string) :
  all_succeeded py_int scene_count e ->
  (length (_generate_from_url_worker py_int scene_count e) <= k)%nat ->
  exists j,
    last (snapshots id
            (generate_from_url py_int url scene_count e (Some (k, m))) st)
      = Some (Some j) /\
    status j = "failed" /\ error j = Some m /\
    (overall_progress j == 100)%Q /\
    video_path j = Some (output_path e).
Proof.
  intros Hall Hk.
  destruct (last_snapshot py_int id url scene_count e (Some (k, m)) st)
    as (title & ops & Hops & ->).
  eexists. split; [reflexivity|].
  unfold generate_from_url in Hops. injection Hops as _ <-.
  unfold interrupt. rewrite take_ge by done.
  rewrite worker_no_fail by done.
  rewrite app_comm_cons, run_snoc.
  destruct (worker_nonempty py_int scene_count e) as (o0 & w & Ew).
  destruct (worker_last py_int scene_count e) as [[_ H]|[Hnot _]]; [|done].
  rewrite Ew in *.
  rewrite <- last_cons_cons
    with (x1 := OpStage "download" "Downloading audio from URL") in H.
  destruct (run_last _ _ (new_job 0 title) H) as [j' ->].
  simpl. repeat split; reflexivity.
Qed.

Lemma demo_env_all_succeeded : all_succeeded int_decimal (Some 5) demo_env.
Proof.
  exists "song.mp3", DurAbsent,
    (map (fun i => Scene (Z.of_nat i + 1) (Generic (Z.of_nat i + 1)))
         (seq 0 5)),
    [SceneResult 1 (Some "scene.png"); SceneResult 2 (Some "scene.png");
     SceneResult 3 None; SceneResult 4 (Some "scene.png");
     SceneResult 5 (Some "scene.png")].
  repeat split; try reflexivity; [simpl; lia | discriminate].
Defined.

Lemma failure_after_completion_overrides_it_witness :
  exists j,
    last (snapshots "job"
            (generate_from_url int_decimal "url" (Some 5) demo_env
               (Some (20%nat, "Error creating video: disk full"))) ∅)
      = Some (Some j) /\
    status j = "failed" /\
    error j = Some "Error creating video: disk full" /\
    (overall_progress j == 100)%Q /\
    video_path j = Some "out.mp4".
Proof.
  apply (failure_after_completion_overrides_it int_decimal "job" "url"
           (Some 5) demo_env ∅ 20 "Error creating video: disk full").
  - exact demo_env_all_succeeded.
  - vm_compute. lia.
Defined.

(** X9. The one transition update the worker makes passes the number of
    transitions as the index too: with two clips or more the stage
    progress it leaves is above 100 and the overall progress above the 90
    that ends the band of the transitions (100 with exactly two clips). *)
Theorem transition_update_overshoots (e : env) (ok : list scene_result)
  (j : job) :
  let videos := scene_videos e (length (processed e ok)) in
  let n := Z.of_nat (length videos) - 1 in
  (2 <= length videos)%nat -> combine_videos e videos = None ->
  (exists pre post, video_creation e ok = pre ++ OpTransition n n :: post) /\
  let j' := job_op (OpTransition n n) j in
  (100 < stage_progress j')%Q /\ (90 < overall_progress j' <= 100)%Q /\
  (length videos = 2%nat -> (overall_progress j' == 100)%Q).
Proof.
  intros videos n Hlen Hc. split.
  - unfold video_creation. fold videos. rewrite Hc.
    destruct videos as [|v vs] eqn:Hv; [simpl in Hlen; lia|].
    fold n. eauto.
  - assert (Hn : 1 <= n) by (unfold n, videos in *; lia).
    assert (H2n : length videos = 2%nat -> n = 1)
      by (unfold n, videos in *; lia).
    clearbody n.
    cbn [job_op job_update_transition_progress stage_progress
         overall_progress].
    assert (Hp : (100 < percent_done n n)%Q).
    { unfold percent_done. rewrite Z.max_r by lia.
      assert (HT : (0 < inject_Z n)%Q) by (apply inject_Z_pos; lia).
      assert (H1 : (1 < inject_Z (n + 1) / inject_Z n)%Q).
      { apply Qlt_shift_div_l; [done|]. rewrite Qmult_1_l.
        rewrite <- Zlt_Qlt. lia. }
      lra. }
    split; [exact Hp|]. unfold band. split; [split|].
    + assert (15 < (90 - 75) * percent_done n n / 100)%Q.
      { apply Qlt_shift_div_l; [reflexivity | lra]. }
      apply Q.min_glb_lt; lra.
    + apply Q.le_min_l.
    + intros H2. rewrite (H2n H2). vm_compute. reflexivity.
Qed.

Lemma transition_update_overshoots_witness :
  let ok := [SceneResult 1 (Some "scene.png");
             SceneResult 2 (Some "scene.png")] in
  let j' := job_op (OpTransition 1 1) (new_job 2 "t") in
  (100 < stage_progress j')%Q /\ (overall_progress j' == 100)%Q.
Proof.
  intros ok j'.
  destruct (transition_update_overshoots demo_env ok (new_job 2 "t"))
    as (_ & H1 & _ & H2); [simpl; lia | reflexivity |].
  split; [exact H1 | apply H2; reflexivity].
Defined.

(** X10. A failed download ends the job at once: it reads ['failed'] with
    the download error, in the stage [download] at 5 percent, and no later
    stage is ever shown. *)
Theorem download_failure_ends_the_job (py_int : string -> option Z)
  (id url err : string) (scene_count : option Z) (e : env) (st : store) :
  download_from_url e = DownloadError err ->
  exists jobs j,
    snapshots id (generate_from_url py_int url scene_count e None) st
      = Some <$> jobs /\
    last jobs = Some j /\
    status j = "failed" /\ error j = Some ("Download failed: " ++ err)%string /\
    stage_name j = "download" /\ overall_progress j = 5%Q /\
    Forall (fun j => stage_name j = "initializing" \/
                     stage_name j = "download") jobs.
Proof.
  intros Hd. unfold generate_from_url, _generate_from_url_worker.
  rewrite Hd, snapshots_create. eexists _, _. split; [reflexivity|].
  cbn [history job_op]. split; [reflexivity|].
  repeat split; try reflexivity.
  repeat (constructor; [simpl; auto|]). constructor.
Qed.

Lemma download_failure_ends_the_job_witness :
  let e := Env (DownloadError "HTTP 404") [] (fun _ => None) (fun _ => false)
               (fun _ => None) (fun _ => None) None "out.mp4" in
  exists jobs j,
    snapshots "job" (generate_from_url int_decimal "url" None e None) ∅
      = Some <$> jobs /\
    last jobs = Some j /\
    status j = "failed" /\ error j = Some "Download failed: HTTP 404" /\
    stage_name j = "download" /\ overall_progress j = 5%Q /\
    Forall (fun j => stage_name j = "initializing" \/
                     stage_name j = "download") jobs.
Proof.
  intros e.
  exact (download_failure_ends_the_job int_decimal "job" "url" "HTTP 404"
           None e ∅ eq_refl).
Defined.

(** X11. A requested scene count of 0 is not refused: when the song has
    lyrics the division by the count raises while the scenes are planned
    and the job ends ['failed'] in the stage [scene_planning]. *)
Theorem zero_scene_count_fails_at_planning (py_int : string -> option Z)
  (id url file : string) (d : duration_field) (e : env) (st : store) :
  download_from_url e = DownloadOk file d ->
  lyrics_lines e <> [] ->
  exists j,
    last (snapshots id (generate_from_url py_int url (Some 0) e None) st)
      = Some (Some j) /\
    status j = "failed" /\
    error j =
      Some (process_error "integer division or modulo by zero") /\
    stage_name j = "scene_planning" /\ total_scenes j = 0.
Proof.
  intros Hd Hl.
  destruct (last_snapshot py_int id url (Some 0) e None st)
    as (title & ops & Hops & ->).
  eexists. split; [reflexivity|].
  unfold generate_from_url, _generate_from_url_worker in Hops.
  rewrite Hd in Hops. injection Hops as _ <-.
  unfold plan_scenes, resolve_scene_count.
  destruct (lyrics_lines e) as [|l ls]; [done|].
  repeat split; reflexivity.
Qed.

Lemma zero_scene_count_fails_at_planning_witness :
  let e := Env (DownloadOk "song.mp3" DurAbsent) ["la"; "la"]
               (fun _ => Some "scene.png") (fun _ => true)
               (fun _ => Some "clip.mp4") (fun _ => None) None "out.mp4" in
  exists j,
    last (snapshots "job" (generate_from_url int_decimal "url" (Some 0) e
                             None) ∅)
      = Some (Some j) /\
    status j = "failed" /\
    error j =
      Some (process_error "integer division or modulo by zero") /\
    stage_name j = "scene_planning" /\ total_scenes j = 0.
Proof.
  intros e.
  exact (zero_scene_count_fails_at_planning int_decimal "job" "url"
           "song.mp3" DurAbsent e ∅ eq_refl ltac:(discriminate)).
Defined.


(** *** Counting the scenes *)

Fixpoint scene_calls (ops : list op) : nat :=
  match ops with
  | [] => 0
  | OpScene _ :: ops' => S (scene_calls ops')
  | _ :: ops' => scene_calls ops'
  end.

(** Calls that leave [total_scenes] alone. *)
Definition keeps_total (o : op) : bool :=
  match o with
  | OpCreate _ _ => false
  | OpSetTotal _ => false
  | _ => true
  end.

Definition counted (j : job) : Prop :=
  0 <= processed_scenes j <= total_scenes j.

Lemma scene_calls_app (a b : list op) :
  scene_calls (a ++ b) = (scene_calls a + scene_calls b)%nat.
Proof.
  induction a as [|o a IH]; [done|]. destruct o; simpl; lia.
Qed.

Lemma scene_calls_clip_ops (e : env) (n : nat) :
  (scene_calls (clip_ops e n) <= n)%nat /\
  forallb keeps_total (clip_ops e n) = true.
Proof.
  unfold clip_ops.
  assert (H : forall l : list nat,
    (scene_calls (flat_map (fun i => match create_scene_video e i with
                                     | Some _ => [OpScene (Z.of_nat i)]
                                     | None => []
                                     end) l) <= length l)%nat /\
    forallb keeps_total (flat_map (fun i => match create_scene_video e i with
                                     | Some _ => [OpScene (Z.of_nat i)]
                                     | None => []
                                     end) l) = true).
  { induction l as [|i l [IH1 IH2]]; [done|].
    simpl. destruct (create_scene_video e i); simpl; split; (lia || done). }
  destruct (H (seq 0 n)) as [H1 H2]. by rewrite length_seq in H1.
Qed.

Lemma scene_calls_video_creation (e : env) (ok : list scene_result) :
  (scene_calls (video_creation e ok) <= length ok)%nat /\
  forallb keeps_total (video_creation e ok) = true.
Proof.
  unfold video_creation.
  destruct (scene_calls_clip_ops e (length (processed e ok))) as [H1 H2].
  pose proof (processed_length e ok).
  rewrite scene_calls_app, forallb_app, H2.
  destruct (scene_videos e _); [simpl; split; [lia|done]|].
  destruct (combine_videos e _); [simpl; split; [lia|done]|].
  destruct (add_audio e); simpl; split; (lia || done).
Qed.

Lemma scene_calls_scene_generation (e : env) (scenes : list scene) :
  (scene_calls (scene_generation e scenes) <= length scenes)%nat /\
  forallb keeps_total (scene_generation e scenes) = true.
Proof.
  unfold scene_generation.
  destruct (batch_generate_scenes _ scenes) as [results|] eqn:Hb;
    [|simpl; split; [lia|done]].
  apply batch_generate_scenes_length in Hb.
  destruct (_ <? 2)%nat; [simpl; split; [lia|done]|].
  destruct (scene_calls_video_creation e (List.filter success results))
    as [H1 H2].
  pose proof (List.filter_length_le success results).
  simpl. split; [lia | done].
Qed.

(** While the total stays, the scenes processed grow by one per scene
    update and by nothing else. *)
Lemma history_counted (ops : list op) (j : job) :
  forallb keeps_total ops = true ->
  0 <= processed_scenes j ->
  processed_scenes j + Z.of_nat (scene_calls ops) <= total_scenes j ->
  Forall counted (history ops j).
Proof.
  revert j. induction ops as [|o ops IH]; intros j Hk H0 Hle; [constructor|].
  cbn [history]. simpl in Hk. apply andb_prop in Hk as [Ho Hk].
  assert (Hj : 0 <= processed_scenes (job_op o j) /\
               processed_scenes (job_op o j) + Z.of_nat (scene_calls ops)
                 <= total_scenes (job_op o j)).
  { destruct o; simpl in *; try discriminate; lia. }
  destruct Hj as [Hj0 Hj1].
  constructor; [unfold counted; lia | by apply IH].
Qed.

Lemma history_app (a b : list op) (j : job) :
  history (a ++ b) j = history a j ++ history b (run a j).
Proof.
  revert j. induction a as [|o a IH]; intros j; [done|].
  cbn [app history]. by rewrite IH.
Qed.

Lemma history_take (ops : list op) (k : nat) (j : job) :
  history (take k ops) j = take k (history ops j).
Proof.
  revert k j. induction ops as [|o ops IH]; intros [|k] j; try done.
  cbn [take history]. by rewrite IH.
Qed.

Lemma run_take_in (ops : list op) (k : nat) (j : job) :
  run (take k ops) j ∈ j :: history ops j.
Proof.
  revert k j. induction ops as [|o ops IH]; intros [|k] j;
    try apply list_elem_of_here.
  cbn [take history]. apply list_elem_of_further.
  change (run (o :: take k ops) j) with (run (take k ops) (job_op o j)).
  apply IH.
Qed.

Lemma history_interrupt (P : job -> Prop) (ops : list op) (k : nat)
  (m : string) (j : job) :
  (forall j m, P j -> P (job_fail m j)) ->
  P j -> Forall P (history ops j) ->
  Forall P (history (interrupt k m ops) j).
Proof.
  intros Hfail Hj H. unfold interrupt.
  destruct (existsb is_fail (take k ops)); [done|].
  rewrite history_app, history_take. apply Forall_app. split.
  - by apply Forall_take.
  - cbn [history job_op]. constructor; [|constructor].
    apply Hfail.
    assert (Hall : Forall P (j :: history ops j)) by by constructor.
    rewrite Forall_forall in Hall. apply Hall, run_take_in.
Qed.

Lemma worker_counted (py_int : string -> option Z) (scene_count : option Z)
  (e : env) (j : job) :
  count_accepted scene_count ->
  processed_scenes j = 0 -> total_scenes j = 0 ->
  Forall counted (history (_generate_from_url_worker py_int scene_count e) j).
Proof.
  intros Hc Hp Ht. unfold _generate_from_url_worker.
  destruct (download_from_url e) as [err|file d].
  { repeat (constructor; [unfold counted; simpl; lia|]). constructor. }
  set (count := resolve_scene_count py_int scene_count d (lyrics_lines e)).
  assert (H0 : 0 <= count) by by apply resolve_scene_count_nonneg.
  cbn [history job_op].
  repeat (constructor; [unfold counted; simpl; lia|]).
  destruct (plan_scenes _ count) as [scenes|] eqn:Hplan.
  2:{ cbn [history job_op].
      repeat (constructor; [unfold counted; simpl; lia|]). constructor. }
  apply plan_scenes_length in Hplan; [|done].
  destruct (scene_calls_scene_generation e scenes) as [H1 H2].
  remember (scene_generation e scenes) as sg eqn:Esg.
  apply history_counted; simpl; (done || lia).
Qed.

(** X12. For a scene count derived by the worker or requested and not
    negative, no snapshot of a run, interrupted or not, counts more
    processed scenes than the job's total. *)
Theorem processed_scenes_within_total (py_int : string -> option Z)
  (id url : string) (scene_count : option Z) (e : env)
  (crash : option (nat * string)) (st : store) :
  count_accepted scene_count ->
  Forall (fun s => exists j, s = Some j /\
                             0 <= processed_scenes j <= total_scenes j)
         (snapshots id (generate_from_url py_int url scene_count e crash) st).
Proof.
  intros Hc. unfold generate_from_url. rewrite snapshots_create.
  rewrite Forall_fmap.
  assert (H : Forall counted
    (new_job 0 ("Music Video: " ++ url) ::
     history (OpStage "download" "Downloading audio from URL" ::
              match crash with
              | None => _generate_from_url_worker py_int scene_count e
              | Some (k, message) =>
                  interrupt k message
                    (_generate_from_url_worker py_int scene_count e)
              end) (new_job 0 ("Music Video: " ++ url)))).
  { constructor; [unfold counted; simpl; lia|].
    cbn [history job_op]. constructor; [unfold counted; simpl; lia|].
    set (j1 := job_update_stage _ _ _).
    pose proof (worker_counted py_int scene_count e j1 Hc eq_refl eq_refl)
      as Hw.
    destruct crash as [[k m]|]; [|exact Hw].
    apply history_interrupt; [| unfold counted; simpl; lia | exact Hw].
    intros j m'. unfold counted. simpl. done. }
  eapply Forall_impl; [exact H|]. intros j Hj. simpl. eauto.
Qed.

Lemma processed_scenes_within_total_witness :
  Forall (fun s => exists j, s = Some j /\
                             0 <= processed_scenes j <= total_scenes j)
         (snapshots "job"
            (generate_from_url int_decimal "url" (Some 5) demo_env
               (Some (12%nat, "Error creating video: disk full"))) ∅).
Proof.
  apply (processed_scenes_within_total int_decimal "job" "url" (Some 5)
           demo_env (Some (12%nat, "Error creating video: disk full")) ∅).
  simpl. lia.
Defined.


(** *** The scene plan *)

Lemma imap_scene_ids {A} (f : nat -> A -> description) (l : list A)
  (a : nat) :
  scene_id <$> imap (fun i c => Scene (Z.of_nat (a + i) + 1) (f i c)) l =
  (fun i => Z.of_nat i + 1) <$> seq a (length l).
Proof.
  revert a f. induction l as [|x l IH]; intros a f; [done|].
  cbn [imap fmap list_fmap length seq scene_id].
  rewrite Nat.add_0_r. f_equal.
  rewrite <- (IH (S a) (fun i => f (S i))).
  f_equal. apply imap_ext. intros i y _. unfold compose.
  f_equal. lia.
Qed.

(** X13. For a count that is not negative the scenes of a plan are
    numbered 1, 2, ... up to the count, in this order. *)
Theorem plan_scenes_numbers_the_scenes (lines : list string) (count : Z)
  (scenes : list scene) :
  0 <= count -> plan_scenes lines count = Some scenes ->
  scene_id <$> scenes = (fun i => Z.of_nat i + 1) <$> seq 0 (Z.to_nat count).
Proof.
  intros Hc Hp. pose proof (plan_scenes_length lines count scenes Hc Hp) as Hl.
  revert Hp Hl. unfold plan_scenes.
  set (fl := match lines with [] => Some [] | _ => _ end).
  assert (Hfl : forall l, fl = Some l ->
            scene_id <$> l = (fun i => Z.of_nat i + 1) <$> seq 0 (length l)).
  { subst fl. intros l. destruct lines as [|x xs].
    - by intros [= <-].
    - destruct (count =? 0); [discriminate|]. intros [= <-].
      rewrite length_imap.
      apply (imap_scene_ids (fun _ c => FromLyrics c) _ 0). }
  destruct fl as [l|]; [|discriminate].
  specialize (Hfl l eq_refl). intros [= <-] Hl.
  rewrite length_app, length_map, length_seq in Hl.
  rewrite fmap_app, Hfl.
  replace (Z.to_nat count)
    with (length l + Z.to_nat (count - Z.of_nat (length l)))%nat by lia.
  rewrite seq_app, fmap_app. f_equal.
  rewrite <- list_fmap_compose. done.
Qed.

Lemma plan_scenes_numbers_the_scenes_witness :
  scene_id <$> [Scene 1 (FromLyrics ["a"]); Scene 2 (FromLyrics ["b"]);
                Scene 3 (Generic 3)] = [1; 2; 3].
Proof.
  exact (plan_scenes_numbers_the_scenes ["a"; "b"] 3 _ ltac:(lia) eq_refl).
Defined.

(** The lyric lines a plan uses, scene after scene. *)
Definition lyric_lines (scenes : list scene) : list string :=
  flat_map (fun s => match scene_description s with
                     | FromLyrics c => c
                     | Generic _ => []
                     end) scenes.








(** With seven lines for four scenes each scene gets one line and the last
    three lines are not used. *)
Example plan_scenes_drops_the_last_lines :
  lyric_lines <$> plan_scenes ["a"; "b"; "c"; "d"; "e"; "f"; "g"] 4
  = Some ["a"; "b"; "c"; "d"].
Proof. reflexivity. Qed.


End OrchestratorRuns.

(** ** Combining clips: the pairwise loop *)
Module CompositorRuns.
Import Compositor.






Section Runs.

Context {clip : Type}.
Context (encoder : string -> Q -> clip -> clip -> clip + string).





End Runs.





End CompositorRuns.

(** ** Fixing a workflow: what the result is *)
Module FixWorkflowRuns.
Import Json FixWorkflow FixWorkflowFacts.

(** [any(node.get('id') == 25 for node in nodes)] *)
Definition has_preview (ns : list dict) : bool :=
  existsb (fun n => py_eqb (dict_get "id" n) (JInt 25)) ns.

Definition has_order (n : dict) : Prop := dict_has "order" n = true.

Lemma has_preview_ids (ns : list dict) :
  has_preview ns =
  existsb (fun i => py_eqb i (JInt 25)) (map (dict_get "id") ns).
Proof. unfold has_preview. induction ns as [|n ns IH]; simpl; congruence. Qed.

Lemma has_preview_assign_order (k : Z) (ns : list dict) :
  has_preview (assign_order k ns) = has_preview ns.
Proof. by rewrite !has_preview_ids, assign_order_ids. Qed.

Lemma dict_has_set (k : string) (v : json) (d : dict) :
  dict_has k (dict_set k v d) = true.
Proof.
  induction d as [|[k0 v0] d IH]; simpl.
  - by rewrite String.eqb_refl.
  - destruct (String.eqb_spec k k0) as [->|Hne]; simpl.
    + by rewrite String.eqb_refl.
    + destruct (String.eqb_spec k k0); [done | exact IH].
Qed.

Lemma assign_order_has (k : Z) (ns : list dict) :
  Forall has_order (assign_order k ns).
Proof.
  revert k. induction ns as [|n ns IH]; intros k; simpl; [constructor|].
  destruct (dict_has "order" n) eqn:E; constructor; try apply IH; try done.
  apply dict_has_set.
Qed.

Lemma assign_order_fixed (k : Z) (ns : list dict) :
  Forall has_order ns -> assign_order k ns = ns.
Proof.
  induction 1 as [|n ns Hn _ IH]; simpl; [done|].
  unfold has_order in Hn. by rewrite Hn, IH.
Qed.

(** A node after the fix: as it was, or with the order it lacked. *)
Definition ordered_from (n n' : dict) : Prop :=
  n' = n \/
  (dict_has "order" n = false /\ exists k, n' = dict_set "order" (JInt k) n).

Lemma assign_order_nodes (k : Z) (ns : list dict) :
  Forall2 ordered_from ns (assign_order k ns).
Proof.
  revert k. induction ns as [|n ns IH]; intros k; simpl; [constructor|].
  destruct (dict_has "order" n) eqn:E; constructor; try apply IH.
  - by left.
  - right. split; [done|]. by eexists.
Qed.

(** Links that passed the validation pass it again, with no warning. *)
Lemma validate_links_again (ids : list json) (ls valid : list (list json))
  (ws : list warning) :
  validate_links ids ls = Some (valid, ws) ->
  validate_links ids valid = Some (valid, []).
Proof.
  revert valid ws. induction ls as [|l ls IH]; intros valid ws.
  { by intros [= <- <-]. }
  cbn [validate_links].
  destruct (6 <=? length l)%nat eqn:E6; [|apply IH].
  destruct l as [|a [|b [|c [|d [|e [|f [|g l]]]]]]]; try discriminate.
  destruct (validate_links ids ls) as [[valid' ws']|]; [|discriminate].
  specialize (IH valid' ws' eq_refl).
  destruct (py_in b ids && py_in d ids) eqn:Ein.
  - intros [= <- <-]. cbn [validate_links length Nat.leb].
    by rewrite IH, Ein.
  - by intros [= <- <-].
Qed.

(** X17. Fixing is idempotent: a workflow that came out of the fix goes
    through it again unchanged, and without a warning. *)
Theorem fix_workflow_file_is_idempotent (wf wf' : workflow)
  (warnings : list warning) :
  fix_workflow_file wf = Some (wf', warnings) ->
  fix_workflow_file wf' = Some (wf', []).
Proof.
  unfold fix_workflow_file at 1.
  destruct (nodes wf) as [ns|]; [|discriminate].
  fold (has_preview ns).
  set (added := if has_preview ns then _ else _).
  assert (Hadded : forall ns1 ls1, added = Some (ns1, ls1) ->
                                   has_preview ns1 = true).
  { subst added. intros ns1 ls1. destruct (has_preview ns) eqn:Hp.
    - by intros [= <- _].
    - assert (Hp' : has_preview (ns ++ [preview_node]) = true).
      { unfold has_preview. rewrite existsb_app. simpl.
        by rewrite orb_true_r. }
      destruct (link_53_exists _) as [[|]|]; try discriminate.
      + by intros [= <- _].
      + destruct (vae_decode_node_id _); try (by intros [= <- _]);
          destruct (links wf); try discriminate; by intros [= <- _]. }
  destruct added as [[ns1 ls1]|]; [|discriminate].
  specialize (Hadded ns1 ls1 eq_refl).
  destruct (validate_links _ _) as [[valid ws]|] eqn:Hv; [|discriminate].
  intros [= <- <-].
  unfold fix_workflow_file. cbn [nodes links].
  fold (has_preview (assign_order 0 ns1)).
  rewrite has_preview_assign_order, Hadded.
  rewrite (assign_order_fixed 0 (assign_order 0 ns1))
    by apply assign_order_has.
  change (default [] (Some valid)) with valid.
  by rewrite (validate_links_again _ _ _ _ Hv).
Qed.

Lemma fix_workflow_file_is_idempotent_witness :
  fix_workflow_file
    (Workflow (Some [[("id", JInt 1); ("order", JInt 0)];
                     [("id", JInt 2); ("order", JInt 1)];
                     preview_node])
              (Some []))
  = Some (Workflow (Some [[("id", JInt 1); ("order", JInt 0)];
                          [("id", JInt 2); ("order", JInt 1)];
                          preview_node])
                   (Some []), []).
Proof.
  exact (fix_workflow_file_is_idempotent
           (Workflow (Some [[("id", JInt 1)]; [("id", JInt 2)]])
                     (Some [[JInt 1; JInt 99; JInt 0; JInt 2; JInt 0;
                             JStr "IMAGE"]]))
           _ _ eq_refl).
Defined.

(** X18. A workflow that came out of the fix has a node with id 25 and an
    order on every node; its nodes are the given ones, in their order, each
    as it was or with the order it lacked, followed by the preview node
    when node 25 was missing: no node is removed or renumbered. *)
Theorem fix_workflow_file_keeps_the_nodes (wf wf' : workflow)
  (warnings : list warning) :
  fix_workflow_file wf = Some (wf', warnings) ->
  exists ns ns' ls',
    nodes wf = Some ns /\ wf' = Workflow (Some ns') (Some ls') /\
    has_preview ns' = true /\
    Forall has_order ns' /\
    Forall2 ordered_from
      (if has_preview ns then ns else ns ++ [preview_node]) ns'.
Proof.
  unfold fix_workflow_file.
  destruct (nodes wf) as [ns|]; [|discriminate].
  fold (has_preview ns).
  set (added := if has_preview ns then _ else _).
  assert (Hadded : forall ns1 ls1, added = Some (ns1, ls1) ->
            ns1 = if has_preview ns then ns else ns ++ [preview_node]).
  { subst added. intros ns1 ls1. destruct (has_preview ns) eqn:Hp.
    - by intros [= <- _].
    - destruct (link_53_exists _) as [[|]|]; try discriminate.
      + by intros [= <- _].
      + destruct (vae_decode_node_id _); try (by intros [= <- _]);
          destruct (links wf); try discriminate; by intros [= <- _]. }
  destruct added as [[ns1 ls1]|]; [|discriminate].
  specialize (Hadded ns1 ls1 eq_refl).
  destruct (validate_links _ _) as [[valid ws]|] eqn:Hv; [|discriminate].
  intros [= <- <-]. exists ns, (assign_order 0 ns1), valid.
  split; [done|]. split; [done|]. split; [|split].
  - rewrite has_preview_assign_order, Hadded.
    destruct (has_preview ns) eqn:Hp; [done|].
    unfold has_preview. rewrite existsb_app. simpl. by rewrite orb_true_r.
  - apply assign_order_has.
  - rewrite <- Hadded. apply assign_order_nodes.
Qed.

Lemma fix_workflow_file_keeps_the_nodes_witness :
  exists ns ns' ls',
    Some [[("id", JInt 1)]; [("id", JInt 2)]] = Some ns /\
    Workflow (Some [[("id", JInt 1); ("order", JInt 0)];
                    [("id", JInt 2); ("order", JInt 1)];
                    preview_node]) (Some [])
      = Workflow (Some ns') (Some ls') /\
    has_preview ns' = true /\
    Forall has_order ns' /\
    Forall2 ordered_from
      (if has_preview ns then ns else ns ++ [preview_node]) ns'.
Proof.
  exact (fix_workflow_file_keeps_the_nodes
           (Workflow (Some [[("id", JInt 1)]; [("id", JInt 2)]])
                     (Some [[JInt 1; JInt 99; JInt 0; JInt 2; JInt 0;
                             JStr "IMAGE"]]))
           _ _ eq_refl).
Defined.

End FixWorkflowRuns.

(** ** Waiting for a prompt: what every wait does *)
Module BackendRuns.
Import Backend BackendFacts.

Section Waiting.

Context (b : backend) (prompt_id : string) (timeout check_interval : Q).

(** The server has answered a status request with the error [m]. *)
Definition server_error (m : string) : Prop :=
  exists i executing pending,
    status_at b i = StatusData (Some m) executing pending.

(** What an outcome of the loop started at [start] and ended in [w'] can
    be. *)
Definition sound_outcome (start : Q) (w' : world) (o : outcome) : Prop :=
  match o with
  | Returned true (Outputs outs) => outs <> []
  | Returned true (Error _) => False
  | Returned false (Error m) =>
      server_error m \/
      (m = timeout_message /\ (timeout <= now w' - start)%Q)
  | Returned false (Outputs _) => False
  | Raised => ~ (0 <= check_interval)%Q
  | OutOfFuel => True
  end.

(** How the clock moves from [w] to the end [w'] of a loop run on [fuel]
    iterations at most. *)
Definition sound_timing (fuel : nat) (start : Q) (w w' : world) (o : outcome)
  : Prop :=
  (now w <= now w')%Q /\
  (o = OutOfFuel ->
   (now w - start + inject_Z (Z.of_nat fuel) * check_interval < timeout)%Q) /\
  (forall L, (forall i, (latency b i <= L)%Q) ->
     w' = w \/
     (now w' - start < timeout + 3 * check_interval + 3 * L)%Q).

Definition sound (fuel : nat) (start : Q) (w : world) (r : world * outcome)
  : Prop :=
  sound_outcome start r.1 r.2 /\
  ((0 <= check_interval)%Q -> (forall i, (0 <= latency b i)%Q) ->
   sound_timing fuel start w r.1 r.2).

Ltac lat_lower Hlat :=
  repeat match goal with
         | |- context [latency b ?i] =>
             lazymatch goal with
             | _ : (0 <= latency b i)%Q |- _ => fail
             | _ => pose proof (Hlat i)
             end
         end.

Ltac lat_upper HL L :=
  repeat match goal with
         | |- context [latency b ?i] =>
             lazymatch goal with
             | _ : (latency b i <= L)%Q |- _ => fail
             | _ => pose proof (HL i)
             end
         end.

Ltac timing :=
  let Hci := fresh "Hci" in
  let Hlat := fresh "Hlat" in
  intros Hci Hlat; cbn [request now log]; split;
  [ lat_lower Hlat; lra
  | let L := fresh "L" in
    let HL := fresh "HL" in
    intros L HL; lat_lower Hlat; lat_upper HL L; lra ].

(** An iteration that returns at once, from a world [w1] reached within
    the iteration. *)
Lemma sound_return (fuel : nat) (start : Q) (w w1 : world) (o : outcome) :
  (now w - start < timeout)%Q ->
  sound_outcome start w1 o -> o <> OutOfFuel ->
  ((0 <= check_interval)%Q -> (forall i, (0 <= latency b i)%Q) ->
   (now w <= now w1)%Q /\
   forall L, (forall i, (latency b i <= L)%Q) ->
             (now w1 <= now w + 2 * check_interval + 3 * L)%Q) ->
  sound fuel start w (w1, o).
Proof.
  intros Hlt Ho Hne Ht. split; [exact Ho|]. intros Hci Hlat.
  destruct (Ht Hci Hlat) as [H1 H2]. split; [exact H1|].
  split; [done|]. intros L HL. right. specialize (H2 L HL).
  cbn [fst]. lra.
Qed.

Lemma wait_loop_sound (start : Q) (fuel : nat) (w : world) :
  sound fuel start w
        (wait_loop b prompt_id timeout check_interval fuel start w).
Proof.
  revert w. induction fuel as [|fuel IH]; intros w; cbn [wait_loop].
  - destruct (Qlt_le_dec _ _) as [Hlt|Hge]; (split; [|intros Hci Hlat]);
      cbn [fst snd sound_outcome]; try done.
    + split; [apply Qle_refl|]. split; [|by left].
      intros _. change (inject_Z (Z.of_nat 0)) with 0%Q. lra.
    + right. done.
    + split; [apply Qle_refl|]. split; [done | by left].
  - destruct (Qlt_le_dec _ _) as [Hlt|Hge].
    2:{ split; [|intros Hci Hlat]; cbn [fst snd sound_outcome].
        - right. done.
        - split; [apply Qle_refl|]. split; [done | by left]. }
    assert (Hagain : forall w1,
      ((0 <= check_interval)%Q -> (forall i, (0 <= latency b i)%Q) ->
       (now w <= now w1)%Q /\
       forall L, (forall i, (latency b i <= L)%Q) ->
                 (now w1 <= now w + 2 * check_interval + 3 * L)%Q) ->
      sound (S fuel) start w
        (match sleep check_interval w1 with
         | Some w2 =>
             wait_loop b prompt_id timeout check_interval fuel start w2
         | None => (w1, Raised)
         end)).
    { intros w1 Ht. unfold sleep.
      destruct (Qle_bool 0 check_interval) eqn:Eci.
      2:{ split; [|intros Hci; apply Qle_bool_iff in Hci; congruence].
          cbn [fst snd sound_outcome]. intros Hci.
          apply Qle_bool_iff in Hci. congruence. }
      set (w2 := World (now w1 + check_interval)%Q
                       (log w1 ++ [EvSleep check_interval])).
      destruct (IH w2) as [Ho Htime]. split; [exact Ho|].
      intros Hci Hlat. destruct (Ht Hci Hlat) as [H1 H2].
      destruct (Htime Hci Hlat) as (T1 & T2 & T3).
      assert (Hw2 : now w2 = (now w1 + check_interval)%Q) by done.
      split; [rewrite Hw2 in T1; lra|]. split.
      - intros Hout. specialize (T2 Hout). rewrite Hw2 in T2.
        rewrite Nat2Z.inj_succ. unfold Z.succ. rewrite inject_Z_plus.
        change (inject_Z 1) with 1%Q. lra.
      - intros L HL. right. specialize (H2 L HL).
        destruct (T3 L HL) as [->|T]; [rewrite Hw2; lra | exact T]. }
    assert (Hci2 : Qle_bool 0 (check_interval * 2) = false ->
                   ~ (0 <= check_interval)%Q).
    { intros E Hci. assert (H : (0 <= check_interval * 2)%Q) by lra.
      apply Qle_bool_iff in H. congruence. }
    destruct (status_at b (length (log w)))
      as [code| |[err|] exe pend] eqn:Est.
    + apply Hagain. timing.
    + apply Hagain. timing.
    + apply sound_return; [done | | done | timing].
      left. by exists (length (log w)), exe, pend.
    + destruct (is_prompt prompt_id exe); [apply Hagain; timing|].
      unfold fetch_history.
      destruct (history_at b _) as [|[|o outs]|].
      * destruct (is_prompt prompt_id pend); [apply Hagain; timing|].
        unfold sleep at 1.
        destruct (Qle_bool 0 (check_interval * 2)) eqn:E2.
        2:{ split; [exact (Hci2 eq_refl)|].
            intros Hci. by destruct (Hci2 eq_refl). }
        destruct (history_at b _) as [|[|o outs]|].
        -- apply Hagain. timing.
        -- apply Hagain. timing.
        -- apply sound_return; [done | done | done | timing].
        -- apply Hagain. timing.
      * apply Hagain. timing.
      * apply sound_return; [done | done | done | timing].
      * apply Hagain. timing.
Qed.

End Waiting.

(** X19. With a positive interval, on a server whose requests take no
    negative time, the wait always returns: within [timeout / interval]
    iterations, rounded up, it has an answer or the timeout error; it
    neither raises nor polls for ever. *)
Theorem wait_for_prompt_returns (b : backend) (prompt_id : string)
  (timeout check_interval : Q) (fuel : nat) (w : world) :
  (0 < check_interval)%Q -> (forall i, (0 <= latency b i)%Q) ->
  (timeout <= inject_Z (Z.of_nat fuel) * check_interval)%Q ->
  exists w' ok r,
    wait_for_prompt b prompt_id timeout check_interval fuel w
      = (w', Returned ok r).
Proof.
  intros Hci Hlat Hfuel. unfold wait_for_prompt.
  destruct (wait_loop_sound b prompt_id timeout check_interval (now w) fuel w)
    as [Ho Ht].
  destruct (wait_loop _ _ _ _ _ _ _) as [w' o]. cbn [fst snd] in *.
  destruct o as [ok r| |].
  - by exists w', ok, r.
  - destruct Ho. lra.
  - destruct (Ht ltac:(lra) Hlat) as (_ & T & _).
    specialize (T eq_refl). revert T. generalize (now w). intros q T. lra.
Qed.

Lemma wait_for_prompt_returns_witness :
  exists w' ok r,
    wait_for_prompt vanished "p" 7 1 7 (World 0 []) = (w', Returned ok r).
Proof.
  apply wait_for_prompt_returns; [reflexivity | discriminate | discriminate].
Defined.

(** X20. What the wait returns is well formed: a success carries at least
    one output, a failure carries an error, and that error is one the
    server sent in a status answer or the timeout error, which is given
    only once the timeout has elapsed. *)
Theorem wait_result_is_outputs_or_error (b : backend) (prompt_id : string)
  (timeout check_interval : Q) (fuel : nat) (w w' : world) (ok : bool)
  (r : payload) :
  wait_for_prompt b prompt_id timeout check_interval fuel w
    = (w', Returned ok r) ->
  (ok = true -> exists o outs, r = Outputs (o :: outs)) /\
  (ok = false ->
   exists m, r = Error m /\
     (server_error b m \/
      (m = timeout_message /\ (timeout <= now w' - now w)%Q))).
Proof.
  intros H. unfold wait_for_prompt in H.
  destruct (wait_loop_sound b prompt_id timeout check_interval (now w) fuel w)
    as [Ho _].
  rewrite H in Ho. cbn [fst snd sound_outcome] in Ho.
  split; intros ->.
  - destruct r as [[|o outs]|m]; try done. by exists o, outs.
  - destruct r as [outs|m]; [done|]. by exists m.
Qed.

Lemma wait_result_is_outputs_or_error_witness :
  exists m, Error timeout_message = Error m /\
    (server_error vanished m \/
     (m = timeout_message /\
      (7 <= now (wait_for_prompt vanished "p" 7 1 10 (World 0 [])).1
            - now (World 0 []))%Q)).
Proof.
  refine (proj2 (wait_result_is_outputs_or_error vanished "p" 7 1 10
                   (World 0 []) _ false (Error timeout_message) _) eq_refl).
  vm_compute. reflexivity.
Defined.

(** X21. The wait does not overrun by more than one iteration: when each
    request takes between 0 and [L] seconds, it returns no later than
    [timeout + 3 * check_interval + 3 * L] seconds after it was called. *)
Theorem wait_overrun_is_bounded (b : backend) (prompt_id : string)
  (timeout check_interval L : Q) (fuel : nat) (w : world) :
  (0 <= timeout)%Q -> (0 <= check_interval)%Q ->
  (forall i, (0 <= latency b i <= L)%Q) ->
  let w' := (wait_for_prompt b prompt_id timeout check_interval fuel w).1 in
  (now w <= now w')%Q /\
  (now w' - now w <= timeout + 3 * check_interval + 3 * L)%Q.
Proof.
  intros Ht Hci Hlat w'. subst w'. unfold wait_for_prompt.
  destruct (wait_loop_sound b prompt_id timeout check_interval (now w) fuel w)
    as [_ Htime].
  destruct (Htime Hci (fun i => proj1 (Hlat i))) as (T1 & _ & T3).
  split; [exact T1|].
  destruct (T3 L (fun i => proj2 (Hlat i))) as [->|T]; [|lra].
  pose proof (Hlat 0%nat). generalize (now w). intros q. lra.
Qed.

Lemma wait_overrun_is_bounded_witness :
  let w' := (wait_for_prompt vanished "p" 7 1 10 (World 0 [])).1 in
  (now (World 0 []) <= now w')%Q /\
  (now w' - now (World 0 []) <= 7 + 3 * 1 + 3 * 0)%Q.
Proof.
  apply (wait_overrun_is_bounded vanished "p" 7 1 0 10 (World 0 []));
    [discriminate | discriminate |].
  intros i. split; discriminate.
Defined.

(** *** The downloads *)

(** The image outputs that have a file name. *)
Definition wanted (o : string * output) : bool :=
  match o.2 with
  | OutImage filename _ => negb (String.eqb filename "")
  | OutOther _ => false
  end.

(** The requests they call for. *)
Definition fetches (outputs : list (string * output)) : list event :=
  flat_map (fun o => match o.2 with
                     | OutImage filename subfolder =>
                         if String.eqb filename "" then []
                         else [EvGetImage filename subfolder]
                     | OutOther _ => []
                     end) outputs.

Lemma fetches_are_downloads (outputs : list (string * output)) :
  forallb is_download (fetches outputs) = true.
Proof.
  induction outputs as [|[k [f s|t]] outs IH]; simpl; try done.
  by destruct (String.eqb f "").
Qed.

(** X22. [download_output_images] asks for every image output that has a
    file name, once and in order, whether or not earlier images arrived,
    and for nothing else; the keys it returns are among those of these
    outputs, in their order, and are all of them when every image
    arrives. *)
Theorem download_requests_each_image_once (b : backend)
  (outputs : list (string * output)) (w : world) :
  let r := download_output_images b outputs w in
  log r.1 = log w ++ fetches outputs /\
  r.2 `sublist_of` (List.filter wanted outputs).*1 /\
  ((forall i, image_at b i = true) ->
   r.2 = (List.filter wanted outputs).*1).
Proof.
  revert w. induction outputs as [|[k [f s|t]] outs IH]; intros w.
  - simpl. by rewrite app_nil_r.
  - cbn [download_output_images fetches flat_map snd wanted List.filter].
    unfold wanted at 1 3. cbn [snd].
    destruct (String.eqb f "") eqn:Ef; cbn [negb app].
    + apply IH.
    + specialize (IH (request b (EvGetImage f s) w)).
      destruct (download_output_images b outs _) as [w2 keys].
      cbn [fst snd] in *. destruct IH as (IH1 & IH2 & IH3).
      split; [|split].
      * rewrite IH1. cbn [request log]. by rewrite <- app_assoc.
      * cbn [fmap list_fmap fst].
        destruct (image_at b _); [by apply sublist_skip | by apply sublist_cons].
      * intros Hall. rewrite Hall. cbn [fmap list_fmap fst]. f_equal.
        by apply IH3.
  - cbn [download_output_images fetches flat_map snd wanted List.filter app].
    apply IH.
Qed.

(** X23. In [generate_scene] the downloads come after the wait and only
    after a successful one: the requests made are polls, with no download
    among them, followed by downloads alone, and there is no download at
    all unless the wait has given outputs. *)
Theorem downloads_follow_a_successful_wait (b : backend) (prompt_id : string)
  (timeout check_interval : Q) (fuel : nat) (w : world) :
  let r := await_and_download b prompt_id timeout check_interval fuel w in
  exists polls downloads,
    log r.1 = log w ++ polls ++ downloads /\
    forallb (fun ev => negb (is_download ev)) polls = true /\
    forallb is_download downloads = true /\
    ((forall keys, r.2 <> Some (inl keys)) -> downloads = []).
Proof.
  intros r. subst r. unfold await_and_download, wait_for_prompt.
  destruct (wait_loop_log b prompt_id timeout check_interval fuel (now w) w)
    as (polls & Hlog & Hpolls).
  destruct (wait_loop _ _ _ _ _ _ _) as [w' o]. cbn [fst] in Hlog.
  assert (Hnone : forall x : option (list string + string),
    exists polls downloads,
      log (w', x).1 = log w ++ polls ++ downloads /\
      forallb (fun ev => negb (is_download ev)) polls = true /\
      forallb is_download downloads = true /\
      ((forall keys, (w', x).2 <> Some (inl keys)) -> downloads = [])).
  { intros x. exists polls, []. by rewrite app_nil_r. }
  destruct o as [[|] [outs|m]| |]; try apply Hnone.
  pose proof (download_requests_each_image_once b outs w') as (D1 & _).
  destruct (download_output_images b outs w') as [w'' keys].
  cbn [fst snd] in *. exists polls, (fetches outs).
  split; [by rewrite D1, Hlog, app_assoc|].
  split; [exact Hpolls|]. split; [apply fetches_are_downloads|].
  intros H. by destruct (H keys).
Qed.

End BackendRuns.

(** ** Patching a workflow: what an update can do *)
Module PatcherRuns.
Import Patcher PatcherFacts.

Section Updates.

Context (py_repr : heap -> loc -> string).

(** The node [v] answers to [node_id]. *)
Definition names (h : heap) (node_id : string) (v : val) : bool :=
  match v with
  | VRef l =>
      match h !! l with
      | Some (ODict node) =>
          String.eqb (py_str py_repr h (dict_get (KStr "id") node)) node_id
      | _ => false
      end
  | _ => false
  end.

(** The key of an update that reaches no node: it is not of the form
    [node_id.param], or no node of the workflow answers to [node_id]. *)
Definition misses (h : heap) (updated_workflow : val) (key : string) : bool :=
  match Orchestrator.split_char "."%char key with
  | [node_id; _] =>
      match workflow_nodes h updated_workflow with
      | Some nodes => negb (existsb (names h node_id) nodes)
      | None => true
      end
  | _ => true
  end.

Lemma update_nodes_miss (h : heap) (nodes : list val)
  (node_id param : string) (value : val) :
  existsb (names h node_id) nodes = false ->
  default h (update_nodes py_repr h nodes node_id param value) = h.
Proof.
  induction nodes as [|v nodes IH]; [done|].
  cbn [existsb]. intros H. apply orb_false_elim in H as [Hv Hn].
  destruct v as [| | | |l]; try done. cbn [update_nodes].
  unfold names in Hv.
  destruct (h !! l) as [[node|vs]|]; try done.
  rewrite Hv. by apply IH.
Qed.

Lemma update_one_miss (h : heap) (updated_workflow : val) (key : string)
  (value : val) :
  misses h updated_workflow key = true ->
  update_one py_repr h updated_workflow key value = h.
Proof.
  unfold misses, update_one.
  destruct (Orchestrator.split_char _ key) as [|node_id [|param [|]]];
    try done.
  destruct (workflow_nodes h updated_workflow) as [nodes|]; [|done].
  intros H. apply negb_true_iff in H. by apply update_nodes_miss.
Qed.







End Updates.

(** X24. Updates that reach no node are skipped without harm: when every
    key either is not of the form [node_id.param] or names a node id that
    no node of the copy has, [update_workflow] returns the plain deep copy
    of the workflow. *)
Theorem updates_that_reach_no_node_change_nothing
  (py_repr : heap -> loc -> string) (fuel : nat) (h h1 : heap)
  (workflow updated_workflow : val) (updates : list (string * val)) :
  deepcopy fuel workflow h = Some (h1, updated_workflow) ->
  forallb (fun kv => misses py_repr h1 updated_workflow kv.1) updates = true ->
  update_workflow py_repr fuel h workflow updates
    = Some (h1, updated_workflow).
Proof.
  intros Hcopy Hmiss. unfold update_workflow. rewrite Hcopy. do 2 f_equal.
  unfold apply_updates. induction updates as [|[k v] updates IH]; [done|].
  cbn [forallb fst] in Hmiss. apply andb_prop in Hmiss as [Hk Hrest].
  cbn [fold_left fst snd]. rewrite update_one_miss by done. by apply IH.
Qed.

Lemma updates_that_reach_no_node_change_nothing_witness :
  update_workflow demo_repr 4 demo_heap (VRef 5)
    [("9.text", VStr "no such node"); ("malformed", VInt 1);
     ("6.a.b", VRef 0)]
  = deepcopy 4 (VRef 5) demo_heap.
Proof.
  destruct (deepcopy 4 (VRef 5) demo_heap) as [[h1 uw]|] eqn:Hcopy;
    [|by vm_compute in Hcopy].
  apply (updates_that_reach_no_node_change_nothing demo_repr 4 demo_heap h1
           (VRef 5) uw); [exact Hcopy|].
  vm_compute in Hcopy. injection Hcopy as <- <-. vm_compute. reflexivity.
Defined.


End PatcherRuns.

(** ** The nodes [generate_scene] patches *)
Module SceneRequestFacts.
Import Json SceneRequest.

Section Search.

Context (py_repr : json -> string).

Definition is_text_encoder (type : json) : bool :=
  py_eqb type (JStr "CLIPTextEncode").

(** A node the first loop goes past: it has a type, it is not taken for
    the positive prompt and it is not a SaveImage node. *)
Definition passed_over (node : json) : Prop :=
  exists type,
    getitem node "type" = Some type /\
    (if is_text_encoder type then takes_prompt node else Some false)
      = Some false /\
    py_eqb type (JStr "SaveImage") = false.

(** A node the first loop takes for the positive prompt. *)
Definition taken (node : json) (id : string) : Prop :=
  exists type,
    getitem node "type" = Some type /\ is_text_encoder type = true /\
    takes_prompt node = Some true /\ node_id py_repr node = Some id.

(** The text a CLIPTextEncode node is judged by. *)
Definition prompt_text (node : json) : option json :=
  match has_text_input node with
  | Some true =>
      match getitem node "inputs" with
      | Some inputs => getitem inputs "text"
      | None => None
      end
  | _ =>
      match getitem node "widgets_values" with
      | Some widgets => first_item widgets
      | None => None
      end
  end.

Lemma find_nodes_passed_over (pre rest : list json)
  (save_node_id : option string) :
  Forall passed_over pre ->
  find_nodes py_repr (pre ++ rest) save_node_id
    = find_nodes py_repr rest save_node_id.
Proof.
  induction 1 as [|node pre (type & Ht & Hp & Hs) _ IH]; [done|].
  cbn [app find_nodes]. rewrite Ht. fold (is_text_encoder type).
  by rewrite Hp, Hs.
Qed.

Lemma find_nodes_taken (node : json) (id : string) (rest : list json)
  (save_node_id : option string) :
  taken node id ->
  find_nodes py_repr (node :: rest) save_node_id
    = Some (Some id, save_node_id).
Proof.
  intros (type & Ht & Hc & Hp & Hid). cbn [find_nodes]. rewrite Ht.
  fold (is_text_encoder type). by rewrite Hc, Hp, Hid.
Qed.

Lemma takes_prompt_text (node : json) :
  takes_prompt node = Some true ->
  exists s, prompt_text node = Some (JStr s) /\ looks_negative s = false.
Proof.
  unfold takes_prompt, prompt_text.
  destruct (has_text_input node) as [[|]|]; [| |done].
  - destruct (getitem node "inputs") as [inputs|]; [|done].
    destruct (getitem inputs "text") as [[| | |s| |]|]; try done.
    simpl. intros [= H]. apply andb_prop in H as [_ H].
    exists s. split; [done|]. by apply negb_true_iff.
  - destruct (and_then _ _) as [[|]|]; try done.
    destruct (getitem node "widgets_values") as [widgets|]; [|done].
    destruct (first_item widgets) as [[| | |s| |]|]; try done.
    intros [= H]. exists s. split; [done|]. by apply negb_true_iff.
Qed.

Lemma find_nodes_text_node (nodes : list json) (save save' : option string)
  (id : string) :
  find_nodes py_repr nodes save = Some (Some id, save') ->
  exists node, node ∈ nodes /\ taken node id.
Proof.
  revert save. induction nodes as [|node nodes IH]; intros save; [done|].
  cbn [find_nodes].
  destruct (getitem node "type") as [type|] eqn:Ht; [|done].
  fold (is_text_encoder type).
  destruct (is_text_encoder type) eqn:Hc.
  - destruct (takes_prompt node) as [[|]|] eqn:Hp; [| |done].
    + destruct (node_id py_repr node) as [id'|] eqn:Hid; [|done].
      intros [= <- <-]. exists node. split; [apply list_elem_of_here|].
      by exists type.
    + assert (Hnext : forall s,
        find_nodes py_repr nodes s = Some (Some id, save') ->
        exists node0, node0 ∈ node :: nodes /\ taken node0 id).
      { intros s H. destruct (IH _ H) as (n & Hin & Hn).
        exists n. split; [by apply list_elem_of_further | done]. }
      destruct (py_eqb type (JStr "SaveImage")); [|apply Hnext].
      destruct (node_id py_repr node); [apply Hnext | done].
  - assert (Hnext : forall s,
      find_nodes py_repr nodes s = Some (Some id, save') ->
      exists node0, node0 ∈ node :: nodes /\ taken node0 id).
    { intros s H. destruct (IH _ H) as (n & Hin & Hn).
      exists n. split; [by apply list_elem_of_further | done]. }
    destruct (py_eqb type (JStr "SaveImage")); [|apply Hnext].
    destruct (node_id py_repr node); [apply Hnext | done].
Qed.

(** A node that is none of the loops' business: a dict with an id and a
    type other than CLIPTextEncode, and without inputs. *)
Definition plain (node : json) : Prop :=
  exists d type,
    node = JDict d /\ getitem node "type" = Some type /\
    is_text_encoder type = false /\
    dict_has "inputs" d = false /\ dict_has "id" d = true.

Lemma find_nodes_plain (nodes : list json) (save : option string) :
  Forall plain nodes ->
  exists save', find_nodes py_repr nodes save = Some (None, save').
Proof.
  intros H. revert save.
  induction H as [|node nodes (d & type & -> & Ht & Hc & Hi & Hid) _ IH];
    intros save; [by eexists|].
  cbn [find_nodes]. rewrite Ht. fold (is_text_encoder type). rewrite Hc.
  unfold node_id, getitem. rewrite Hid.
  destruct (py_eqb type (JStr "SaveImage")); apply IH.
Qed.

Lemma any_text_input_plain (nodes : list json) :
  Forall plain nodes -> any_text_input py_repr nodes = Some None.
Proof.
  induction 1 as [|node nodes (d & type & -> & Ht & Hc & Hi & Hid) _ IH];
    [done|].
  cbn [any_text_input]. unfold has_text_input, contains. rewrite Hi.
  exact IH.
Qed.

End Search.

(** X26. The search for the nodes to patch ends at the text node: what
    comes after it in the workflow is never looked at. So when no
    SaveImage node comes before the node taken for the prompt, the only
    update built is the prompt, and the file name prefix and the output
    directory of a SaveImage node further down are not patched. *)
Theorem nothing_after_the_text_node_is_looked_at (py_repr : json -> string)
  (workflow : json) (pre post : list json) (node : json) (id : string)
  (prompt output_name output_dir : string) :
  getitem workflow "nodes" = Some (JList (pre ++ node :: post)) ->
  Forall passed_over pre -> taken py_repr node id -> id <> "" ->
  scene_updates py_repr workflow prompt output_name output_dir
    = Some (inl [((id ++ ".text")%string, JStr prompt)]).
Proof.
  intros Hn Hpre Hnode Hid. unfold scene_updates. rewrite Hn. cbn [items].
  rewrite (find_nodes_passed_over py_repr pre _ None Hpre).
  rewrite (find_nodes_taken py_repr node id post None Hnode).
  unfold truthy. destruct (String.eqb_spec id ""); [done|]. reflexivity.
Qed.

Lemma nothing_after_the_text_node_is_looked_at_witness :
  scene_updates (fun _ => "<object>")
    (JDict [("nodes", JList [
       JDict [("id", JInt 4); ("type", JStr "CheckpointLoaderSimple")];
       JDict [("id", JInt 6); ("type", JStr "CLIPTextEncode");
              ("widgets_values", JList [JStr "a photo of a cat"])];
       JDict [("id", JInt 9); ("type", JStr "SaveImage");
              ("widgets_values", JList [JStr "ComfyUI"])]])])
    "a dog, cinematic style" "scene_1" "outputs/scenes"
  = Some (inl [("6.text", JStr "a dog, cinematic style")]).
Proof.
  apply (nothing_after_the_text_node_is_looked_at (fun _ => "<object>") _
           [JDict [("id", JInt 4); ("type", JStr "CheckpointLoaderSimple")]]
           [JDict [("id", JInt 9); ("type", JStr "SaveImage");
                   ("widgets_values", JList [JStr "ComfyUI"])]]
           (JDict [("id", JInt 6); ("type", JStr "CLIPTextEncode");
                   ("widgets_values", JList [JStr "a photo of a cat"])])
           "6").
  - reflexivity.
  - constructor; [|constructor].
    exists (JStr "CheckpointLoaderSimple"). by repeat split.
  - exists (JStr "CLIPTextEncode"). by repeat split.
  - discriminate.
Defined.

(** X27. The node the first loop takes for the prompt is a CLIPTextEncode
    node of the workflow whose text (its text input or, failing that, its
    first widget value) is a string in which none of the words negative,
    bad, ugly and low quality occurs, whatever the case of its letters. *)
Theorem the_text_node_taken_is_not_negative (py_repr : json -> string)
  (nodes : list json) (save save' : option string) (id : string) :
  find_nodes py_repr nodes save = Some (Some id, save') ->
  exists node type s,
    node ∈ nodes /\ getitem node "type" = Some type /\
    py_eqb type (JStr "CLIPTextEncode") = true /\
    node_id py_repr node = Some id /\
    prompt_text node = Some (JStr s) /\
    Forall (fun neg_word => substring_of neg_word (lower s) = false)
           negative_words.
Proof.
  intros H.
  destruct (find_nodes_text_node py_repr nodes save save' id H)
    as (node & Hin & type & Ht & Hc & Hp & Hid).
  destruct (takes_prompt_text node Hp) as (s & Hs & Hneg).
  exists node, type, s. do 5 (split; [done|]).
  unfold looks_negative in Hneg. rewrite Forall_forall. intros w Hw.
  destruct (substring_of w (lower s)) eqn:E; [|done].
  assert (existsb (fun neg_word => substring_of neg_word (lower s))
                  negative_words = true); [|congruence].
  apply existsb_exists. exists w. split; [by apply list_elem_of_In | done].
Qed.

Lemma the_text_node_taken_is_not_negative_witness :
  exists node type s,
    node ∈ [JDict [("id", JInt 7); ("type", JStr "CLIPTextEncode");
                   ("widgets_values", JList [JStr "Ugly, BAD anatomy"])];
            JDict [("id", JInt 6); ("type", JStr "CLIPTextEncode");
                   ("widgets_values", JList [JStr "a photo of a cat"])]] /\
    getitem node "type" = Some type /\
    py_eqb type (JStr "CLIPTextEncode") = true /\
    node_id (fun _ => "<object>") node = Some "6" /\
    prompt_text node = Some (JStr s) /\
    Forall (fun neg_word => substring_of neg_word (lower s) = false)
           negative_words.
Proof.
  exact (the_text_node_taken_is_not_negative (fun _ => "<object>")
           [JDict [("id", JInt 7); ("type", JStr "CLIPTextEncode");
                   ("widgets_values", JList [JStr "Ugly, BAD anatomy"])];
            JDict [("id", JInt 6); ("type", JStr "CLIPTextEncode");
                   ("widgets_values", JList [JStr "a photo of a cat"])]]
           None None "6" eq_refl).
Defined.

(** X28. A workflow in which no node has inputs and none is a
    CLIPTextEncode node gives no update at all: [generate_scene] returns
    the error that no text input node was found, before anything is
    patched or queued. *)
Theorem no_text_node_no_request (py_repr : json -> string)
  (workflow : json) (nodes : list json)
  (prompt output_name output_dir : string) :
  getitem workflow "nodes" = Some (JList nodes) ->
  Forall plain nodes ->
  scene_updates py_repr workflow prompt output_name output_dir
    = Some (inr no_text_node).
Proof.
  intros Hn Hplain. unfold scene_updates. rewrite Hn. cbn [items].
  destruct (find_nodes_plain py_repr nodes None Hplain) as [save' ->].
  cbn [truthy]. by rewrite (any_text_input_plain py_repr nodes Hplain).
Qed.

Lemma no_text_node_no_request_witness :
  scene_updates (fun _ => "<object>")
    (JDict [("nodes", JList [
       JDict [("id", JInt 4); ("type", JStr "CheckpointLoaderSimple")];
       JDict [("id", JInt 9); ("type", JStr "SaveImage");
              ("widgets_values", JList [JStr "ComfyUI"])]])])
    "a dog" "scene_1" "outputs/scenes"
  = Some (inr no_text_node).
Proof.
  apply (no_text_node_no_request (fun _ => "<object>") _
           [JDict [("id", JInt 4); ("type", JStr "CheckpointLoaderSimple")];
            JDict [("id", JInt 9); ("type", JStr "SaveImage");
                   ("widgets_values", JList [JStr "ComfyUI"])]]);
    [reflexivity|].
  constructor; [|constructor; [|constructor]].
  - eexists _, (JStr "CheckpointLoaderSimple"). by repeat split.
  - eexists _, (JStr "SaveImage"). by repeat split.
Defined.

End SceneRequestFacts.

(** ** The outputs of a prompt *)
Module PromptOutputsFacts.
Import Json PromptOutputs.

(** An entry as [download_output_images] reads it: a dict with a type
    that, when the type is ['image'], has a file name and a subfolder. *)
Definition entry_ok (entry : json) : Prop :=
  exists d,
    entry = JDict d /\ dict_has "type" d = true /\
    (py_eqb (dict_get "type" d) (JStr "image") = true ->
     dict_has "filename" d = true /\ dict_has "subfolder" d = true).

Lemma dict_set_entries (P : json -> Prop) (k : string) (v : json)
  (d : dict) :
  Forall (fun kv => P kv.2) d -> P v ->
  Forall (fun kv => P kv.2) (dict_set k v d).
Proof.
  intros Hd Hv. induction Hd as [|[k0 v0] d H0 Hd IH]; simpl.
  - by repeat constructor.
  - destruct (String.eqb k k0); constructor; done.
Qed.

Lemma output_entry_ok (output_data entry : json) :
  output_entry output_data = Some (Some entry) -> entry_ok entry.
Proof.
  unfold output_entry.
  destruct output_data as [| | | |[|first rest]|]; try done.
  destruct first as [| | | | |image_data]; try done.
  destruct (py_eqb (dict_get "type" image_data) (JStr "image")) eqn:E.
  - intros [= <-]. eexists. split; [reflexivity|]. by repeat split.
  - intros [= <-]. eexists. split; [reflexivity|]. split; [done|].
    cbn [dict_get String.eqb Ascii.eqb Bool.eqb]. unfold get_default.
    destruct (dict_has "type" image_data); [by rewrite E | done].
Qed.

Lemma node_entries_ok (node_id : string) (node_outputs outputs outputs'
  : dict) :
  Forall (fun kv => entry_ok kv.2) outputs ->
  node_entries node_id node_outputs outputs = Some outputs' ->
  Forall (fun kv => entry_ok kv.2) outputs'.
Proof.
  revert outputs. induction node_outputs as [|[name data] rest IH];
    intros outputs Hok; [by intros [= <-]|].
  cbn [node_entries].
  destruct (output_entry data) as [[entry|]|] eqn:E; [| |done].
  - apply IH. apply dict_set_entries; [done|]. by eapply output_entry_ok.
  - by apply IH.
Qed.

Lemma all_entries_ok (nodes outputs outputs' : dict) :
  Forall (fun kv => entry_ok kv.2) outputs ->
  all_entries nodes outputs = Some outputs' ->
  Forall (fun kv => entry_ok kv.2) outputs'.
Proof.
  revert outputs. induction nodes as [|[node_id node_outputs] rest IH];
    intros outputs Hok; [by intros [= <-]|].
  cbn [all_entries]. destruct node_outputs as [| | | | |d]; try done.
  destruct (node_entries node_id d outputs) as [o|] eqn:E; [|done].
  apply IH. by eapply node_entries_ok.
Qed.

(** X29. Every entry [get_prompt_outputs] returns is a dict with a type,
    and an entry of type ['image'] always carries a file name and a
    subfolder: what [download_output_images] reads from an entry is
    there. *)
Theorem prompt_outputs_are_well_formed (history : dict) (prompt_id : string)
  (outputs : dict) :
  get_prompt_outputs history prompt_id = Some outputs ->
  Forall (fun kv => entry_ok kv.2) outputs.
Proof.
  unfold get_prompt_outputs.
  destruct (dict_has prompt_id history); [|intros [= <-]; constructor].
  destruct (SceneRequest.contains _ _) as [[|]|]; try done.
  - destruct (SceneRequest.getitem _ _) as [[| | | | |nodes]|]; try done.
    apply all_entries_ok. constructor.
  - intros [= <-]. constructor.
Qed.

Lemma prompt_outputs_are_well_formed_witness :
  Forall (fun kv => entry_ok kv.2)
    [("9_images", JDict [("type", JStr "image");
                         ("filename", JStr "scene_00001_.png");
                         ("subfolder", JStr "")])].
Proof.
  apply (prompt_outputs_are_well_formed
           [("p1", JDict [("outputs", JDict [("9", JDict [("images",
              JList [JDict [("filename", JStr "scene_00001_.png");
                            ("type", JStr "image")]])])])])] "p1").
  reflexivity.
Defined.

(** An image output cut down to its first item. *)
Definition first_only (output_data : json) : json :=
  match output_data with
  | JList (JDict image_data :: _) =>
      if py_eqb (dict_get "type" image_data) (JStr "image")
      then JList [JDict image_data]
      else output_data
  | _ => output_data
  end.

Definition trim_node (node_outputs : json) : json :=
  match node_outputs with
  | JDict d => JDict (map (fun kv => (kv.1, first_only kv.2)) d)
  | _ => node_outputs
  end.

Definition trim (nodes : dict) : dict :=
  map (fun kv => (kv.1, trim_node kv.2)) nodes.

Lemma output_entry_first_only (output_data : json) :
  output_entry (first_only output_data) = output_entry output_data.
Proof.
  unfold first_only.
  destruct output_data as [| | | |[|first rest]|]; try done.
  destruct first as [| | | | |image_data]; try done.
  destruct (py_eqb (dict_get "type" image_data) (JStr "image")) eqn:E;
    [|done].
  unfold output_entry. by rewrite E.
Qed.

Lemma node_entries_trim (node_id : string) (d outputs : dict) :
  node_entries node_id (map (fun kv => (kv.1, first_only kv.2)) d) outputs
  = node_entries node_id d outputs.
Proof.
  revert outputs. induction d as [|[name data] rest IH]; intros outputs;
    [done|].
  cbn [map node_entries fst snd]. rewrite output_entry_first_only.
  destruct (output_entry data) as [[entry|]|]; try done; apply IH.
Qed.

Lemma all_entries_trim (nodes outputs : dict) :
  all_entries (trim nodes) outputs = all_entries nodes outputs.
Proof.
  revert outputs. induction nodes as [|[node_id node_outputs] rest IH];
    intros outputs; [done|].
  cbn [trim map all_entries fst snd].
  destruct node_outputs as [| | | | |d]; try done.
  cbn [trim_node]. rewrite node_entries_trim.
  destruct (node_entries node_id d outputs); [apply IH | done].
Qed.

Lemma dict_get_set (k : string) (v : json) (d : dict) :
  dict_get k (dict_set k v d) = v.
Proof.
  induction d as [|[k0 v0] d IH]; simpl.
  - by rewrite String.eqb_refl.
  - destruct (String.eqb_spec k k0) as [->|Hne]; simpl.
    + by rewrite String.eqb_refl.
    + destruct (String.eqb_spec k k0); [done | exact IH].
Qed.

(** X30. Of an image output only the first item counts: a node that has
    saved several images under one output gives one entry, made from the
    first image, and the history cut down to the first image of each
    image output gives the same outputs. *)
Theorem only_the_first_image_of_an_output_counts (history : dict)
  (prompt_id : string) (prompt_data nodes : dict) :
  dict_has prompt_id history = true ->
  dict_get prompt_id history = JDict prompt_data ->
  dict_has "outputs" prompt_data = true ->
  dict_get "outputs" prompt_data = JDict nodes ->
  get_prompt_outputs
    (dict_set prompt_id
       (JDict (dict_set "outputs" (JDict (trim nodes)) prompt_data)) history)
    prompt_id
  = get_prompt_outputs history prompt_id.
Proof.
  intros Hp Hpd Ho Hn. unfold get_prompt_outputs.
  rewrite FixWorkflowRuns.dict_has_set, dict_get_set, Hp, Hpd.
  cbn [SceneRequest.contains SceneRequest.getitem].
  rewrite FixWorkflowRuns.dict_has_set, dict_get_set, Ho, Hn.
  apply all_entries_trim.
Qed.

Lemma only_the_first_image_of_an_output_counts_witness :
  get_prompt_outputs
    [("p1", JDict [("outputs", JDict [("9", JDict [("images",
       JList [JDict [("filename", JStr "a.png"); ("type", JStr "image")]])
      ])])])] "p1"
  = get_prompt_outputs
    [("p1", JDict [("outputs", JDict [("9", JDict [("images",
       JList [JDict [("filename", JStr "a.png"); ("type", JStr "image")];
              JDict [("filename", JStr "b.png"); ("type", JStr "image")]])
      ])])])] "p1".
Proof.
  exact (only_the_first_image_of_an_output_counts
           [("p1", JDict [("outputs", JDict [("9", JDict [("images",
              JList [JDict [("filename", JStr "a.png");
                            ("type", JStr "image")];
                     JDict [("filename", JStr "b.png");
                            ("type", JStr "image")]])])])])]
           "p1" _ _ eq_refl eq_refl eq_refl eq_refl).
Defined.

End PromptOutputsFacts.
